(** * OpenLog: syslog ingestion and alerting, specification against code

    A shallow embedding of the TypeScript sources of OpenLog
    (syslog-parser.ts, syslog-server.ts, config.ts, database.ts,
    alert-engine.ts, webhook.ts) and the properties its specification
    states about them.

    Conventions of the embedding.
    - A JavaScript string is a [string]; its characters are the code units
      below 256, which covers every character the code tests for.
    - A [Date] is its [getTime()] value, an integer count of milliseconds.
      The cooldown gate represents the range limit of [Date]; elsewhere a
      date is taken to be in range.
    - Integers are [Z], counts and thresholds are [Q].  The source computes
      in IEEE doubles, which hold every integer up to 2^53 exactly: beyond
      that [parseInt] and the product of [parseTimeWindow] are rounded in
      the source and exact here, and the statements that depend on the
      difference are stated up to 2^53.  The quotient of [getSeverity] is
      rounded as the division of doubles rounds it.  [NaN] and division by
      zero, which the code can reach, are represented.
    - What the runtime or the outside world decides (the clock, the SQLite
      engine, the HTTP endpoint, the regular expressions of the two
      positional sub-parsers, [Date] parsing) is a section variable. *)

From Stdlib Require Import ZArith QArith Qround Qpower Lia Lqa Ascii
  Strings.Byte.
From stdpp Require Import base gmap strings list.

Local Open Scope Z_scope.

(** ** JavaScript string primitives used by the sources *)

Module JS.

Definition LF : ascii := "010".
Definition quote : string := String "034" EmptyString.
Definition CR : ascii := "013".
Definition NUL : ascii := "000".

(** [\d] *)
Definition isDigit (c : ascii) : bool :=
  match c with
  | "0" | "1" | "2" | "3" | "4" | "5" | "6" | "7" | "8" | "9" => true
  | _ => false
  end%char.

Definition digitValue (c : ascii) : Z :=
  match c with
  | "1" => 1 | "2" => 2 | "3" => 3 | "4" => 4 | "5" => 5
  | "6" => 6 | "7" => 7 | "8" => 8 | "9" => 9 | _ => 0
  end%char.

(** [\s], and the characters [trim] and [parseInt] strip: tab, line feed,
    vertical tab, form feed, carriage return, space, no-break space. *)
Definition isSpace (c : ascii) : bool :=
  match c with
  | "009" | "010" | "011" | "012" | "013" | " " | "160" => true
  | _ => false
  end%char.

(** A number as [parseInt] returns it. *)
Inductive number := NaN | Num (z : Z).

Fixpoint take (n : nat) (s : string) : string :=
  match n, s with
  | S n', String c s' => String c (take n' s')
  | _, _ => EmptyString
  end.

Fixpoint drop (n : nat) (s : string) : string :=
  match n, s with
  | S n', String _ s' => drop n' s'
  | _, _ => s
  end.

(** [s.substring(start, end)]: the arguments are swapped when
    [start > end], and clamped to the length. *)
Definition substring (s : string) (start stop : nat) : string :=
  let a := Nat.min start stop in
  let b := Nat.max start stop in
  take (b - a) (drop a s).

(** [s.substring(start)] *)
Definition substringFrom (s : string) (start : nat) : string := drop start s.

Fixpoint startsWith (s prefix : string) {struct prefix} : bool :=
  match prefix, s with
  | EmptyString, _ => true
  | String p prefix', String c s' =>
      if Ascii.eqb c p then startsWith s' prefix' else false
  | String _ _, EmptyString => false
  end.

(** [s.indexOf(c)] for a one-character needle: [-1] when absent. *)
Fixpoint indexOf (s : string) (c : ascii) : Z :=
  match s with
  | EmptyString => -1
  | String d s' =>
      if Ascii.eqb d c then 0
      else let i := indexOf s' c in if i <? 0 then -1 else i + 1
  end.

Fixpoint includes (s : string) (c : ascii) : bool :=
  match s with
  | EmptyString => false
  | String d s' => Ascii.eqb d c || includes s' c
  end.

Fixpoint trimStart (s : string) : string :=
  match s with
  | String c s' => if isSpace c then trimStart s' else s
  | EmptyString => EmptyString
  end.

Fixpoint trimEnd (s : string) : string :=
  match s with
  | EmptyString => EmptyString
  | String c s' =>
      match trimEnd s' with
      | EmptyString => if isSpace c then EmptyString else String c EmptyString
      | t => String c t
      end
  end.

Definition trim (s : string) : string := trimEnd (trimStart s).

(** Truthiness of a string: non-empty. *)
Definition truthy (s : string) : bool :=
  match s with EmptyString => false | _ => true end.

(** [s.split(sep)] for a one-character separator. *)
Fixpoint split (s : string) (sep : ascii) : list string :=
  match s with
  | EmptyString => [EmptyString]
  | String c s' =>
      if Ascii.eqb c sep then EmptyString :: split s' sep
      else match split s' sep with
           | h :: t => String c h :: t
           | [] => [String c EmptyString]
           end
  end.

(** [s.split(/\r?\n/)]: scanning from the left, a carriage return
    directly before a line feed belongs to the delimiter. *)
Fixpoint splitLines (s : string) : list string :=
  match s with
  | EmptyString => [EmptyString]
  | String c s' =>
      let keep :=
        match splitLines s' with
        | h :: t => String c h :: t
        | [] => [String c EmptyString]
        end in
      if Ascii.eqb c LF then EmptyString :: splitLines s'
      else if Ascii.eqb c CR then
        match s' with
        | String d s'' =>
            if Ascii.eqb d LF then EmptyString :: splitLines s'' else keep
        | EmptyString => keep
        end
      else keep
  end.

(** [parts.join(sep)] *)
Fixpoint join (parts : list string) (sep : string) : string :=
  match parts with
  | [] => EmptyString
  | [p] => p
  | p :: rest => p +:+ sep +:+ join rest sep
  end.

(** The longest run of decimal digits at the start, and what follows. *)
Fixpoint spanDigits (s : string) : string * string :=
  match s with
  | String c s' =>
      if isDigit c
      then let '(ds, rest) := spanDigits s' in (String c ds, rest)
      else (EmptyString, s)
  | EmptyString => (EmptyString, EmptyString)
  end.

Fixpoint digitsValueFrom (acc : Z) (ds : string) : Z :=
  match ds with
  | EmptyString => acc
  | String c ds' => digitsValueFrom (10 * acc + digitValue c) ds'
  end.

Definition digitsValue (ds : string) : Z := digitsValueFrom 0 ds.

(** 2^53: a double holds every integer of at most this magnitude
    exactly. *)
Definition maxExact : Z := 9007199254740992.

(** [parseInt(s, 10)]: leading white space is skipped, one sign is
    accepted, then the longest digit run is read; [NaN] without a digit.
    The result is the exact value of the digits.  The source has the double
    nearest to it, which is the same number up to [maxExact]. *)
Definition parseInt (s : string) : number :=
  let s := trimStart s in
  let '(negative, s) :=
    match s with
    | String "-" r => (true, r)
    | String "+" r => (false, r)
    | _ => (false, s)
    end in
  match fst (spanDigits s) with
  | EmptyString => NaN
  | ds => Num (if negative then - digitsValue ds else digitsValue ds)
  end.

(** [a || b] on an optional string: [undefined] and the empty string are
    falsy. *)
Definition orElse (a : option string) (b : string) : string :=
  match a with
  | Some s => if truthy s then s else b
  | None => b
  end.

End JS.

(** ** syslog-server.ts: the [data] handler with its three framing modes *)

Module Server.
Import JS.

(** [remaining.match(/^(\d+)\s/)]: the digit run [match[1]] and the
    length of the whole match [match[0]].  The greedy digit run has to be
    followed by one white-space character. *)
Definition matchLengthPrefix (remaining : string) : option (string * nat) :=
  match spanDigits remaining with
  | (EmptyString, _) => None
  | (digits, String c _) =>
      if isSpace c then Some (digits, S (String.length digits)) else None
  | (_, EmptyString) => None
  end.

(** The messages handed to [processMessage] for the complete lines, or
    for the NUL-terminated segments: each is trimmed, and dropped when
    nothing is left of it. *)
Definition emitTrimmed (pieces : list string) : list string :=
  List.filter truthy (List.map trim pieces).

(** One pass through the body of [while (remaining.length > 0)]. *)
Inductive iteration :=
| Continue (emitted : list string) (remaining : string)
| Break.

Definition iterate (remaining : string) : iteration :=
  match matchLengthPrefix remaining with
  | Some (digits, prefixLength) =>
      match parseInt digits with
      | Num msgLength =>
          let totalLength := Z.of_nat prefixLength + msgLength in
          if totalLength <=? Z.of_nat (String.length remaining) then
            let message :=
              substring remaining prefixLength (Z.to_nat totalLength) in
            Continue [message] (substringFrom remaining (Z.to_nat totalLength))
          else Break
      | NaN => Break
      end
  | None =>
      let lines := splitLines remaining in
      if (1 <? length lines)%nat then
        let complete := removelast lines in
        Continue (emitTrimmed complete) (List.last lines EmptyString)
      else if includes remaining NUL then
        let messages := split remaining NUL in
        Continue (emitTrimmed (removelast messages))
                 (List.last messages EmptyString)
      else Break
  end.

(** The loop; every pass that continues shortens [remaining], so
    [String.length remaining] passes are enough (lemma [decode_unfold]). *)
Fixpoint loop (fuel : nat) (remaining : string) : list string * string :=
  match fuel with
  | O => ([], remaining)
  | S fuel' =>
      if (0 <? String.length remaining)%nat then
        match iterate remaining with
        | Continue emitted remaining' =>
            let '(later, final) := loop fuel' remaining' in
            (emitted ++ later, final)
        | Break => ([], remaining)
        end
      else ([], remaining)
  end.

(** The messages emitted for the accumulated [text], and the buffer
    retained. *)
Definition decode (text : string) : list string * string :=
  loop (String.length text) text.

(** [new TextDecoder().decode(data)] for UTF-8 input whose characters lie
    below U+0100: a byte below 0x80 is one character, a lead byte 0xC2 or
    0xC3 with its continuation byte is one character.  [None] stands for
    the input outside this range, where the decoder of the source returns
    text all the same, with characters from U+0100 on or with U+FFFD in
    place of a malformed or cut sequence, which the strings here do not
    hold.  Each chunk is decoded on its own. *)
Fixpoint decodeUtf8 (bytes : list Byte.byte) : option string :=
  match bytes with
  | [] => Some EmptyString
  | b :: rest =>
      let n := Byte.to_N b in
      if (n <? 128)%N then String (ascii_of_N n) <$> decodeUtf8 rest
      else if (n =? 194)%N || (n =? 195)%N then
        match rest with
        | c :: rest' =>
            let m := Byte.to_N c in
            if (128 <=? m)%N && (m <? 192)%N
            then String (ascii_of_N ((n - 194) * 64 + m)) <$> decodeUtf8 rest'
            else None
        | [] => None
        end
      else None
  end.

(** [messageBuffers : Map<Socket, string>]; a socket is a number here. *)
Definition Socket := nat.

(** The [data] handler: [chunk] is the decoded text of the bytes that
    arrived.  Returns the arguments of the [processMessage] calls, in
    order, and the updated buffers. *)
Definition data (messageBuffers : gmap Socket string) (socket : Socket)
    (chunk : string) : list string * gmap Socket string :=
  let existing := orElse (messageBuffers !! socket) EmptyString in
  let text := existing +:+ chunk in
  let '(messages, remaining) := decode text in
  (messages, <[socket := remaining]> messageBuffers).

(** The [data] handler from the bytes that arrived. *)
Definition receive (messageBuffers : gmap Socket string) (socket : Socket)
    (bytes : list Byte.byte) : option (list string * gmap Socket string) :=
  data messageBuffers socket <$> decodeUtf8 bytes.

(** The [open] handler. *)
Definition open (messageBuffers : gmap Socket string) (socket : Socket)
    : gmap Socket string :=
  <[socket := EmptyString]> messageBuffers.

(** Delivery of several chunks on one connection. *)
Fixpoint deliver (messageBuffers : gmap Socket string) (socket : Socket)
    (chunks : list string) : list string * gmap Socket string :=
  match chunks with
  | [] => ([], messageBuffers)
  | chunk :: rest =>
      let '(first, buffers') := data messageBuffers socket chunk in
      let '(later, buffers'') := deliver buffers' socket rest in
      (first ++ later, buffers'')
  end.

End Server.

(** ** syslog-parser.ts *)

Module Parser.
Import JS.

(** A [Date] value: [new Date(text)] of an unreadable text is invalid. *)
Inductive Date := InvalidDate | DateAt (ms : Z).

Definition StructuredData := gmap string (gmap string string).

Record SyslogMessage := {
  facility : number;
  severity : number;
  version : option Z;
  timestamp : Date;
  hostname : string;
  appName : string;
  procId : option string;
  msgId : option string;
  structuredData : option StructuredData;
  message : string;
  raw : string
}.

(** [Math.floor(n / d)] for a positive divisor. *)
Definition floorDiv (n : number) (d : Z) : number :=
  match n with NaN => NaN | Num z => Num (z / d) end.

(** [n % d]: the remainder takes the sign of the dividend. *)
Definition remainder (n : number) (d : Z) : number :=
  match n with NaN => NaN | Num z => Num (Z.rem z d) end.

Fixpoint endsWith (s : string) (c : ascii) : bool :=
  match s with
  | EmptyString => false
  | String d EmptyString => Ascii.eqb d c
  | String _ s' => endsWith s' c
  end.

(** What the runtime decides for the parser: the clock reading during
    the call and the year it falls in as a template literal prints it;
    [new Date(text)]; and the matches of the patterns of the positional
    parsers.  [timestampMatch] is the match of the classic timestamp
    pattern at the start of the content: group 1 and the length of the
    whole match.  [hostAppMatch] is the match of the host and tag pattern:
    groups 1 to 4, that is host name, tag, the digits of an optional
    bracketed process id, and the text after the colon.  [sdMatch] is the
    match of the bracketed-group pattern: the group id and the parameter
    text up to the closing bracket.  [parseSDParams] is the global scan for
    key, equals sign, quoted value. *)
Record Runtime := {
  now : Z;
  currentYear : string;
  newDate : string -> Date;
  timestampMatch : string -> option (string * nat);
  hostAppMatch : string -> option (string * string * option string * string);
  sdMatch : string -> option (string * string);
  parseSDParams : string -> gmap string string
}.

Section WithRuntime.
Variable rt : Runtime.

Definition parseTimestamp (timestamp : string) : Date :=
  if String.eqb timestamp "-" then DateAt (now rt)
  else match newDate rt timestamp with
       | InvalidDate => DateAt (now rt)
       | date => date
       end.

(** The name whose assignment on a plain object sets the prototype of
    the object and adds no key. *)
Definition protoKey : string := "__proto__".

(** The [for] loop of [parseStructuredData] over [parts[i..]].  The
    result is a plain object: an element named [__proto__] leaves its keys
    as they are. *)
Fixpoint structuredDataLoop (parts : list string) (currentSD : string)
    (inSD : bool) (result : StructuredData) : StructuredData :=
  match parts with
  | [] => result
  | part :: rest =>
      if truthy part then
        let '(inSD, currentSD) :=
          if startsWith part "[" && negb inSD then (true, part)
          else if inSD then (inSD, currentSD +:+ " " +:+ part)
          else (inSD, currentSD) in
        if inSD && endsWith currentSD "]" then
          let result :=
            match sdMatch rt currentSD with
            | Some (sdId, params) =>
                if truthy sdId && negb (String.eqb sdId protoKey)
                then <[sdId := parseSDParams rt params]> result
                else result
            | None => result
            end in
          match rest with
          | nextPart :: _ =>
              if truthy nextPart && startsWith nextPart "["
              then structuredDataLoop rest EmptyString false result
              else result
          | [] => result
          end
        else structuredDataLoop rest currentSD inSD result
      else structuredDataLoop rest currentSD inSD result
  end.

Definition parseStructuredData (parts : list string) (startIndex : nat)
    : option StructuredData :=
  let result :=
    structuredDataLoop (List.skipn startIndex parts) EmptyString false ∅ in
  if (0 <? size result)%nat then Some result else None.

(** The [for] loop of [findMessageStart] over [parts[i..]]. *)
Fixpoint findMessageStartFrom (parts : list string) (i : nat) : nat :=
  match parts with
  | [] => i
  | part :: rest =>
      let nextOpens :=
        match rest with
        | nextPart :: _ => truthy nextPart && startsWith nextPart "["
        | [] => false
        end in
      if endsWith part "]" && negb nextOpens then S i
      else findMessageStartFrom rest (S i)
  end.

Definition findMessageStart (parts : list string) (sdStart : nat) : nat :=
  findMessageStartFrom (List.skipn sdStart parts) sdStart.

Definition parseRFC5424 (raw : string) (facility severity : number)
    (content : string) : SyslogMessage :=
  let parts := split content " " in
  let timestamp := parseTimestamp (orElse (parts !! 0%nat) "-") in
  let hostname := orElse (parts !! 1%nat) "-" in
  let appName := orElse (parts !! 2%nat) "-" in
  let procId :=
    if decide (parts !! 3%nat = Some "-") then None else parts !! 3%nat in
  let msgId :=
    if decide (parts !! 4%nat = Some "-") then None else parts !! 4%nat in
  let '(structuredData, messageStart) :=
    match parts !! 5%nat with
    | Some p5 =>
        if truthy p5 && negb (String.eqb p5 "-") && startsWith p5 "["
        then (parseStructuredData parts 5, findMessageStart parts 5)
        else (None, 6%nat)
    | None => (None, 6%nat)
    end in
  let message := trim (join (List.skipn messageStart parts) " ") in
  {| facility := facility; severity := severity; version := Some 1;
     timestamp := timestamp; hostname := hostname; appName := appName;
     procId := procId; msgId := msgId; structuredData := structuredData;
     message := message; raw := raw |}.

Definition parseRFC3164 (raw : string) (facility severity : number)
    (content : string) : SyslogMessage :=
  let '(timestamp, remaining) :=
    match timestampMatch rt content with
    | Some (stamp, matched) =>
        (newDate rt (stamp +:+ " " +:+ currentYear rt),
         substringFrom content matched)
    | None => (DateAt (now rt), content)
    end in
  let '(hostname, appName, procId, message) :=
    match hostAppMatch rt remaining with
    | Some (g1, g2, g3, g4) =>
        (orElse (Some g1) "-", orElse (Some g2) "-", g3,
         orElse (Some g4) EmptyString)
    | None => ("-", "-", None, remaining)
    end in
  {| facility := facility; severity := severity; version := None;
     timestamp := timestamp; hostname := hostname; appName := appName;
     procId := procId; msgId := None; structuredData := None;
     message := message; raw := raw |}.

Definition parse (rawMessage : string) : SyslogMessage :=
  let rawMessage := trim rawMessage in
  let fallback :=
    {| facility := Num 16; severity := Num 6; version := None;
       timestamp := DateAt (now rt); hostname := "-"; appName := "-";
       procId := None; msgId := None; structuredData := None;
       message := rawMessage; raw := rawMessage |} in
  if startsWith rawMessage "<" then
    let priEnd := indexOf rawMessage ">" in
    if 0 <? priEnd then
      let priValue := parseInt (substring rawMessage 1 (Z.to_nat priEnd)) in
      let facility := floorDiv priValue 8 in
      let severity := remainder priValue 8 in
      let messageContent :=
        trim (substringFrom rawMessage (Z.to_nat (priEnd + 1))) in
      if startsWith messageContent "1 " then
        parseRFC5424 rawMessage facility severity
          (substringFrom messageContent 2)
      else
        parseRFC3164 rawMessage facility severity messageContent
    else fallback
  else fallback.

End WithRuntime.

End Parser.

(** ** Vocabulary of the statements about framing and parsing *)

Module Wording.
Import JS Server Parser.

Fixpoint allDigits (s : string) : bool :=
  match s with
  | EmptyString => true
  | String c s' => isDigit c && allDigits s'
  end.

(** The buffer starts with one or more decimal digits followed by a
    single space. *)
Definition startsWithLengthAndSpace (buffer : string) : bool :=
  match spanDigits buffer with
  | (String _ _, String " " _) => true
  | _ => false
  end.

(** Line-delimited decoding read literally: each non-empty complete line
    is a message as it stands, and the trailing partial line is the new
    buffer. *)
Definition linesAsStated (buffer : string) : list string * string :=
  let lines := splitLines buffer in
  (List.filter truthy (removelast lines), List.last lines EmptyString).

(** The fallback record for a text. *)
Definition fallbackOf (now : Z) (text : string) : SyslogMessage :=
  {| facility := Num 16; severity := Num 6; version := None;
     timestamp := DateAt now; hostname := "-"; appName := "-";
     procId := None; msgId := None; structuredData := None;
     message := text; raw := text |}.

(** The parser at time 0 of the year 2025, in a runtime where no date is
    readable and none of the patterns of the positional parsers matches. *)
Definition quietRuntime : Runtime :=
  {| now := 0; currentYear := "2025"; newDate := fun _ => InvalidDate;
     timestampMatch := fun _ => None; hostAppMatch := fun _ => None;
     sdMatch := fun _ => None; parseSDParams := fun _ => ∅ |}.

Definition parseAtZero : string -> SyslogMessage := parse quietRuntime.

(** The UTF-8 bytes of a frame that declares two bytes and carries the
    two-byte character U+00E9. *)
Definition accentFrame : list Byte.byte := [x32; x20; xc3; xa9].

End Wording.

(** ** Exceptions *)

Module Exn.
(** A thrown [Error] with its message. *)
Inductive Error := Throw (message : string).
End Exn.

(** ** config.ts *)

Module Config.
Import JS Exn.

(** An alert rule as the engine reads it.  [operator] and [cooldown]
    may be absent: the engine supplies its own defaults with [||]. *)
Record AlertRule := {
  name : string;
  enabled : bool;
  window : string;
  query : string;
  threshold : Q;
  operator : option string;
  webhook : string;
  headers : option (gmap string string);
  cooldown : option string
}.

(** A rule definition as written in the configuration, before
    [AlertRuleSchema] validates it and fills in the defaults. *)
Record RuleDefinition := {
  def_name : string;
  def_enabled : option bool;
  def_window : string;
  def_query : string;
  def_threshold : Q;
  def_operator : option string;
  def_webhook : string;
  def_headers : option (gmap string string);
  def_cooldown : option string
}.

(** [/^\d+[mhd]$/] *)
Definition isTimeWindow (s : string) : bool :=
  match spanDigits s with
  | (String _ _, String unit EmptyString) =>
      Ascii.eqb unit "m" || Ascii.eqb unit "h" || Ascii.eqb unit "d"
  | _ => false
  end.

Definition isOperator (s : string) : bool :=
  String.eqb s "gt" || String.eqb s "gte" || String.eqb s "lt"
  || String.eqb s "lte" || String.eqb s "eq".

(** [AlertRuleSchema.parse]: [None] when validation fails.  [isUrl] is
    the check behind [z.url()]. *)
Definition AlertRuleSchema (isUrl : string -> bool) (d : RuleDefinition)
    : option AlertRule :=
  let operator := default "gt" (def_operator d) in
  let cooldown := default "5m" (def_cooldown d) in
  if isTimeWindow (def_window d)
     && negb (Qle_bool (def_threshold d) 0)
     && isOperator operator
     && isUrl (def_webhook d)
     && isTimeWindow cooldown
  then Some {| name := def_name d;
               enabled := default false (def_enabled d);
               window := def_window d;
               query := def_query d;
               threshold := def_threshold d;
               operator := Some operator;
               webhook := def_webhook d;
               headers := def_headers d;
               cooldown := Some cooldown |}
  else None.

Record Alerting := { alerting_enabled : bool; checkInterval : Q }.

Record Config := {
  alerting : Alerting;
  debug : bool;
  alerts : list AlertRule
}.

Definition getAlertRules (config : Config) : list AlertRule :=
  List.filter enabled (alerts config).

(** [parseTimeWindow]: milliseconds, or the thrown error.  The pattern is
    [/^(\d+)([mhd])$/].  The product is exact; the source multiplies
    doubles, with the same result up to 2^53. *)
Definition parseTimeWindow (window : string) : Error + Z :=
  let invalid := inl (Throw ("Invalid time window format: " +:+ window)) in
  match spanDigits window with
  | (String d ds, String unit EmptyString) =>
      match parseInt (String d ds) with
      | Num value =>
          if Ascii.eqb unit "m" then inr (value * 60 * 1000)
          else if Ascii.eqb unit "h" then inr (value * 60 * 60 * 1000)
          else if Ascii.eqb unit "d" then inr (value * 24 * 60 * 60 * 1000)
          else invalid
      | NaN => invalid
      end
  | _ => invalid
  end.

(** [checkThreshold]: a [switch] on the operator string. *)
Definition checkThreshold (value threshold : Q) (operator : string) : bool :=
  if String.eqb operator "gt" then negb (Qle_bool value threshold)
  else if String.eqb operator "gte" then Qle_bool threshold value
  else if String.eqb operator "lt" then negb (Qle_bool threshold value)
  else if String.eqb operator "lte" then Qle_bool value threshold
  else if String.eqb operator "eq" then Qeq_bool value threshold
  else false.

End Config.

(** ** The engine's state, the outside world, and effectful code *)

Module Effects.
Import Exn Config.

Inductive Severity := info | warning | critical.

Record Window := { win_start : Z; win_end : Z; win_duration : string }.

Record Trigger := {
  trig_query : string;
  trig_threshold : Q;
  trig_operator : string;
  trig_actualValue : Q
}.

(** [WebhookPayload]; [metadata] is always the empty object. *)
Record WebhookPayload := {
  alertName : string;
  pay_severity : Severity;
  pay_timestamp : Z;
  pay_window : Window;
  trigger : Trigger;
  pay_message : string
}.

(** A row of [alert_history] as [insertAlertHistory] receives it. *)
Record AlertHistory := {
  hist_alertName : string;
  hist_count : Q;
  windowStart : Z;
  windowEnd : Z
}.

(** A value in a result row. *)
Inductive JsValue := JNumber (n : Q) | JText (s : string) | JNull.

(** What [stmt.get] does: throw, or return a row (its values in column
    order) or nothing. *)
Inductive GetOutcome := GetThrows | GetReturns (row : option (list JsValue)).

(** What [fetch] does: reject (network error, timeout), or resolve with
    a response. *)
Inductive FetchOutcome := Rejects | Responds (status : Z) (body : string).

(** [response.ok] *)
Definition response_ok (status : Z) : bool :=
  (200 <=? status) && (status <=? 299).

Record Request := {
  req_url : string;
  req_headers : gmap string string;
  req_body : WebhookPayload
}.

(** The outside world, as correspondents that answer by turn: the [n]-th
    reading of the clock, the [n]-th SQLite statement, the [n]-th request;
    and the way the runtime prints a number in a template literal. *)
Record Outside := {
  clock : nat -> Z;
  sqliteGet : nat -> string -> Z -> Z -> GetOutcome;
  sqliteRunThrows : nat -> bool;
  fetch : nat -> Request -> FetchOutcome;
  showNumber : Q -> string
}.

(** The fields of [AlertEngine], and the trace of what it did to the
    outside: clock readings taken, count queries issued (predicate, start,
    end), statements executed, rows appended to [alert_history], requests
    sent, and the rules handed to [checkRule]. *)
Record World := {
  lastAlertTimes : gmap string Z;
  isRunning : bool;
  clockReads : nat;
  statements : nat;
  countQueries : list (string * Z * Z);
  alertHistory : list AlertHistory;
  requests : list Request;
  checked : list string
}.

(** A computation that reads and writes the world and may throw; what
    it wrote before throwing stays written. *)
Definition M (A : Type) : Type := World -> (Error + A) * World.

Definition ret {A} (a : A) : M A := fun w => (inr a, w).

Definition bind {A B} (m : M A) (k : A -> M B) : M B :=
  fun w => match m w with
           | (inr a, w') => k a w'
           | (inl e, w') => (inl e, w')
           end.

(** A call of a function that returns or throws without touching the
    world. *)
Definition lift {A} (r : Error + A) : M A := fun w => (r, w).

(** [try { m } catch (error) { handler }] *)
Definition tryCatch {A} (m : M A) (handler : Error -> M A) : M A :=
  fun w => match m w with
           | (inl e, w') => handler e w'
           | done => done
           end.

Definition gets {A} (f : World -> A) : M A := fun w => (inr (f w), w).

Definition modify (f : World -> World) : M unit := fun w => (inr tt, f w).

Declare Scope effect_scope.
Delimit Scope effect_scope with effect.
Bind Scope effect_scope with M.
Notation "'let*' x := m 'in' k" := (bind m (fun x => k))
  (at level 10, x name, m at level 100, k at level 200) : effect_scope.
Notation "m ;;; k" := (bind m (fun _ => k))
  (at level 100, k at level 200, right associativity) : effect_scope.

End Effects.

(** Field updates of [World]. *)

Module Update.
Import Effects.

Definition setLastAlertTimes (m : gmap string Z) (w : World) : World :=
  {| lastAlertTimes := m; isRunning := isRunning w;
     clockReads := clockReads w; statements := statements w;
     countQueries := countQueries w; alertHistory := alertHistory w;
     requests := requests w; checked := checked w |}.

Definition setRunning (b : bool) (w : World) : World :=
  {| lastAlertTimes := lastAlertTimes w; isRunning := b;
     clockReads := clockReads w; statements := statements w;
     countQueries := countQueries w; alertHistory := alertHistory w;
     requests := requests w; checked := checked w |}.

Definition tickClock (w : World) : World :=
  {| lastAlertTimes := lastAlertTimes w; isRunning := isRunning w;
     clockReads := S (clockReads w); statements := statements w;
     countQueries := countQueries w; alertHistory := alertHistory w;
     requests := requests w; checked := checked w |}.

Definition countStatement (w : World) : World :=
  {| lastAlertTimes := lastAlertTimes w; isRunning := isRunning w;
     clockReads := clockReads w; statements := S (statements w);
     countQueries := countQueries w; alertHistory := alertHistory w;
     requests := requests w; checked := checked w |}.

Definition logCountQuery (q : string * Z * Z) (w : World) : World :=
  {| lastAlertTimes := lastAlertTimes w; isRunning := isRunning w;
     clockReads := clockReads w; statements := statements w;
     countQueries := countQueries w ++ [q]; alertHistory := alertHistory w;
     requests := requests w; checked := checked w |}.

Definition appendHistory (h : AlertHistory) (w : World) : World :=
  {| lastAlertTimes := lastAlertTimes w; isRunning := isRunning w;
     clockReads := clockReads w; statements := statements w;
     countQueries := countQueries w; alertHistory := alertHistory w ++ [h];
     requests := requests w; checked := checked w |}.

Definition logRequest (r : Request) (w : World) : World :=
  {| lastAlertTimes := lastAlertTimes w; isRunning := isRunning w;
     clockReads := clockReads w; statements := statements w;
     countQueries := countQueries w; alertHistory := alertHistory w;
     requests := requests w ++ [r]; checked := checked w |}.

Definition logChecked (ruleName : string) (w : World) : World :=
  {| lastAlertTimes := lastAlertTimes w; isRunning := isRunning w;
     clockReads := clockReads w; statements := statements w;
     countQueries := countQueries w; alertHistory := alertHistory w;
     requests := requests w; checked := checked w ++ [ruleName] |}.

End Update.

(** ** database.ts: the two operations the alert engine calls *)

Module Database.
Import Exn Effects Update.
Local Open Scope effect_scope.

(** The statement text of [runAlertQuery]: the time bounds, then the
    predicate in parentheses. *)
Definition countStatementText (predicate : string) : string :=
  "SELECT COUNT(" +:+ "*" +:+ ") as count FROM logs WHERE timestamp >= "
  +:+ "$startTime AND timestamp <= $endTime AND (" +:+ predicate +:+ ")".

Section WithOutside.
Variable out : Outside.

(** [this.db.prepare(sql).get({...})] *)
Definition prepareGet (sql : string) (startTime endTime : Z)
    : M (option (list JsValue)) :=
  fun w =>
    let w' := countStatement w in
    match sqliteGet out (statements w) sql startTime endTime with
    | GetThrows => (inl (Throw "SQLiteError"), w')
    | GetReturns row => (inr row, w')
    end.

(** [this.db.prepare(sql).run({...})] of [insertAlertHistory] *)
Definition prepareRun (row : AlertHistory) : M unit :=
  fun w =>
    let w' := countStatement w in
    if sqliteRunThrows out (statements w)
    then (inl (Throw "SQLiteError"), w')
    else (inr tt, appendHistory row w').

Definition runAlertQuery (predicate : string) (startTime endTime : Z) : M Q :=
  tryCatch
    (let fullQuery := countStatementText predicate in
     modify (logCountQuery (predicate, startTime, endTime)) ;;;
     let* result := prepareGet fullQuery startTime endTime in
     match result with
     | Some (JNumber firstValue :: _) => ret firstValue
     | _ => ret 0%Q
     end)
    (fun error => ret 0%Q).

Definition insertAlertHistory (alert : AlertHistory) : M unit :=
  prepareRun alert.

End WithOutside.
End Database.

(** ** webhook.ts *)

Module Webhook.
Import JS Exn Config Effects Update.
Local Open Scope effect_scope.

(** The value of [actualValue / threshold], a double: a number, an
    infinity, or [NaN]. *)
Inductive Ratio := RatioNaN | RatioInfinity (negative : bool) | RatioOf (q : Q).

(** The exponent of a positive rational [x]: the [e] with
    [2^e <= x < 2^(e+1)]. *)
Definition exponentOf (x : Q) : Z :=
  let e0 := Z.log2 (Qnum x) - Z.log2 (Zpos (Qden x)) in
  if Qle_bool (2 ^ e0) x then e0 else e0 - 1.

(** The integer nearest to [m], the even one of two that are equally
    near. *)
Definition roundHalfEven (m : Q) : Z :=
  let f := Qfloor m in
  match (2 * (m - inject_Z f) ?= 1)%Q with
  | Lt => f
  | Gt => f + 1
  | Eq => if Z.even f then f else f + 1
  end.

(** The double nearest to a positive rational, as IEEE 754 rounds to
    nearest with ties to even: a multiple of the unit in the last of 53
    binary places, the unit being 2^-1074 at the least; [None] when the
    rounded value reaches 2^1024, where the double is the infinity. *)
Definition roundPositive (x : Q) : option Q :=
  let quantum := (2 ^ (Z.max (exponentOf x) (-1022) - 52))%Q in
  let r := (inject_Z (roundHalfEven (x / quantum)) * quantum)%Q in
  if Qle_bool (2 ^ 1024) r then None else Some r.

(** [a / b] on doubles: the double nearest to the exact quotient.
    Division by zero gives an infinity, or [NaN] for [0 / 0]; the zero is
    the positive one, as the model has no other (a threshold of zero, of
    either sign, does not pass the schema). *)
Definition divide (a b : Q) : Ratio :=
  if Qeq_bool b 0 then
    if Qeq_bool a 0 then RatioNaN else RatioInfinity (negb (Qle_bool 0 a))
  else
    let x := (a / b)%Q in
    if Qeq_bool x 0 then RatioOf 0
    else if Qle_bool 0 x then
      match roundPositive x with
      | Some r => RatioOf r
      | None => RatioInfinity false
      end
    else
      match roundPositive (- x) with
      | Some r => RatioOf (- r)
      | None => RatioInfinity true
      end.

(** Half the distance from 1.5, or from 2, to the double below it. *)
Definition halfUlp : Q := (2 ^ (-53))%Q.

(** [ratio >= bound] *)
Definition atLeast (ratio : Ratio) (bound : Q) : bool :=
  match ratio with
  | RatioNaN => false
  | RatioInfinity negative => negb negative
  | RatioOf q => Qle_bool bound q
  end.

Definition getSeverity (actualValue threshold : Q) : Severity :=
  let ratio := divide actualValue threshold in
  if atLeast ratio 2 then critical
  else if atLeast ratio 1.5 then warning
  else info.

(** The words for an operator, or the operator itself when the table has
    none.  The table is read for its five keys; the lookup of the source
    would also find what every object inherits, such as [constructor],
    which are not operators of the schema. *)
Definition operatorText (operator : string) : string :=
  let table :=
    if String.eqb operator "gt" then Some "greater than"
    else if String.eqb operator "gte" then Some "greater than or equal to"
    else if String.eqb operator "lt" then Some "less than"
    else if String.eqb operator "lte" then Some "less than or equal to"
    else if String.eqb operator "eq" then Some "equal to"
    else None in
  orElse table operator.

Section WithOutside.
Variable out : Outside.

Definition buildMessage (rule : AlertRule) (actualValue : Q) : string :=
  let operator := orElse (operator rule) "gt" in
  "Alert " +:+ quote +:+ name rule +:+ quote +:+ " triggered: Count ("
  +:+ showNumber out actualValue +:+ ") is " +:+ operatorText operator
  +:+ " threshold (" +:+ showNumber out (threshold rule)
  +:+ ") in the last " +:+ window rule.

(** [new Date()] *)
Definition newDate : M Z :=
  fun w => (inr (clock out (clockReads w)), tickClock w).

(** [await fetch(url, {...})] inside its [try]: the outcome, with the
    request recorded. *)
Definition doFetch (request : Request) : M FetchOutcome :=
  fun w =>
    (inr (fetch out (length (requests w)) request), logRequest request w).

Definition defaultHeaders : gmap string string :=
  <["User-Agent" := "OpenLog/1.0"]>
    (<["Content-Type" := "application/json"]> ∅).

(** [sendAlert] for a window whose start and end are dates in range, as
    they are for a window no longer than the range of a date: the
    [toISOString] of a date out of range throws while the payload is
    built, a path that is left out here. *)
Definition sendAlert (rule : AlertRule) (actualValue : Q)
    (windowStart windowEnd : Z) : M bool :=
  let* timestamp := newDate in
  let payload :=
    {| alertName := name rule;
       pay_severity := getSeverity actualValue (threshold rule);
       pay_timestamp := timestamp;
       pay_window := {| win_start := windowStart; win_end := windowEnd;
                        win_duration := window rule |};
       trigger := {| trig_query := query rule;
                     trig_threshold := threshold rule;
                     trig_operator := orElse (operator rule) "gt";
                     trig_actualValue := actualValue |};
       pay_message := buildMessage rule actualValue |} in
  let headers := default ∅ (headers rule) ∪ defaultHeaders in
  let* response :=
    doFetch {| req_url := webhook rule; req_headers := headers;
               req_body := payload |} in
  match response with
  | Responds status body => ret (response_ok status)
  | Rejects => ret false
  end.

End WithOutside.
End Webhook.

(** ** alert-engine.ts *)

Module AlertEngine.
Import JS Exn Config Effects Update Database Webhook.
Local Open Scope effect_scope.

Section WithOutside.
Variable out : Outside.
Variable config : Config.

(** [new Date(ms)] is a date for a time value of at most 8.64e15
    milliseconds either side of the epoch, and an Invalid Date beyond. *)
Definition maxTime : Z := 8640000000000000.

Definition validTime (ms : Z) : bool := (- maxTime <=? ms) && (ms <=? maxTime).

(** [isInCooldown]: the comparison [new Date() < cooldownEnd] is false
    when [cooldownEnd] is an Invalid Date. *)
Definition isInCooldown (rule : AlertRule) : M bool :=
  let* lastAlert := gets (fun w => lastAlertTimes w !! name rule) in
  match lastAlert with
  | None => ret false
  | Some lastAlert =>
      let* cooldownMs := lift (parseTimeWindow (orElse (cooldown rule) "5m")) in
      let cooldownEnd := lastAlert + cooldownMs in
      let* now := newDate out in
      ret (validTime cooldownEnd && (now <? cooldownEnd))
  end.

Definition checkRule (rule : AlertRule) : M unit :=
  let* inCooldown := isInCooldown rule in
  if inCooldown then ret tt
  else
    let* windowMs := lift (parseTimeWindow (window rule)) in
    let* endTime := newDate out in
    let startTime := endTime - windowMs in
    let* count := runAlertQuery out (query rule) startTime endTime in
    let shouldAlert :=
      checkThreshold count (threshold rule) (orElse (operator rule) "gt") in
    if shouldAlert then
      let* success := sendAlert out rule count startTime endTime in
      if success then
        let* now := newDate out in
        modify (fun w =>
          setLastAlertTimes (<[name rule := now]> (lastAlertTimes w)) w) ;;;
        insertAlertHistory out
          {| hist_alertName := name rule; hist_count := count;
             windowStart := startTime; windowEnd := endTime |}
      else ret tt
    else ret tt.

(** The body of the [for] loop of [runChecks]: one rule, its failure
    caught. *)
Definition checkGuarded (rule : AlertRule) : M unit :=
  tryCatch (checkRule rule) (fun error => ret tt).

(** The engine and its event loop.  [timer] tells whether the interval of
    [start] is installed; [batches] holds the invocations of [runChecks]
    that are suspended at an [await], each with the rules its loop has
    still to check. *)
Record Scheduler := {
  world : World;
  timer : bool;
  batches : list (list AlertRule)
}.

(** [start()] *)
Definition start (s : Scheduler) : Scheduler :=
  if alerting_enabled (alerting config)
  then {| world := world s; timer := true; batches := batches s |}
  else s.

(** [stop()] *)
Definition stop (s : Scheduler) : Scheduler :=
  {| world := world s; timer := false; batches := batches s |}.

(** [runChecks()] up to its first [await]: the flag is raised, the enabled
    rules are read; without rules the [finally] block runs at once. *)
Definition runChecks (s : Scheduler) : Scheduler :=
  let w := setRunning true (world s) in
  let rules := getAlertRules config in
  if (length rules =? 0)%nat
  then {| world := setRunning false w; timer := timer s;
          batches := batches s |}
  else {| world := w; timer := timer s; batches := batches s ++ [rules] |}.

(** The interval callback. *)
Definition onTick (s : Scheduler) : Scheduler :=
  if timer s then
    if negb (isRunning (world s)) then runChecks s else s
  else s.

(** The suspended invocation number [i] resumes: its loop checks the next
    rule; after the last one the [finally] block lowers the flag. *)
Definition onResume (i : nat) (s : Scheduler) : Scheduler :=
  match batches s !! i with
  | Some (rule :: rest) =>
      let '(_, w) := checkGuarded rule (logChecked (name rule) (world s)) in
      match rest with
      | [] => {| world := setRunning false w; timer := timer s;
                 batches := delete i (batches s) |}
      | _ => {| world := w; timer := timer s;
                batches := <[i := rest]> (batches s) |}
      end
  | _ => s
  end.

Inductive Event := Tick | Resume (i : nat).

Definition step (s : Scheduler) (e : Event) : Scheduler :=
  match e with
  | Tick => onTick s
  | Resume i => onResume i s
  end.

Definition run (s : Scheduler) (events : list Event) : Scheduler :=
  List.fold_left step events s.

Definition initialWorld : World :=
  {| lastAlertTimes := ∅; isRunning := false; clockReads := 0;
     statements := 0; countQueries := []; alertHistory := [];
     requests := []; checked := [] |}.

(** A fresh engine after [start()]. *)
Definition started : Scheduler :=
  start {| world := initialWorld; timer := false; batches := [] |}.

End WithOutside.
End AlertEngine.

(** ** Vocabulary of the statements *)

Module Spec.
Import JS Exn Config Effects Update Database Webhook AlertEngine.
Local Open Scope effect_scope.

Section WithOutside.
Variable out : Outside.

(** The count a query issued in world [w] comes back with. *)
Definition countOf (predicate : string) (startTime endTime : Z) (w : World)
    : Q :=
  match sqliteGet out (statements w) (countStatementText predicate)
          startTime endTime with
  | GetReturns (Some (JNumber n :: _)) => n
  | _ => 0%Q
  end.

(** The world after a count query: the query is on record, one more
    statement was executed. *)
Definition afterQuery (predicate : string) (startTime endTime : Z)
    (w : World) : World :=
  countStatement (logCountQuery (predicate, startTime, endTime) w).

(** The request [sendAlert] posts for a rule that counted [count]. *)
Definition requestOf (rule : AlertRule) (count : Q)
    (startTime endTime timestamp : Z) : Request :=
  {| req_url := webhook rule;
     req_headers := default ∅ (headers rule) ∪ defaultHeaders;
     req_body :=
       {| alertName := name rule;
          pay_severity := getSeverity count (threshold rule);
          pay_timestamp := timestamp;
          pay_window := {| win_start := startTime; win_end := endTime;
                           win_duration := window rule |};
          trigger := {| trig_query := query rule;
                        trig_threshold := threshold rule;
                        trig_operator := orElse (operator rule) "gt";
                        trig_actualValue := count |};
          pay_message := buildMessage out rule count |} |}.

(** The dispatcher reports success: the endpoint answered with a 2xx
    status. *)
Definition delivered (outcome : FetchOutcome) : bool :=
  match outcome with
  | Responds status _ => response_ok status
  | Rejects => false
  end.

(** What [checkRule] does once the cooldown gate is passed. *)
Definition evaluate (rule : AlertRule) : M unit :=
  let* windowMs := lift (parseTimeWindow (window rule)) in
  let* endTime := newDate out in
  let startTime := endTime - windowMs in
  let* count := runAlertQuery out (query rule) startTime endTime in
  let shouldAlert :=
    checkThreshold count (threshold rule) (orElse (operator rule) "gt") in
  if shouldAlert then
    let* success := sendAlert out rule count startTime endTime in
    if success then
      let* now := newDate out in
      modify (fun w =>
        setLastAlertTimes (<[name rule := now]> (lastAlertTimes w)) w) ;;;
      insertAlertHistory out
        {| hist_alertName := name rule; hist_count := count;
           windowStart := startTime; windowEnd := endTime |}
    else ret tt
  else ret tt.

(** One rule of a batch: it enters the trace, then is checked with its
    failure caught. *)
Definition checkNext (w : World) (rule : AlertRule) : World :=
  snd (checkGuarded out rule (logChecked (name rule) w)).

End WithOutside.

(** Two worlds that differ at most in the number of clock readings. *)
Inductive sameButClock (w w' : World) : Prop :=
| SameButClock :
    lastAlertTimes w' = lastAlertTimes w ->
    isRunning w' = isRunning w ->
    statements w' = statements w ->
    countQueries w' = countQueries w ->
    alertHistory w' = alertHistory w ->
    requests w' = requests w ->
    checked w' = checked w ->
    sameButClock w w'.

(** The clock never runs backwards. *)
Definition monotone (out : Outside) : Prop :=
  forall n m, (n <= m)%nat -> clock out n <= clock out m.

(** Every request that was delivered is remembered: the tracker holds,
    under the name of its alert, a time not before its timestamp. *)
Definition tracked (out : Outside) (w : World) : Prop :=
  forall i request,
    requests w !! i = Some request ->
    delivered (fetch out i request) = true ->
    exists t,
      lastAlertTimes w !! alertName (req_body request) = Some t /\
      pay_timestamp (req_body request) <= t.

(** All enabled rules of a given name have the cooldown [cooldownMs]. *)
Definition cooldownOf (config : Config) (ruleName : string) (cooldownMs : Z)
    : Prop :=
  forall rule,
    rule ∈ getAlertRules config -> name rule = ruleName ->
    parseTimeWindow (orElse (cooldown rule) "5m") = inr cooldownMs.

(** A request for an alert comes no sooner than the cooldown after any
    earlier delivered request for the same alert. *)
Definition spaced (out : Outside) (config : Config) (w : World) : Prop :=
  forall i j first second cooldownMs,
    (i < j)%nat ->
    requests w !! i = Some first ->
    requests w !! j = Some second ->
    delivered (fetch out i first) = true ->
    alertName (req_body first) = alertName (req_body second) ->
    cooldownOf config (alertName (req_body second)) cooldownMs ->
    pay_timestamp (req_body first) + cooldownMs
    <= pay_timestamp (req_body second).

(** Every reading of the clock, with the cooldown of any enabled rule
    added, is a time a [Date] can hold. *)
Definition cooldownsInRange (out : Outside) (config : Config) : Prop :=
  forall n rule cooldownMs,
    rule ∈ getAlertRules config ->
    parseTimeWindow (orElse (cooldown rule) "5m") = inr cooldownMs ->
    validTime (clock out n + cooldownMs) = true.

(** The end of the cooldown of a rule, counted from the time the
    tracker holds for it, is a time a [Date] can hold. *)
Definition cooldownEndValid (rule : AlertRule) (w : World) : Prop :=
  forall t cooldownMs,
    lastAlertTimes w !! name rule = Some t ->
    parseTimeWindow (orElse (cooldown rule) "5m") = inr cooldownMs ->
    validTime (t + cooldownMs) = true.

(** The times the tracker holds are readings of the clock. *)
Definition fromClock (out : Outside) (w : World) : Prop :=
  forall ruleName t,
    lastAlertTimes w !! ruleName = Some t -> exists n, t = clock out n.

(** The suspended batches hold enabled rules of the configuration. *)
Definition fromConfig (config : Config) (s : Scheduler) : Prop :=
  Forall (fun batch => forall rule, rule ∈ batch ->
                         rule ∈ getAlertRules config)
         (batches s).

(** The invariant of the event loop: no batch is suspended and the flag is
    down, or exactly one is, with rules left to check, and the flag is up. *)
Definition singleFlight (s : Scheduler) : Prop :=
  (batches s = [] /\ isRunning (world s) = false) \/
  (exists rule rest, batches s = [rule :: rest] /\ isRunning (world s) = true).

(** The events of one batch after the tick that started it: before each
    rule is checked, any number of further ticks arrive. *)
Definition batchEvents (gaps : list nat) : list Event :=
  flat_map (fun k => repeat Tick k ++ [Resume 0%nat]) gaps.


(** A sample deployment: the clock advances one second per reading, the
    log store counts eleven matching records, the endpoint accepts. *)
Definition sampleOutside : Outside :=
  {| clock := fun n => 1000 * Z.of_nat n;
     sqliteGet := fun _ _ _ _ => GetReturns (Some [JNumber 11]);
     sqliteRunThrows := fun _ => false;
     fetch := fun _ _ => Responds 200 EmptyString;
     showNumber := fun _ => "n" |}.

(** The same deployment with an endpoint that refuses connections. *)
Definition refusingOutside : Outside :=
  {| clock := fun n => 1000 * Z.of_nat n;
     sqliteGet := fun _ _ _ _ => GetReturns (Some [JNumber 11]);
     sqliteRunThrows := fun _ => false;
     fetch := fun _ _ => Rejects;
     showNumber := fun _ => "n" |}.

(** The same deployment with a predicate the log store cannot prepare. *)
Definition brokenStore : Outside :=
  {| clock := fun n => 1000 * Z.of_nat n;
     sqliteGet := fun _ _ _ _ => GetThrows;
     sqliteRunThrows := fun _ => false;
     fetch := fun _ _ => Responds 200 EmptyString;
     showNumber := fun _ => "n" |}.

Definition sampleRule : AlertRule :=
  {| name := "errors"; enabled := true; window := "15m";
     query := "LOWER(message) LIKE '%error%'"; threshold := 10;
     operator := None; webhook := "http://localhost:8080/hook";
     headers := None; cooldown := None |}.

(** A world in which the sample rule fired at time 0. *)
Definition firedWorld : World :=
  setLastAlertTimes (<["errors" := 0]> ∅) initialWorld.

(** The sample rule with a cooldown of two hundred million days, as
    written in the configuration and as the schema returns it. *)
Definition patientDefinition : RuleDefinition :=
  {| def_name := "errors"; def_enabled := Some true; def_window := "15m";
     def_query := "LOWER(message) LIKE '%error%'"; def_threshold := 10;
     def_operator := None; def_webhook := "http://localhost:8080/hook";
     def_headers := None; def_cooldown := Some "200000000d" |}.

Definition patientRule : AlertRule :=
  {| name := "errors"; enabled := true; window := "15m";
     query := "LOWER(message) LIKE '%error%'"; threshold := 10;
     operator := Some "gt"; webhook := "http://localhost:8080/hook";
     headers := None; cooldown := Some "200000000d" |}.

Definition patientConfig : Config :=
  {| alerting := {| alerting_enabled := true; checkInterval := 60 |};
     debug := false; alerts := [patientRule] |}.

Definition sampleConfig : Config :=
  {| alerting := {| alerting_enabled := true; checkInterval := 60 |};
     debug := false; alerts := [sampleRule] |}.

End Spec.

(** ** syslog-server.ts: the end of a connection, and connections side by
    side *)

Module Lifecycle.
Import JS Server.

(** The [close] handler: what is left in the buffer is handed to
    [processMessage], trimmed, unless it is blank; the buffer is removed. *)
Definition close (messageBuffers : gmap Socket string) (socket : Socket)
    : list string * gmap Socket string :=
  let messages :=
    match messageBuffers !! socket with
    | Some remaining => if truthy (trim remaining) then [trim remaining] else []
    | None => []
    end in
  (messages, delete socket messageBuffers).

(** The [error] handler: the buffer is removed, nothing is processed. *)
Definition error (messageBuffers : gmap Socket string) (socket : Socket)
    : gmap Socket string :=
  delete socket messageBuffers.

(** Chunks of several connections in the order they arrive: the calls of
    [processMessage], each with the socket it is made for. *)
Fixpoint serve (messageBuffers : gmap Socket string)
    (arrivals : list (Socket * string))
    : list (Socket * string) * gmap Socket string :=
  match arrivals with
  | [] => ([], messageBuffers)
  | (socket, chunk) :: rest =>
      let '(first, buffers') := data messageBuffers socket chunk in
      let '(later, buffers'') := serve buffers' rest in
      (List.map (pair socket) first ++ later, buffers'')
  end.

End Lifecycle.

(** ** Vocabulary of the statements about byte streams *)

Module Streams.
Import JS Server Wording.

(** The text a sequence of chunks carries. *)
Fixpoint concatChunks (chunks : list string) : string :=
  match chunks with
  | [] => EmptyString
  | chunk :: rest => chunk +:+ concatChunks rest
  end.

Definition startsWithDigit (s : string) : bool :=
  match s with
  | String c _ => isDigit c
  | EmptyString => false
  end.

(** A frame as a sender writes it: the length in decimal digits, a space,
    the payload. *)
Definition frameText (frame : string * string) : string :=
  fst frame +:+ String " " (snd frame).

(** The digits of a frame give the number of characters of its payload. *)
Definition wellFramed (frame : string * string) : Prop :=
  fst frame <> EmptyString /\ allDigits (fst frame) = true /\
  digitsValue (fst frame) = Z.of_nat (String.length (snd frame)).

Fixpoint framesText (frames : list (string * string)) : string :=
  match frames with
  | [] => EmptyString
  | frame :: rest => frameText frame +:+ framesText rest
  end.

(** What may be left of a stream of frames: nothing, or less than the
    next frame. *)
Definition partialOf (r : string) (todo : list (string * string)) : Prop :=
  match todo with
  | [] => r = EmptyString
  | frame :: _ => (String.length r < String.length (frameText frame))%nat
  end.

(** The text of bytes below 0x80, one character for each. *)
Fixpoint asciiText (bytes : list Byte.byte) : string :=
  match bytes with
  | [] => EmptyString
  | b :: rest => String (ascii_of_N (Byte.to_N b)) (asciiText rest)
  end.

(** A frame as a sender writes it in bytes: the digits give the number
    of octets of the payload. *)
Definition octetFramed (frame : string * list Byte.byte) : Prop :=
  fst frame <> EmptyString /\ allDigits (fst frame) = true /\
  digitsValue (fst frame) = Z.of_nat (length (snd frame)).

Definition frameOfOctets (frame : string * list Byte.byte)
    : string * string :=
  (fst frame, asciiText (snd frame)).

(** Delivery of several chunks of bytes on one connection: each chunk is
    decoded on its own, as the [data] handler does. *)
Fixpoint receiveAll (messageBuffers : gmap Socket string) (socket : Socket)
    (chunks : list (list Byte.byte))
    : option (list string * gmap Socket string) :=
  match chunks with
  | [] => Some ([], messageBuffers)
  | chunk :: rest =>
      match receive messageBuffers socket chunk with
      | Some (first, buffers') =>
          match receiveAll buffers' socket rest with
          | Some (later, buffers'') => Some (first ++ later, buffers'')
          | None => None
          end
      | None => None
      end
  end.

(** Each chunk of bytes holds whole characters below U+0100: decoded on
    its own, as the [data] handler decodes it, it gives its text. *)
Definition decoded (chunks : list (list Byte.byte)) (texts : list string)
    : Prop :=
  Forall2 (fun bytes text => decodeUtf8 bytes = Some text) chunks texts.

(** The bytes of a text of characters below U+0080. *)
Fixpoint bytesOf (text : string) : list Byte.byte :=
  match text with
  | EmptyString => []
  | String c rest => byte_of_ascii c :: bytesOf rest
  end.

(** A connection from [open] to [close], with the chunks of bytes that
    arrive in between. *)
Definition session (messageBuffers : gmap Socket string) (socket : Socket)
    (chunks : list (list Byte.byte))
    : option (list string * gmap Socket string) :=
  match receiveAll (open messageBuffers socket) socket chunks with
  | Some (received, buffers) =>
      let '(flushed, buffers') := Lifecycle.close buffers socket in
      Some (received ++ flushed, buffers')
  | None => None
  end.

(** A connection from [open] to a socket error, with the chunks of bytes
    that arrive in between. *)
Definition failedSession (messageBuffers : gmap Socket string)
    (socket : Socket) (chunks : list (list Byte.byte))
    : option (list string * gmap Socket string) :=
  match receiveAll (open messageBuffers socket) socket chunks with
  | Some (received, buffers) =>
      Some (received, Lifecycle.error buffers socket)
  | None => None
  end.

(** The chunks an arrival sequence holds for one socket. *)
Definition chunksOf (socket : Socket) (arrivals : list (Socket * string))
    : list string :=
  List.map snd (List.filter (fun a => Nat.eqb (fst a) socket) arrivals).

(** The messages an emission sequence holds for one socket. *)
Definition messagesOf (socket : Socket) (emitted : list (Socket * string))
    : list string :=
  List.map snd (List.filter (fun a => Nat.eqb (fst a) socket) emitted).

End Streams.

(** ** syslog-parser.ts: the severity names *)

Module Names.
Import JS.

(** The table [SEVERITY_NAMES], read at a number. *)
Definition SEVERITY_NAMES (severity : number) : option string :=
  match severity with
  | Num 0 => Some "Emergency"
  | Num 1 => Some "Alert"
  | Num 2 => Some "Critical"
  | Num 3 => Some "Error"
  | Num 4 => Some "Warning"
  | Num 5 => Some "Notice"
  | Num 6 => Some "Informational"
  | Num 7 => Some "Debug"
  | _ => None
  end.

(** [getSeverityName]; [show] is the way a template literal prints a
    number. *)
Definition getSeverityName (show : number -> string) (severity : number)
    : string :=
  orElse (SEVERITY_NAMES severity) ("severity" +:+ show severity).

End Names.

(** ** syslog-server.ts and database.ts: a message on its way into the
    log store *)

Module Ingest.
Import JS Exn Parser.

(** [LogEntry], without its [id]. *)
Record LogEntry := {
  log_timestamp : Date;
  log_facility : number;
  log_severity : number;
  log_hostname : string;
  log_appName : string;
  log_procId : option string;
  log_msgId : option string;
  log_message : string;
  log_raw : string
}.

(** The parameters [insertLog] binds for a row of [logs]: the time is the
    instant its ISO text denotes, [None] is NULL. *)
Record LogRow := {
  row_timestamp : Z;
  row_facility : number;
  row_severity : number;
  row_hostname : string;
  row_appName : string;
  row_procId : option string;
  row_msgId : option string;
  row_message : string;
  row_raw : string
}.

(** [date.toISOString()]: a [RangeError] for an invalid date. *)
Definition toISOString (date : Date) : Error + Z :=
  match date with
  | InvalidDate => inl (Throw "RangeError: Invalid time value")
  | DateAt ms => inr ms
  end.

(** [value || null] *)
Definition orNull (value : option string) : option string :=
  match value with
  | Some s => if truthy s then Some s else None
  | None => None
  end.

(** The table [logs], and the number of insert statements run on it. *)
Record Logs := { rows : list LogRow; runs : nat }.

(** The SQLite engine for [insertLog]: whether the [n]-th run of the
    statement throws, and the row id it reports otherwise.  Preparing the
    statement, which comes first, succeeds. *)
Record Sqlite := { runThrows : nat -> bool; lastInsertRowid : nat -> Z }.

Definition insertLog (db : Sqlite) (log : LogEntry) (logs : Logs)
    : (Error + Z) * Logs :=
  match toISOString (log_timestamp log) with
  | inl e => (inl e, logs)
  | inr ms =>
      let row :=
        {| row_timestamp := ms;
           row_facility := log_facility log;
           row_severity := log_severity log;
           row_hostname := log_hostname log;
           row_appName := log_appName log;
           row_procId := orNull (log_procId log);
           row_msgId := orNull (log_msgId log);
           row_message := log_message log;
           row_raw := log_raw log |} in
      if runThrows db (runs logs)
      then (inl (Throw "SQLiteError"),
            {| rows := rows logs; runs := S (runs logs) |})
      else (inr (lastInsertRowid db (runs logs)),
            {| rows := rows logs ++ [row]; runs := S (runs logs) |})
  end.

(** [processMessage]: the message is parsed and inserted; a failure of
    either step is caught and reported on the console. *)
Definition processMessage (rt : Runtime) (db : Sqlite) (rawMessage : string)
    (logs : Logs) : Logs :=
  let parsed := parse rt rawMessage in
  let logEntry :=
    {| log_timestamp := timestamp parsed;
       log_facility := facility parsed;
       log_severity := severity parsed;
       log_hostname := hostname parsed;
       log_appName := appName parsed;
       log_procId := procId parsed;
       log_msgId := msgId parsed;
       log_message := message parsed;
       log_raw := rawMessage |} in
  snd (insertLog db logEntry logs).

End Ingest.

(** ** Vocabulary of the statements about message formats *)

Module Format.
Import JS Wording.

Fixpoint noSpace (s : string) : bool :=
  match s with
  | EmptyString => true
  | String c s' => negb (isSpace c) && noSpace s'
  end.

(** A field of a message: not empty, without white space. *)
Definition isToken (s : string) : bool := truthy s && noSpace s.

(** A line in the format of RFC 5424, version 1: the priority in angle
    brackets, the version, six fields separated by single spaces, and the
    message text. *)
Definition rfc5424Line (pri ts host app procid msgid sd msg : string)
    : string :=
  "<" +:+ pri +:+ ">1 " +:+ ts +:+ " " +:+ host +:+ " " +:+ app +:+ " "
  +:+ procid +:+ " " +:+ msgid +:+ " " +:+ sd +:+ " " +:+ msg.

(** What is left after the sixth field when the line has been trimmed:
    nothing when the message text is blank, else a space and the message
    text without the white space at its end; and the words of that text. *)
Definition afterFields (msg : string) : string :=
  match trimEnd msg with
  | EmptyString => EmptyString
  | text => String " " text
  end.

Definition wordsAfter (msg : string) : list string :=
  match trimEnd msg with
  | EmptyString => []
  | text => split text " "
  end.

(** The text of a structured-data element as the parser assembles it
    from the words of the line: the words that are not empty, with single
    spaces between them. *)
Definition collapseSpaces (element : string) : string :=
  join (List.filter truthy (split element " ")) " ".

(** What [parseStructuredData] returns for one element whose assembled
    text is [text]: the parameters under the element id, if the pattern for
    elements matches with an id, and the id is not the name that sets the
    prototype of the result instead of adding a key. *)
Definition recordedElement (rt : Parser.Runtime) (text : string)
    : option Parser.StructuredData :=
  match Parser.sdMatch rt text with
  | Some (sdId, params) =>
      if truthy sdId && negb (String.eqb sdId Parser.protoKey)
      then Some (<[sdId := Parser.parseSDParams rt params]> ∅)
      else None
  | None => None
  end.

(** The message has a priority part: its trimmed text starts with [<]
    and holds a [>] after it. *)
Definition hasPriority (rawMessage : string) : bool :=
  let text := trim rawMessage in
  startsWith text "<" && (0 <? indexOf text ">").

(** The text after the priority part, trimmed: what [parse] hands to the
    positional parsers. *)
Definition contentOf (rawMessage : string) : string :=
  let text := trim rawMessage in
  trim (substringFrom text (Z.to_nat (indexOf text ">" + 1))).

(** A field that may be the nil value [-]. *)
Definition optionalField (field : string) : option string :=
  if String.eqb field "-" then None else Some field.

End Format.

(** ** Vocabulary of the statements about the trace of the alert engine *)

Module Trace.
Import JS Exn Config Effects Update Database Webhook AlertEngine Spec.

(** A count query the engine issued is that of an enabled rule of the
    configuration, over a time window as long as the rule says. *)
Definition justifiedQuery (config : Config) (q : string * Z * Z) : Prop :=
  let '(predicate, startTime, endTime) := q in
  exists rule windowMs,
    rule ∈ getAlertRules config /\ predicate = query rule /\
    parseTimeWindow (window rule) = inr windowMs /\
    endTime - startTime = windowMs.

(** A request the engine sent is that of an enabled rule whose condition
    the count of the payload meets: it goes to the rule's endpoint, for a
    window as long as the rule says, with the rule's own headers before the
    two default ones. *)
Definition justifiedRequest (config : Config) (request : Request) : Prop :=
  let payload := req_body request in
  exists rule windowMs,
    rule ∈ getAlertRules config /\
    req_url request = webhook rule /\
    alertName payload = name rule /\
    trig_query (trigger payload) = query rule /\
    trig_threshold (trigger payload) = threshold rule /\
    checkThreshold (trig_actualValue (trigger payload)) (threshold rule)
      (trig_operator (trigger payload)) = true /\
    pay_severity payload
    = getSeverity (trig_actualValue (trigger payload)) (threshold rule) /\
    parseTimeWindow (window rule) = inr windowMs /\
    win_end (pay_window payload) - win_start (pay_window payload) = windowMs /\
    forall key,
      req_headers request !! key =
      match default ∅ (headers rule) !! key with
      | Some value => Some value
      | None => defaultHeaders !! key
      end.

(** A row of the alert history records a request that was delivered. *)
Definition recordsDelivery (out : Outside) (w : World) (h : AlertHistory)
    : Prop :=
  exists i request,
    requests w !! i = Some request /\
    delivered (fetch out i request) = true /\
    alertName (req_body request) = hist_alertName h /\
    trig_actualValue (trigger (req_body request)) = hist_count h /\
    win_start (pay_window (req_body request)) = windowStart h /\
    win_end (pay_window (req_body request)) = windowEnd h.

(** The sample deployment with alerting switched off. *)
Definition disabledConfig : Config :=
  {| alerting := {| alerting_enabled := false; checkInterval := 60 |};
     debug := false; alerts := [sampleRule] |}.


End Trace.

(** ** http-server.ts *)

Module Http.
Import JS Exn Config.

(** A request as the handlers read it: the method, the path of the URL,
    and [url.searchParams.get("limit")]. *)
Record HttpRequest := {
  method : string;
  pathname : string;
  limitParam : option string
}.

(** The body of a response before [JSON.stringify], with the values the
    handlers compute from the alerting section of the configuration, the
    clock and the log store.  The constant fields, the address of the
    server, the check interval, the retention and the uptime are left
    out. *)
Inductive Body :=
| NotFoundText
| HelloJson (alertingEnabled : bool) (activeRules : nat) (debug : bool)
| HealthJson (timestamp : Z) (alertingEnabled : bool) (activeRules : nat)
| ErrorJson (error : string)
| LogsJson (count : nat) (limit : Z) (logs : list Ingest.LogRow).

Record Response := {
  status : Z;
  contentType : string;
  body : Body
}.

(** What [getRecentLogs] does for a limit: throw an error with a
    message, or return rows. *)
Inductive RecentLogs := RecentThrows (message : string)
                      | RecentRows (logs : list Ingest.LogRow).

(** The server's surroundings: the configuration, the clock, and the log
    store behind [getRecentLogs]. *)
Record Surroundings := {
  config : Config;
  clockNow : Z;
  getRecentLogs : Z -> RecentLogs
}.

(** A handler returns its response and the limits it called
    [getRecentLogs] with. *)
Definition Handled : Type := Response * list Z.

Definition json (status : Z) (body : Body) : Response :=
  {| status := status; contentType := "application/json"; body := body |}.

Definition handleHello (env : Surroundings) : Handled :=
  (json 200 (HelloJson (alerting_enabled (alerting (config env)))
                       (length (getAlertRules (config env)))
                       (debug (config env))),
   []).

(** Nothing in the guarded block of [handleHealth] throws: the clock
    gives a valid date, and the configuration is at hand. *)
Definition handleHealth (env : Surroundings) : Handled :=
  (json 200 (HealthJson (clockNow env)
                        (alerting_enabled (alerting (config env)))
                        (length (getAlertRules (config env)))),
   []).

(** [limitParam ? parseInt(limitParam, 10) : 50] *)
Definition limitOf (limitParam : option string) : number :=
  match limitParam with
  | Some text => if truthy text then parseInt text else Num 50
  | None => Num 50
  end.

Definition invalidLimit : Response :=
  json 400 (ErrorJson "Invalid limit. Must be between 1 and 1000").

Definition handleLogs (env : Surroundings) (limitParam : option string)
    : Handled :=
  match limitOf limitParam with
  | NaN => (invalidLimit, [])
  | Num limit =>
      if (limit <? 1) || (1000 <? limit) then (invalidLimit, [])
      else match getRecentLogs env limit with
           | RecentRows logs =>
               (json 200 (LogsJson (length logs) limit logs), [limit])
           | RecentThrows message => (json 500 (ErrorJson message), [limit])
           end
  end.

Definition handleRequest (env : Surroundings) (req : HttpRequest)
    : Handled :=
  if String.eqb (pathname req) "/" && String.eqb (method req) "GET"
  then handleHello env
  else if String.eqb (pathname req) "/health" && String.eqb (method req) "GET"
  then handleHealth env
  else if String.eqb (pathname req) "/logs" && String.eqb (method req) "GET"
  then handleLogs env (limitParam req)
  else ({| status := 404; contentType := "text/plain";
           body := NotFoundText |}, []).

End Http.

(** ** syslog-parser.ts: the two patterns of [parseRFC3164] *)

Module Classic.
Import JS Parser.

(** The longest prefix whose characters satisfy [p], and what follows. *)
Fixpoint spanWhile (p : ascii -> bool) (s : string) : string * string :=
  match s with
  | String c s' =>
      if p c then let '(run, rest) := spanWhile p s' in (String c run, rest)
      else (EmptyString, s)
  | EmptyString => (EmptyString, EmptyString)
  end.

(** The classes [A-Z] and [a-z], [^\s], and the class of the tag: any
    character but the opening bracket and white space. *)
Definition isUpper (c : ascii) : bool :=
  (65 <=? nat_of_ascii c)%nat && (nat_of_ascii c <=? 90)%nat.

Definition isLower (c : ascii) : bool :=
  (97 <=? nat_of_ascii c)%nat && (nat_of_ascii c <=? 122)%nat.

Definition nonSpace (c : ascii) : bool := negb (isSpace c).

Definition tagChar (c : ascii) : bool :=
  negb (isSpace c) && negb (Ascii.eqb c "[").

(** Two digits, a colon, two digits, a colon, two digits at the start:
    that text and what follows. *)
Definition clockTime (s : string) : option (string * string) :=
  match s with
  | String h1 (String h2 (String k1 (String m1 (String m2
      (String k2 (String s1 (String s2 rest))))))) =>
      if isDigit h1 && isDigit h2 && Ascii.eqb k1 ":" && isDigit m1
         && isDigit m2 && Ascii.eqb k2 ":" && isDigit s1 && isDigit s2
      then Some (String h1 (String h2 (String k1 (String m1 (String m2
                   (String k2 (String s1 (String s2 EmptyString))))))),
                 rest)
      else None
  | _ => None
  end.

(** The match of the time stamp pattern at the start of the content: a
    capital and two small letters, white space, one or two digits, white
    space, the clock time, and white space.  Each run of white space is
    one character or more and as long as possible; the day cannot be the
    start of a longer run of digits, since white space has to follow it.
    Returns group 1, which ends with the clock time, and the length of the
    whole match. *)
Definition timestampPattern (content : string) : option (string * nat) :=
  match content with
  | String c0 (String c1 (String c2 r0)) =>
      let '(ws1, r1) := spanWhile isSpace r0 in
      let '(day, r2) := spanDigits r1 in
      let '(ws2, r3) := spanWhile isSpace r2 in
      match clockTime r3 with
      | Some (time, r4) =>
          let '(ws3, _) := spanWhile isSpace r4 in
          if isUpper c0 && isLower c1 && isLower c2 && truthy ws1
             && ((String.length day =? 1)%nat || (String.length day =? 2)%nat)
             && truthy ws2 && truthy ws3
          then
            let stamp :=
              String c0 (String c1 (String c2 (ws1 +:+ day +:+ ws2 +:+ time)))
            in Some (stamp, (String.length stamp + String.length ws3)%nat)
          else None
      | None => None
      end
  | _ => None
  end.

(** An opening bracket, one or more digits, a closing bracket and a
    colon at the start: the digits and what follows the colon. *)
Definition bracketedId (s : string) : option (string * string) :=
  match s with
  | String "[" r =>
      match spanDigits r with
      | (String d ds, String "]" (String ":" rest)) => Some (String d ds, rest)
      | _ => None
      end
  | _ => None
  end.

(** The last position, not the first one, at which the run holds a
    colon. *)
Fixpoint lastColonFrom (i : nat) (run : string) : option nat :=
  match run with
  | EmptyString => None
  | String c run' =>
      match lastColonFrom (S i) run' with
      | Some k => Some k
      | None => if Ascii.eqb c ":" && (0 <? i)%nat then Some i else None
      end
  end.

(** The match of the host and tag pattern at the start of the text after
    the time stamp.  Group 1 is the run of characters up to the first white
    space; a run of white space follows.  Group 2 is taken from the run of
    tag characters that comes next.  The pattern first tries the whole run,
    which then has to be followed by a process id in brackets and a colon;
    otherwise it gives characters back until a colon of the run itself
    follows group 2, that is, group 2 ends before the last colon of the
    run.  Group 4 is everything after the colon and the white space that
    follows it. *)
Definition hostAppPattern (remaining : string)
    : option (string * string * option string * string) :=
  let '(host, r1) := spanWhile nonSpace remaining in
  let '(ws, r2) := spanWhile isSpace r1 in
  let '(run, r3) := spanWhile tagChar r2 in
  if truthy host && truthy ws && truthy run then
    match bracketedId r3 with
    | Some (pid, afterColon) =>
        Some (host, run, Some pid, snd (spanWhile isSpace afterColon))
    | None =>
        match lastColonFrom 0 run with
        | Some k =>
            Some (host, take k run, None,
                  snd (spanWhile isSpace (drop (S k) run +:+ r3)))
        | None => None
        end
    end
  else None.

(** The class of the parameter text of an element: any character but
    the closing bracket. *)
Definition notClosing (c : ascii) : bool := negb (Ascii.eqb c "]").

(** The pattern for elements tried with an id of [k] characters of the
    run, then of fewer: the parameter text is the longest text without
    closing bracket after the id, and a closing bracket has to follow. *)
Fixpoint elementWithId (k : nat) (run rest : string)
    : option (string * string) :=
  match k with
  | O => None
  | S k' =>
      let '(params, after) := spanWhile notClosing (drop k run +:+ rest) in
      match after with
      | String "]" _ => Some (take k run, params)
      | _ => elementWithId k' run rest
      end
  end.

(** The first match of the pattern for elements in a text: an opening
    bracket, an id of one or more characters other than white space, as
    long as a match allows, the parameter text, a closing bracket.  Returns
    the id and the parameter text. *)
Fixpoint elementPattern (text : string) : option (string * string) :=
  match text with
  | EmptyString => None
  | String c rest =>
      let here :=
        if Ascii.eqb c "[" then
          let '(run, after) := spanWhile nonSpace rest in
          elementWithId (String.length run) run after
        else None in
      match here with
      | Some found => Some found
      | None => elementPattern rest
      end
  end.

(** A runtime with this pattern for elements: everything else is as
    given. *)
Definition withElementPattern (rt : Runtime) : Runtime :=
  {| now := now rt; currentYear := currentYear rt; newDate := newDate rt;
     timestampMatch := timestampMatch rt; hostAppMatch := hostAppMatch rt;
     sdMatch := elementPattern; parseSDParams := parseSDParams rt |}.

(** A runtime with these two patterns: the clock, the year, the date
    parser and the patterns of structured data are as given. *)
Definition withPatterns (rt : Runtime) : Runtime :=
  {| now := now rt; currentYear := currentYear rt; newDate := newDate rt;
     timestampMatch := timestampPattern; hostAppMatch := hostAppPattern;
     sdMatch := sdMatch rt; parseSDParams := parseSDParams rt |}.

End Classic.

(** ** Lines in the classic format, as text *)

Module ClassicFormat.
Import JS Parser Wording Format Classic.

Fixpoint every (p : ascii -> bool) (s : string) : bool :=
  match s with
  | EmptyString => true
  | String c s' => p c && every p s'
  end.

(** The parts of a time stamp: a capital and two small letters; white
    space; one or two digits; a clock time. *)
Definition isMonth (s : string) : bool :=
  match s with
  | String a (String b (String c EmptyString)) =>
      isUpper a && isLower b && isLower c
  | _ => false
  end.

Definition isGap (s : string) : bool := truthy s && every isSpace s.

Definition isDay (s : string) : bool :=
  allDigits s && ((String.length s =? 1)%nat || (String.length s =? 2)%nat).

Definition isClock (s : string) : bool :=
  match clockTime s with
  | Some (_, EmptyString) => true
  | _ => false
  end.

Definition bsdStamp (mon gap day time : string) : string :=
  mon +:+ gap +:+ day +:+ " " +:+ time.

(** A tag: not empty, without white space or opening bracket.  A process
    id, when there is one: one or more digits. *)
Definition isTag (s : string) : bool := truthy s && every tagChar s.

Definition isProcessId (pid : option string) : bool :=
  match pid with
  | Some digits => truthy digits && allDigits digits
  | None => true
  end.

Definition processPart (pid : option string) : string :=
  match pid with
  | Some digits => "[" +:+ digits +:+ "]"
  | None => EmptyString
  end.

(** A line in the classic format: the priority in angle brackets, the
    time stamp, the host, the tag with the process id in brackets if there
    is one, a colon, and the message text. *)
Definition bsdLine (pri stamp host tag : string) (pid : option string)
    (msg : string) : string :=
  "<" +:+ pri +:+ ">" +:+ stamp +:+ " " +:+ host +:+ " " +:+ tag
  +:+ processPart pid +:+ ":" +:+ " " +:+ msg.

(** A priority, a time stamp and a text. *)
Definition stampedText (pri stamp text : string) : string :=
  "<" +:+ pri +:+ ">" +:+ stamp +:+ " " +:+ text.

End ClassicFormat.

(** * Properties *)

(** ** Strings *)

Section Strings.
Import JS Wording.

Lemma append_nil_l (b : string) : EmptyString +:+ b = b.
Proof. reflexivity. Qed.

Lemma append_cons (c : ascii) (a b : string) :
  String c a +:+ b = String c (a +:+ b).
Proof. reflexivity. Qed.

Lemma length_append (a b : string) :
  String.length (a +:+ b) = (String.length a + String.length b)%nat.
Proof.
  induction a as [|c a IH]; [reflexivity|].
  rewrite append_cons. cbn. rewrite IH. reflexivity.
Qed.

Lemma append_nil_r (a : string) : a +:+ EmptyString = a.
Proof.
  induction a as [|c a IH]; [reflexivity|].
  rewrite append_cons, IH. reflexivity.
Qed.

Lemma drop_append (a b : string) : drop (String.length a) (a +:+ b) = b.
Proof.
  induction a as [|c a IH]; [destruct b; reflexivity|].
  rewrite append_cons. exact IH.
Qed.

Lemma take_all (n : nat) (s : string) :
  (String.length s <= n)%nat -> take n s = s.
Proof.
  revert n. induction s as [|c s IH]; intros [|n] H; cbn in *;
    try reflexivity; try lia.
  rewrite IH by lia. reflexivity.
Qed.

Lemma drop_all (n : nat) (s : string) :
  (String.length s <= n)%nat -> drop n s = EmptyString.
Proof.
  revert n. induction s as [|c s IH]; intros [|n] H; cbn in *;
    try reflexivity; try lia.
  apply IH. lia.
Qed.

Lemma drop_add (n m : nat) (s : string) : drop (n + m) s = drop m (drop n s).
Proof.
  revert s. induction n as [|n IH]; intros s; cbn.
  - destruct m, s; reflexivity.
  - destruct s as [|c s]; [destruct m; reflexivity|]. apply IH.
Qed.

Lemma length_drop (n : nat) (s : string) :
  String.length (drop n s) = (String.length s - n)%nat.
Proof.
  revert s. induction n as [|n IH]; intros [|c s]; cbn; try reflexivity.
  apply IH.
Qed.

Lemma isDigit_not_space (c : ascii) : isDigit c = true -> isSpace c = false.
Proof.
  destruct c as [[] [] [] [] [] [] [] []]; cbn; intros H;
    first [reflexivity | discriminate].
Qed.

Lemma isDigit_not_sign (c : ascii) :
  isDigit c = true -> c <> "-"%char /\ c <> "+"%char.
Proof.
  destruct c as [[] [] [] [] [] [] [] []]; cbn; intros H;
    first [discriminate | split; discriminate].
Qed.

Lemma spanDigits_all (ds rest : string) :
  allDigits ds = true ->
  match rest with String c _ => isDigit c = false | EmptyString => True end ->
  spanDigits (ds +:+ rest) = (ds, rest).
Proof.
  intros Hds Hrest. induction ds as [|d ds IH].
  - rewrite append_nil_l. destruct rest as [|c rest]; [reflexivity|].
    cbn. rewrite Hrest. reflexivity.
  - cbn in Hds. apply andb_true_iff in Hds as [Hd Hds].
    rewrite append_cons. cbn. rewrite Hd, (IH Hds). reflexivity.
Qed.

Lemma spanDigits_digits (ds : string) :
  allDigits ds = true -> spanDigits ds = (ds, EmptyString).
Proof.
  intros H. rewrite <- (append_nil_r ds) at 1.
  apply spanDigits_all; [exact H|exact I].
Qed.

Lemma digitValue_nonneg (c : ascii) : 0 <= digitValue c.
Proof.
  destruct c as [[] [] [] [] [] [] [] []]; cbn; lia.
Qed.

Lemma digitsValueFrom_nonneg (ds : string) : forall acc,
  0 <= acc -> 0 <= digitsValueFrom acc ds.
Proof.
  induction ds as [|c ds IH]; intros acc H; cbn; [exact H|].
  apply IH. pose proof (digitValue_nonneg c). lia.
Qed.

Lemma digitsValue_nonneg (ds : string) : 0 <= digitsValue ds.
Proof. apply digitsValueFrom_nonneg. lia. Qed.

(** [parseInt] of a digit run is its decimal value. *)
Lemma parseInt_digits (ds : string) :
  ds <> EmptyString -> allDigits ds = true ->
  parseInt ds = Num (digitsValue ds).
Proof.
  intros Hne Hds. destruct ds as [|d ds]; [contradiction|].
  pose proof Hds as Hall. cbn in Hds. apply andb_true_iff in Hds as [Hd _].
  unfold parseInt. cbn [trimStart]. rewrite (isDigit_not_space _ Hd).
  destruct (isDigit_not_sign _ Hd) as [Hm Hp].
  assert (Hsign :
    match String d ds with
    | String "-" r => (true, r)
    | String "+" r => (false, r)
    | _ => (false, String d ds)
    end = (false, String d ds)).
  { destruct d as [[] [] [] [] [] [] [] []]; try reflexivity;
      first [exfalso; apply Hm; reflexivity | exfalso; apply Hp; reflexivity]. }
  rewrite Hsign, (spanDigits_digits _ Hall). reflexivity.
Qed.

End Strings.

(** ** The frame decoder *)

Section Decoder.
Import JS Server Wording.

Lemma string_pair_ind (P : string -> Prop) :
  P EmptyString ->
  (forall c, P (String c EmptyString)) ->
  (forall c d s, P s -> P (String d s) -> P (String c (String d s))) ->
  forall s, P s.
Proof.
  intros H0 H1 H2 s.
  enough (P s /\ forall c, P (String c s)) as [H _] by exact H.
  induction s as [|d s [IHs IHc]]; split; auto.
Qed.

Lemma splitLines_cons (s : string) :
  exists h t, splitLines s = h :: t.
Proof.
  induction s as [|c|c d s [h [t IH1]] [h' [t' IH2]]] using string_pair_ind.
  - cbn. eauto.
  - cbn. destruct (Ascii.eqb c LF); [eauto|]. destruct (Ascii.eqb c CR); eauto.
  - cbn [splitLines]. cbn [splitLines] in IH2. rewrite IH2.
    destruct (Ascii.eqb c LF); [eauto|].
    destruct (Ascii.eqb c CR); [|eauto].
    destruct (Ascii.eqb d LF); eauto.
Qed.

(** Unfolding of [splitLines] on a non-empty string. *)
Lemma splitLines_step (c : ascii) (s : string) :
  splitLines (String c s) =
  if Ascii.eqb c LF then EmptyString :: splitLines s
  else if Ascii.eqb c CR && startsWith s (String LF EmptyString)
       then EmptyString :: splitLines (drop 1 s)
       else match splitLines s with
            | h :: t => String c h :: t
            | [] => [String c EmptyString]
            end.
Proof.
  cbn [splitLines]. destruct (Ascii.eqb c LF); [reflexivity|].
  destruct (Ascii.eqb c CR); [|reflexivity].
  destruct s as [|d s]; [reflexivity|]. cbn.
  destruct (Ascii.eqb d LF); reflexivity.
Qed.

(** The last piece and the delimiters before it fit in the string. *)
Lemma splitLines_last_length (s : string) :
  (String.length (List.last (splitLines s) EmptyString)
   + (length (splitLines s) - 1) <= String.length s)%nat.
Proof.
  induction s as [|c|c d s IH1 IH2] using string_pair_ind.
  - cbn. lia.
  - cbn. destruct (Ascii.eqb c LF); [cbn; lia|].
    destruct (Ascii.eqb c CR); cbn; lia.
  - rewrite splitLines_step.
    destruct (Ascii.eqb c LF).
    { destruct (splitLines_cons (String d s)) as (h & t & E). rewrite E in *.
      cbn [List.last length String.length] in *. lia. }
    destruct (Ascii.eqb c CR
              && startsWith (String d s) (String LF EmptyString)).
    { cbn [drop]. destruct (splitLines_cons s) as (h & t & E). rewrite E in *.
      cbn [List.last length String.length] in *. lia. }
    destruct (splitLines_cons (String d s)) as (h & t & E). rewrite E in *.
    destruct t as [|h' t]; cbn [List.last length String.length] in *; lia.
Qed.

Lemma splitLines_includes (s : string) :
  includes s LF = true -> (1 < length (splitLines s))%nat.
Proof.
  induction s as [|c|c d s IH1 IH2] using string_pair_ind.
  - discriminate.
  - cbn. destruct (Ascii.eqb c LF); [cbn; lia|discriminate].
  - intros H. rewrite splitLines_step.
    destruct (Ascii.eqb c LF) eqn:Ec.
    { destruct (splitLines_cons (String d s)) as (h & t & E). rewrite E.
      cbn. lia. }
    destruct (Ascii.eqb c CR
              && startsWith (String d s) (String LF EmptyString)).
    { destruct (splitLines_cons (drop 1 (String d s))) as (h & t & E).
      rewrite E. cbn. lia. }
    cbn [includes] in H. rewrite Ec in H. cbn [orb] in H.
    specialize (IH2 H).
    destruct (splitLines_cons (String d s)) as (h & t & E). rewrite E in *.
    exact IH2.
Qed.

Lemma splitLines_pieces (s : string) :
  Forall (fun piece => includes piece LF = false) (splitLines s).
Proof.
  induction s as [|c|c d s IH1 IH2] using string_pair_ind.
  - repeat constructor.
  - cbn. destruct (Ascii.eqb c LF) eqn:Ec; [repeat constructor|].
    destruct (Ascii.eqb c CR); repeat constructor; cbn; rewrite Ec; reflexivity.
  - rewrite splitLines_step.
    destruct (Ascii.eqb c LF) eqn:Ec; [constructor; [reflexivity|exact IH2]|].
    destruct (Ascii.eqb c CR
              && startsWith (String d s) (String LF EmptyString)).
    { constructor; [reflexivity|exact IH1]. }
    destruct (splitLines_cons (String d s)) as (h & t & E). rewrite E in *.
    inversion IH2; subst. constructor; [|assumption].
    cbn. rewrite Ec. assumption.
Qed.

Lemma Forall_last {A} (P : A -> Prop) (l : list A) (d : A) :
  Forall P l -> P d -> P (List.last l d).
Proof.
  intros H Hd. induction H as [|x l Hx Hl IH]; [exact Hd|].
  destruct l; [exact Hx|exact IH].
Qed.

Lemma split_cons (s : string) (sep : ascii) :
  exists h t, split s sep = h :: t.
Proof.
  induction s as [|c s (h & t & IH)]; cbn; [eauto|].
  destruct (Ascii.eqb c sep); [eauto|]. rewrite IH. eauto.
Qed.

Lemma split_last_length (s : string) (sep : ascii) :
  (String.length (List.last (split s sep) EmptyString)
   + (length (split s sep) - 1) <= String.length s)%nat.
Proof.
  induction s as [|c s IH]; [cbn; lia|].
  cbn [split]. destruct (split_cons s sep) as (h & t & E). rewrite E in *.
  destruct (Ascii.eqb c sep).
  - cbn [List.last length String.length] in *. lia.
  - destruct t; cbn [List.last length String.length] in *; lia.
Qed.

Lemma split_includes (s : string) (sep : ascii) :
  includes s sep = true -> (1 < length (split s sep))%nat.
Proof.
  induction s as [|c s IH]; [discriminate|].
  cbn [split includes]. destruct (split_cons s sep) as (h & t & E).
  rewrite E in *. destruct (Ascii.eqb c sep); [cbn; lia|].
  cbn [orb]. intros H. specialize (IH H). exact IH.
Qed.

Lemma spanDigits_allDigits (s : string) :
  allDigits (fst (spanDigits s)) = true.
Proof.
  induction s as [|c s IH]; [reflexivity|]. cbn.
  destruct (isDigit c) eqn:Ec; [|reflexivity].
  destruct (spanDigits s) as [ds rest]. cbn in *. rewrite Ec, IH. reflexivity.
Qed.

Lemma spanDigits_append (s : string) :
  fst (spanDigits s) +:+ snd (spanDigits s) = s.
Proof.
  induction s as [|c s IH]; [reflexivity|]. cbn.
  destruct (isDigit c); [|reflexivity].
  destruct (spanDigits s) as [ds rest]. cbn in *.
  rewrite append_cons, IH. reflexivity.
Qed.

(** What a match of the length prefix means. *)
Lemma matchLengthPrefix_Some (remaining digits : string) (prefixLength : nat) :
  matchLengthPrefix remaining = Some (digits, prefixLength) ->
  digits <> EmptyString /\ allDigits digits = true /\
  prefixLength = S (String.length digits) /\
  exists c rest, isSpace c = true /\
    remaining = digits +:+ String c rest.
Proof.
  unfold matchLengthPrefix.
  pose proof (spanDigits_allDigits remaining) as Hall.
  pose proof (spanDigits_append remaining) as Happ.
  destruct (spanDigits remaining) as [ds rest]. cbn [fst snd] in *.
  destruct ds as [|d ds]; [discriminate|].
  destruct rest as [|c rest]; [discriminate|].
  destruct (isSpace c) eqn:Ec; [|discriminate].
  intros [= <- <-]. split; [discriminate|]. split; [exact Hall|].
  split; [reflexivity|]. exists c, rest. split; [exact Ec|].
  symmetry. exact Happ.
Qed.

(** A pass that continues leaves a shorter text. *)
Lemma iterate_shrinks (remaining : string) emitted remaining' :
  iterate remaining = Continue emitted remaining' ->
  (String.length remaining' < String.length remaining)%nat.
Proof.
  unfold iterate.
  destruct (matchLengthPrefix remaining) as [[digits prefixLength]|] eqn:Hm.
  - apply matchLengthPrefix_Some in Hm as (Hne & Hall & -> & _).
    rewrite (parseInt_digits _ Hne Hall).
    pose proof (digitsValue_nonneg digits) as Hv.
    destruct (_ <=? _) eqn:Hle; [|discriminate].
    apply Z.leb_le in Hle. intros [= _ <-].
    unfold substringFrom. rewrite length_drop. lia.
  - destruct (1 <? length (splitLines remaining))%nat eqn:Hl.
    + apply Nat.ltb_lt in Hl. intros [= _ <-].
      pose proof (splitLines_last_length remaining). lia.
    + destruct (includes remaining NUL) eqn:Hn; [|discriminate].
      intros [= _ <-]. apply split_includes in Hn.
      pose proof (split_last_length remaining NUL). lia.
Qed.

Lemma loop_fuel (fuel1 : nat) : forall fuel2 remaining,
  (String.length remaining <= fuel1)%nat ->
  (String.length remaining <= fuel2)%nat ->
  loop fuel1 remaining = loop fuel2 remaining.
Proof.
  induction fuel1 as [|fuel1 IH]; intros fuel2 remaining H1 H2.
  - destruct remaining; [|cbn in H1; lia]. destruct fuel2; reflexivity.
  - destruct fuel2 as [|fuel2].
    { destruct remaining; [reflexivity|cbn in H2; lia]. }
    cbn [loop]. destruct (0 <? String.length remaining)%nat; [|reflexivity].
    destruct (iterate remaining) as [emitted remaining'|] eqn:Hi;
      [|reflexivity].
    apply iterate_shrinks in Hi.
    rewrite (IH fuel2 remaining') by lia. reflexivity.
Qed.

(** The loop, one pass at a time. *)
Lemma decode_unfold (remaining : string) :
  decode remaining =
  if (0 <? String.length remaining)%nat then
    match iterate remaining with
    | Continue emitted remaining' =>
        (emitted ++ fst (decode remaining'), snd (decode remaining'))
    | Break => ([], remaining)
    end
  else ([], remaining).
Proof.
  unfold decode. destruct remaining as [|c s]; [reflexivity|].
  cbn [String.length loop Nat.ltb Nat.leb].
  destruct (iterate (String c s)) as [emitted remaining'|] eqn:Hi;
    [|reflexivity].
  apply iterate_shrinks in Hi. cbn [String.length] in Hi.
  rewrite (loop_fuel _ (String.length remaining') remaining') by lia.
  destruct (loop _ remaining'). reflexivity.
Qed.

End Decoder.

(** ** Octet-counted frames *)

Section OctetCounting.
Import JS Server Wording.

Lemma isSpace_not_digit (c : ascii) : isSpace c = true -> isDigit c = false.
Proof.
  intros H. destruct (isDigit c) eqn:E; [|reflexivity].
  apply isDigit_not_space in E. congruence.
Qed.

Lemma matchLengthPrefix_frame (digits : string) (c : ascii) (rest : string) :
  digits <> EmptyString -> allDigits digits = true -> isSpace c = true ->
  matchLengthPrefix (digits +:+ String c rest)
  = Some (digits, S (String.length digits)).
Proof.
  intros Hne Hall Hc. unfold matchLengthPrefix.
  rewrite (spanDigits_all digits (String c rest) Hall (isSpace_not_digit c Hc)).
  destruct digits; [contradiction|]. rewrite Hc. reflexivity.
Qed.

Lemma drop_prefix (digits : string) (c : ascii) (rest : string) :
  drop (S (String.length digits)) (digits +:+ String c rest) = rest.
Proof.
  replace (S (String.length digits)) with (String.length digits + 1)%nat by lia.
  rewrite drop_add, drop_append. reflexivity.
Qed.

(** One pass over a buffer that starts with a length prefix. *)
Lemma iterate_frame (digits : string) (c : ascii) (rest : string) :
  digits <> EmptyString -> allDigits digits = true -> isSpace c = true ->
  let declared := Z.to_nat (digitsValue digits) in
  iterate (digits +:+ String c rest) =
  if (declared <=? String.length rest)%nat
  then Continue [take declared rest] (drop declared rest)
  else Break.
Proof.
  intros Hne Hall Hc declared. unfold iterate.
  rewrite (matchLengthPrefix_frame _ _ _ Hne Hall Hc).
  rewrite (parseInt_digits _ Hne Hall).
  pose proof (digitsValue_nonneg digits) as Hv.
  rewrite length_append. cbn [String.length].
  destruct (declared <=? String.length rest)%nat eqn:Hle.
  - apply Nat.leb_le in Hle.
    destruct (_ <=? _) eqn:Hz; [|apply Z.leb_gt in Hz; lia].
    replace (Z.to_nat (Z.of_nat (S (String.length digits))
                       + digitsValue digits))
      with (S (String.length digits) + declared)%nat by lia.
    unfold substring, substringFrom.
    rewrite Nat.min_l, Nat.max_r by lia.
    rewrite drop_add, !drop_prefix.
    replace (S (String.length digits) + declared - S (String.length digits))%nat
      with declared by lia.
    reflexivity.
  - apply Nat.leb_gt in Hle.
    destruct (_ <=? _) eqn:Hz; [apply Z.leb_le in Hz; lia|reflexivity].
Qed.

(** Decoding a text that starts with a length prefix: with the declared
    number of characters present they are one message and decoding goes on
    behind them; with fewer nothing is emitted and the text is kept. *)
Lemma decode_frame (digits : string) (c : ascii) (rest : string) :
  digits <> EmptyString -> allDigits digits = true -> isSpace c = true ->
  let declared := Z.to_nat (digitsValue digits) in
  let buffer := digits +:+ String c rest in
  ((declared <= String.length rest)%nat ->
   decode buffer =
   (take declared rest :: fst (decode (drop declared rest)),
    snd (decode (drop declared rest)))) /\
  ((String.length rest < declared)%nat -> decode buffer = ([], buffer)).
Proof.
  intros Hne Hall Hc declared buffer.
  assert (Hlen : (0 <? String.length buffer)%nat = true).
  { apply Nat.ltb_lt. unfold buffer. rewrite length_append. cbn. lia. }
  split; intros H; rewrite decode_unfold, Hlen; unfold buffer;
    rewrite (iterate_frame _ _ _ Hne Hall Hc); fold declared.
  - apply Nat.leb_le in H. rewrite H. reflexivity.
  - apply Nat.leb_gt in H. rewrite H. reflexivity.
Qed.

Lemma orElse_empty (o : option string) :
  orElse o EmptyString = default EmptyString o.
Proof. destruct o as [[|c x]|]; reflexivity. Qed.

Lemma data_eq (buffers : gmap Socket string) (socket : Socket)
    (chunk : string) :
  let text := default EmptyString (buffers !! socket) +:+ chunk in
  data buffers socket chunk =
  (fst (decode text), <[socket := snd (decode text)]> buffers).
Proof.
  unfold data. rewrite orElse_empty. cbv zeta.
  destruct (decode _). reflexivity.
Qed.

(** Two chunks on a fresh connection. *)
Lemma deliver_two (socket : Socket) (first second : string) :
  let kept := snd (decode first) in
  deliver (open ∅ socket) socket [first; second] =
  (fst (decode first) ++ fst (decode (kept +:+ second)),
   <[socket := snd (decode (kept +:+ second))]>
     (<[socket := kept]> (open ∅ socket))).
Proof.
  cbv zeta. cbn [deliver]. unfold open.
  rewrite data_eq. cbv zeta. rewrite lookup_insert_eq. cbn.
  rewrite append_nil_l, data_eq. cbv zeta. rewrite lookup_insert_eq. cbn.
  rewrite app_nil_r. reflexivity.
Qed.

(** The two frames of the specification's example, cut at any position. *)
Lemma hello_world_in_two_chunks (k : nat) :
  (k <= 15)%nat ->
  let stream := "5 hello6 world!" in
  let '(messages, buffers) :=
    deliver (open ∅ 0%nat) 0%nat [take k stream; drop k stream] in
  messages = ["hello"; "world!"] /\ buffers !! 0%nat = Some EmptyString.
Proof.
  intros Hk.
  do 16 (destruct k as [|k]; [vm_compute; split; reflexivity|]).
  lia.
Qed.

(** A frame that declares ten characters and holds three. *)
Lemma partial_frame_waits (more : string) :
  let '(messages, buffers) :=
    deliver (open ∅ 0%nat) 0%nat ["10 abc"; more] in
  ((String.length more < 7)%nat ->
   messages = [] /\ buffers !! 0%nat = Some ("10 abc" +:+ more)) /\
  (String.length more = 7%nat ->
   messages = ["abc" +:+ more] /\ buffers !! 0%nat = Some EmptyString).
Proof.
  rewrite deliver_two. rewrite lookup_insert_eq.
  change (decode "10 abc") with (@nil string, "10 abc").
  cbn [fst snd app].
  destruct (decode_frame "10" " " ("abc" +:+ more)
              ltac:(discriminate) eq_refl eq_refl) as [Hfull Hwait].
  change (Z.to_nat (digitsValue "10")) with 10%nat in *.
  rewrite length_append in *. cbn [String.length] in *.
  change ("10" +:+ String " " ("abc" +:+ more)) with ("10 abc" +:+ more) in *.
  split; intros Hlen.
  - rewrite Hwait by lia. auto.
  - rewrite Hfull by lia.
    rewrite take_all, drop_all
      by (rewrite length_append; cbn [String.length]; lia).
    auto.
Qed.

(** C2.  The decoder measures a declared length in characters of the
    decoded text, not in bytes.  The four bytes of a frame that declares
    two bytes and carries the two-byte character U+00E9 decode to three
    characters; the handler emits nothing for them and keeps them in the
    buffer.  When the same frame arrives twice, one message is emitted: the
    character followed by the digit of the second length prefix. *)
Theorem octet_count_counts_characters :
  let payload := [xc3; xa9] in
  let text := String "2" (String " " (String "233" EmptyString)) in
  accentFrame = [x32; x20] ++ payload /\
  length payload = 2%nat /\
  decodeUtf8 accentFrame = Some text /\
  receive (open ∅ 0%nat) 0%nat accentFrame
  = Some ([], <[0%nat := text]> (open ∅ 0%nat)) /\
  fst <$> receive (open ∅ 0%nat) 0%nat (accentFrame ++ accentFrame)
  = Some [String "233" (String "2" EmptyString)].
Proof.
  repeat split; vm_compute; reflexivity.
Qed.

End OctetCounting.

(** ** Line-delimited frames *)

Section Lines.
Import JS Server Wording.

Lemma startsWith_LF_includes (s : string) :
  startsWith s (String LF EmptyString) = true -> includes s LF = true.
Proof.
  destruct s as [|c s]; [discriminate|]. cbn.
  destruct (Ascii.eqb c LF); [reflexivity|discriminate].
Qed.

(** Without a line feed there is nothing to split. *)
Lemma splitLines_whole (s : string) :
  includes s LF = false -> splitLines s = [s].
Proof.
  induction s as [|c s IH]; [reflexivity|].
  cbn [includes]. intros H. apply orb_false_iff in H as [Hc Hs].
  rewrite splitLines_step, Hc.
  destruct (startsWith s (String LF EmptyString)) eqn:Hstart.
  { apply startsWith_LF_includes in Hstart. congruence. }
  rewrite andb_false_r, (IH Hs). reflexivity.
Qed.

(** A line and its delimiter at the head of a text: the line is the first
    piece.  Before a bare line feed the line must not end in a carriage
    return, which would belong to the delimiter. *)
Lemma splitLines_CRLF (line rest : string) :
  includes line LF = false ->
  splitLines (line +:+ String CR (String LF rest)) = line :: splitLines rest.
Proof.
  intros Hl. induction line as [|c line IH].
  - rewrite append_nil_l. reflexivity.
  - cbn [includes] in Hl. apply orb_false_iff in Hl as [Hc Hl].
    rewrite append_cons, splitLines_step, Hc, (IH Hl).
    destruct (Ascii.eqb c CR) eqn:Ecr; [|reflexivity].
    destruct line as [|d line]; [reflexivity|].
    rewrite append_cons. cbn [andb startsWith].
    cbn [includes] in Hl. apply orb_false_iff in Hl as [Hd _].
    rewrite Hd. reflexivity.
Qed.

Lemma splitLines_LF (line rest : string) :
  includes line LF = false ->
  Parser.endsWith line CR = false ->
  splitLines (line +:+ String LF rest) = line :: splitLines rest.
Proof.
  intros Hl He. induction line as [|c line IH].
  - rewrite append_nil_l. reflexivity.
  - cbn [includes] in Hl. apply orb_false_iff in Hl as [Hc Hl].
    rewrite append_cons, splitLines_step, Hc.
    destruct line as [|d line].
    + cbn in He. rewrite append_nil_l, He. reflexivity.
    + rewrite IH by (exact Hl || exact He).
      rewrite append_cons. cbn [startsWith].
      cbn [includes] in Hl. apply orb_false_iff in Hl as [Hd _].
      rewrite Hd, andb_false_r. reflexivity.
Qed.

Lemma includes_nonempty (s : string) (c : ascii) :
  includes s c = true -> (0 <? String.length s)%nat = true.
Proof. destruct s; [discriminate|reflexivity]. Qed.

(** A text without length prefix, line feed or NUL is kept as it is. *)
Lemma decode_waits (text : string) :
  matchLengthPrefix text = None ->
  includes text LF = false ->
  includes text NUL = false ->
  decode text = ([], text).
Proof.
  intros Hm Hl Hn. rewrite decode_unfold. unfold iterate.
  rewrite Hm, (splitLines_whole _ Hl), Hn. cbn [length Nat.ltb Nat.leb].
  destruct (String.length text); reflexivity.
Qed.

(** C4.  For a buffer on which the length-prefix pattern (digits, then a
    white-space character) does not match and that contains a line feed:
    one pass splits the buffer at every line feed, with a carriage return
    directly before it; it emits, in order, the trimmed form of each
    complete line that is not blank, and continues decoding on the trailing
    partial line, which holds no line feed.  When neither the length-prefix
    pattern matches the partial line nor a NUL occurs in it, the partial
    line is the buffer retained. *)
Theorem line_delimited_frames (buffer : string) :
  matchLengthPrefix buffer = None ->
  includes buffer LF = true ->
  let lines := splitLines buffer in
  let partial := List.last lines EmptyString in
  let emitted := List.filter truthy (List.map trim (removelast lines)) in
  iterate buffer = Continue emitted partial /\
  decode buffer = (emitted ++ fst (decode partial), snd (decode partial)) /\
  includes partial LF = false /\
  (matchLengthPrefix partial = None -> includes partial NUL = false ->
   decode buffer = (emitted, partial)).
Proof.
  intros Hm Hl lines partial emitted.
  assert (Hi : iterate buffer = Continue emitted partial).
  { unfold iterate. rewrite Hm.
    apply splitLines_includes, Nat.ltb_lt in Hl. fold lines in Hl.
    fold lines. rewrite Hl. reflexivity. }
  assert (Hd : decode buffer
               = (emitted ++ fst (decode partial), snd (decode partial))).
  { rewrite decode_unfold, (includes_nonempty _ _ Hl), Hi. reflexivity. }
  assert (Hp : includes partial LF = false).
  { apply (Forall_last (fun piece => includes piece LF = false));
      [apply splitLines_pieces|reflexivity]. }
  split; [exact Hi|]. split; [exact Hd|]. split; [exact Hp|].
  intros Hm' Hn'. rewrite Hd, (decode_waits _ Hm' Hp Hn'). cbn.
  rewrite app_nil_r. reflexivity.
Qed.

Lemma line_delimited_frames_witness :
  decode ("a" +:+ String CR (String LF ("  b " +:+ String LF "c")))
  = (["a"; "b"], "c").
Proof.
  apply (proj2 (proj2 (proj2
    (line_delimited_frames
       ("a" +:+ String CR (String LF ("  b " +:+ String LF "c")))
       eq_refl eq_refl))));
    reflexivity.
Defined.

Lemma line_frames_as_stated_fail :
  let buffer := " hello " +:+ String LF (" " +:+ String LF EmptyString) in
  startsWithLengthAndSpace buffer = false /\
  includes buffer LF = true /\
  decode buffer = (["hello"], EmptyString) /\
  linesAsStated buffer = ([" hello "; " "], EmptyString) /\
  decode buffer <> linesAsStated buffer.
Proof.
  repeat split; try (vm_compute; reflexivity).
  vm_compute. discriminate.
Qed.

End Lines.

(** ** The message parser *)

Section Parsing.
Import JS Parser Wording.
Variable rt : Runtime.

Lemma parseRFC5424_priority raw f s content :
  let m := parseRFC5424 rt raw f s content in
  facility m = f /\ severity m = s /\ Parser.raw m = raw.
Proof.
  unfold parseRFC5424.
  destruct (split content " " !! 5%nat) as [p5|];
    [destruct (truthy p5 && negb (p5 =? "-")%string && startsWith p5 "[")|];
    cbn; auto.
Qed.

Lemma parseRFC3164_priority raw f s content :
  let m := parseRFC3164 rt raw f s content in
  facility m = f /\ severity m = s /\ Parser.raw m = raw.
Proof.
  unfold parseRFC3164.
  destruct (timestampMatch rt content) as [[stamp matched]|];
    destruct (hostAppMatch rt _) as [[[[g1 g2] g3] g4]|]; cbn; auto.
Qed.

(** C3.  [parse] is a total function: none of its operations throws.
    When the trimmed text does not start with [<], or contains no [>], the
    result is the fallback record: facility 16, severity 6, the time of
    parsing, host name and application name [-], and the trimmed text as
    message and as raw text; which is the original text when that has no
    white space at either end. *)
Theorem parse_fallback (rawMessage : string) :
  let text := trim rawMessage in
  startsWith text "<" = false \/ indexOf text ">" = -1 ->
  parse rt rawMessage = fallbackOf (now rt) text /\
  (text = rawMessage ->
   message (parse rt rawMessage) = rawMessage /\
   raw (parse rt rawMessage) = rawMessage).
Proof.
  intros text H.
  assert (E : parse rt rawMessage = fallbackOf (now rt) text).
  { unfold Parser.parse. fold text.
    destruct H as [H|H]; rewrite H; [reflexivity|].
    destruct (startsWith text "<"); reflexivity. }
  split; [exact E|]. intros Htext. rewrite E, Htext. auto.
Qed.

Lemma priority_of_parse (rawMessage : string) (P : Z) :
  let text := trim rawMessage in
  startsWith text "<" = true ->
  0 < indexOf text ">" ->
  parseInt (substring text 1 (Z.to_nat (indexOf text ">"))) = Num P ->
  facility (parse rt rawMessage) = Num (P / 8) /\
  severity (parse rt rawMessage) = Num (Z.rem P 8).
Proof.
  intros text Hstart Hend Hpri.
  unfold Parser.parse. fold text. rewrite Hstart.
  apply Z.ltb_lt in Hend. rewrite Hend, Hpri. cbn [floorDiv remainder].
  destruct (startsWith _ "1 ").
  - destruct (parseRFC5424_priority text (Num (P / 8)) (Num (Z.rem P 8))
                (substringFrom
                   (trim (substringFrom text
                            (Z.to_nat (indexOf text ">" + 1)))) 2))
      as (Hf & Hs & _).
    auto.
  - destruct (parseRFC3164_priority text (Num (P / 8)) (Num (Z.rem P 8))
                (trim (substringFrom text
                         (Z.to_nat (indexOf text ">" + 1)))))
      as (Hf & Hs & _).
    auto.
Qed.

(** C9.  When the trimmed text starts with [<], a [>] follows, and
    [parseInt] reads between them an integer [P] of at most 2^53 in
    magnitude, the record has facility [P / 8] rounded down and severity
    the remainder of [P] by 8 with the sign of [P], whichever positional
    parser fills the other fields; for [P >= 0] the severity is [P mod 8].
    Priority 131 gives facility 16 and severity 3. *)
Theorem priority_decoding :
  (forall (rawMessage : string) (P : Z),
     let text := trim rawMessage in
     startsWith text "<" = true ->
     0 < indexOf text ">" ->
     parseInt (substring text 1 (Z.to_nat (indexOf text ">"))) = Num P ->
     - maxExact <= P <= maxExact ->
     facility (parse rt rawMessage) = Num (P / 8) /\
     severity (parse rt rawMessage) = Num (Z.rem P 8) /\
     (0 <= P -> severity (parse rt rawMessage) = Num (P mod 8))) /\
  (let m :=
     parse rt ("<131>1 2024-01-01T00:00:00.000Z server1.local app - - "
               +:+ "Error: Database connection failed") in
   facility m = Num 16 /\ severity m = Num 3).
Proof.
  split.
  - intros rawMessage P text Hstart Hend Hpri _.
    destruct (priority_of_parse rawMessage P Hstart Hend Hpri) as [Hf Hs].
    split; [exact Hf|]. split; [exact Hs|].
    intros HP. rewrite Hs, Z.rem_mod_nonneg by lia. reflexivity.
  - apply (priority_of_parse _ 131); vm_compute; reflexivity.
Qed.

End Parsing.

(** ** The parser at sample inputs *)

Section ParserSamples.
Import JS Parser Wording.

Lemma parse_fallback_witness :
  parseAtZero "  no priority here " = fallbackOf 0 "no priority here".
Proof.
  apply (proj1 (parse_fallback quietRuntime "  no priority here "
                  (or_introl eq_refl))).
Defined.

Lemma fallback_as_stated_fails :
  let input := " hello" in
  startsWith input "<" = false /\
  message (parseAtZero input) = "hello" /\
  raw (parseAtZero input) = "hello" /\
  message (parseAtZero input) <> input.
Proof.
  repeat split; try reflexivity. vm_compute. discriminate.
Qed.

(** A priority that is not a number does not lead to the fallback
    record. *)
Lemma unreadable_priority_is_kept :
  let m := parseAtZero "<abc>hello" in
  parseInt "abc" = NaN /\ facility m = NaN /\ severity m = NaN /\
  message m = "hello".
Proof. repeat split; reflexivity. Qed.

Lemma priority_decoding_witness :
  facility (parseAtZero "<13>Oct 11 22:14:15 host su: failed") = Num 1 /\
  severity (parseAtZero "<13>Oct 11 22:14:15 host su: failed") = Num 5.
Proof.
  destruct (proj1 (priority_decoding quietRuntime)
              "<13>Oct 11 22:14:15 host su: failed" 13
              eq_refl eq_refl eq_refl ltac:(vm_compute; split; discriminate))
    as (Hf & _ & Hs).
  split; [exact Hf | exact (Hs ltac:(discriminate))].
Defined.

Lemma negative_priority_as_stated_fails :
  let m := parseAtZero "<-5>x" in
  parseInt "-5" = Num (-5) /\
  facility m = Num (-1) /\ severity m = Num (-5) /\
  severity m <> Num ((-5) mod 8) /\
  facility m <> Num (Z.quot (-5) 8).
Proof.
  repeat split; try reflexivity; vm_compute; discriminate.
Qed.

End ParserSamples.

(** ** The division of doubles *)

Section Rounding.
Import Webhook.
Local Open Scope Z_scope.

Lemma two_power_pos (k : Z) : (0 < 2 ^ k)%Q.
Proof. apply Qpower_0_lt. reflexivity. Qed.

Lemma two_power_succ (k : Z) : (2 ^ (k + 1) == 2 * 2 ^ k)%Q.
Proof.
  rewrite Qpower_plus by discriminate. rewrite Qpower_1_r. ring.
Qed.

Lemma two_power_pred (k : Z) : (2 * 2 ^ (k - 1) == 2 ^ k)%Q.
Proof.
  rewrite <- two_power_succ. replace (k - 1 + 1) with k by lia. reflexivity.
Qed.

Lemma two_power_le (a b : Z) : a <= b -> (2 ^ a <= 2 ^ b)%Q.
Proof. intros H. apply Qpower_le_compat_l; [exact H|discriminate]. Qed.

Lemma two_power_Z (k : Z) : 0 <= k -> (inject_Z (2 ^ k) == 2 ^ k)%Q.
Proof. intros H. rewrite Zpower_Qpower by exact H. reflexivity. Qed.

(** The exponent of a positive rational. *)
Lemma exponentOf_spec (x : Q) :
  (0 < x)%Q ->
  (2 ^ exponentOf x <= x)%Q /\ (x < 2 ^ (exponentOf x + 1))%Q.
Proof.
  intros Hx. destruct x as [n d]. 
  assert (Hn : 0 < n) by (unfold Qlt in Hx; cbn in Hx; lia).
  unfold exponentOf. cbn [Qnum Qden].
  set (ln := Z.log2 n). set (ld := Z.log2 (Z.pos d)).
  destruct (Z.log2_spec n Hn) as [Hn1 Hn2]. fold ln in Hn1, Hn2.
  destruct (Z.log2_spec (Z.pos d) ltac:(lia)) as [Hd1 Hd2].
  fold ld in Hd1, Hd2.
  assert (Hln : 0 <= ln) by apply Z.log2_nonneg.
  assert (Hld : 0 <= ld) by apply Z.log2_nonneg.
  pose proof (two_power_pos ln) as PA. pose proof (two_power_pos ld) as PB.
  assert (QA1 : (2 ^ ln <= inject_Z n)%Q).
  { rewrite <- two_power_Z by exact Hln. rewrite <- Zle_Qle. exact Hn1. }
  assert (QA2 : (inject_Z n < 2 * 2 ^ ln)%Q).
  { rewrite <- two_power_succ, <- two_power_Z by lia. rewrite <- Zlt_Qlt.
    replace (ln + 1) with (Z.succ ln) by lia. exact Hn2. }
  assert (QB1 : (2 ^ ld <= inject_Z (Z.pos d))%Q).
  { rewrite <- two_power_Z by exact Hld. rewrite <- Zle_Qle. exact Hd1. }
  assert (QB2 : (inject_Z (Z.pos d) < 2 * 2 ^ ld)%Q).
  { rewrite <- two_power_succ, <- two_power_Z by lia. rewrite <- Zlt_Qlt.
    replace (ld + 1) with (Z.succ ld) by lia. exact Hd2. }
  assert (Ex : (n # d) * inject_Z (Z.pos d) == inject_Z n).
  { rewrite (Qmake_Qdiv n d). field. discriminate. }
  assert (E0 : (2 ^ (ln - ld) * 2 ^ ld == 2 ^ ln)%Q).
  { rewrite <- Qpower_plus by discriminate.
    replace (ln - ld + ld) with ln by lia. reflexivity. }
  pose proof (two_power_pos (ln - ld)) as PE.
  set (x := n # d) in *. set (N := inject_Z n) in *.
  set (D := inject_Z (Z.pos d)) in *.
  set (A := (2 ^ ln)%Q) in *. set (B := (2 ^ ld)%Q) in *.
  set (E := (2 ^ (ln - ld))%Q) in *.
  destruct (Qle_bool E x) eqn:Hc.
  - apply Qle_bool_iff in Hc. split; [exact Hc|].
    rewrite two_power_succ. fold E.
    (* x * D = N < 2 A = 2 E B <= 2 E D *)
    apply Qnot_le_lt. intros Hle.
    assert (H1 : (2 * E * D <= x * D)%Q).
    { apply Qmult_le_compat_r; [exact Hle|]. lra. }
    assert (H2 : (2 * E * B <= 2 * E * D)%Q).
    { apply Qmult_le_l; [lra|exact QB1]. }
    rewrite Ex in H1. 
    assert (H3 : (2 * E * B == 2 * A)%Q) by (rewrite <- E0; ring).
    lra.
  - assert (Hlt : (x < E)%Q).
    { apply Qnot_le_lt. intros H. apply Qle_bool_iff in H. congruence. }
    split.
    + (* E / 2 <= x : E B = A <= N = x D < x 2 B *)
      apply Qnot_lt_le. intros Hl.
      assert (Heq : (2 * 2 ^ (ln - ld - 1) == E)%Q)
        by (unfold E; apply two_power_pred).
      assert (H1 : (x * D <= x * (2 * B))%Q).
      { apply Qmult_le_l; [exact Hx|lra]. }
      assert (H2 : (x * (2 * B) < E * B)%Q).
      { setoid_replace (x * (2 * B))%Q with ((2 * x) * B)%Q
          using relation Qeq by ring.
        apply Qmult_lt_compat_r; [exact PB|]. lra. }
      rewrite Ex in H1. rewrite E0 in H2. lra.
    + replace (ln - ld - 1 + 1) with (ln - ld) by lia. exact Hlt.
Qed.

Lemma inject_Z_pred (k : Z) : (inject_Z (k - 1) == inject_Z k - 1)%Q.
Proof. unfold Z.sub. rewrite inject_Z_plus. reflexivity. Qed.

Lemma roundHalfEven_cases (m : Q) :
  let f := Qfloor m in
  (inject_Z f <= m)%Q /\ (m < inject_Z f + 1)%Q /\
  ((2 * (m - inject_Z f) < 1)%Q /\ roundHalfEven m = f \/
   (1 < 2 * (m - inject_Z f))%Q /\ roundHalfEven m = f + 1 \/
   (2 * (m - inject_Z f) == 1)%Q /\
   roundHalfEven m = if Z.even f then f else f + 1).
Proof.
  intros f. pose proof (Qfloor_le m) as H1. pose proof (Qlt_floor m) as H2.
  fold f in H1, H2.
  assert (H2' : (m < inject_Z f + 1)%Q).
  { rewrite inject_Z_plus in H2. exact H2. }
  split; [exact H1|]. split; [exact H2'|].
  unfold roundHalfEven. fold f.
  destruct (Qcompare_spec (2 * (m - inject_Z f)) 1) as [E|E|E]; auto.
Qed.

(** An integer at most [m] is at most the rounded value; an integer at
    least [m] is at least the rounded value. *)
Lemma roundHalfEven_lower (m : Q) (k : Z) :
  (inject_Z k <= m)%Q -> k <= roundHalfEven m.
Proof.
  intros H. destruct (roundHalfEven_cases m) as (H1 & H2 & Hc).
  assert (Hk : k <= Qfloor m).
  { apply Qfloor_resp_le in H. rewrite Qfloor_Z in H. exact H. }
  destruct Hc as [[_ ->]|[[_ ->]|[_ ->]]]; [lia|lia|].
  destruct (Z.even _); lia.
Qed.

Lemma roundHalfEven_upper (m : Q) (k : Z) :
  (m <= inject_Z k)%Q -> roundHalfEven m <= k.
Proof.
  intros H. destruct (roundHalfEven_cases m) as (H1 & H2 & Hc).
  set (f := Qfloor m) in *.
  assert (Hf : f <= k).
  { apply Qfloor_resp_le in H. rewrite Qfloor_Z in H. exact H. }
  destruct (Z.eq_dec f k) as [E|E].
  - assert (Hm : (m == inject_Z f)%Q) by (rewrite E in *; lra).
    destruct Hc as [[_ ->]|[[Hgt _]|[Heq _]]]; [lia|lra|lra].
  - destruct Hc as [[_ ->]|[[_ ->]|[_ ->]]]; [lia|lia|].
    destruct (Z.even _); lia.
Qed.

(** Rounding reaches an even integer from half a unit below it on. *)
Lemma roundHalfEven_even (m : Q) (k : Z) :
  Z.even k = true ->
  (k <= roundHalfEven m <-> (inject_Z k - (1 # 2) <= m)%Q).
Proof.
  intros Hk. destruct (roundHalfEven_cases m) as (H1 & H2 & Hc).
  set (f := Qfloor m) in *.
  assert (Hodd : Z.even (k - 1) = false).
  { rewrite Z.even_sub, Hk. reflexivity. }
  split.
  - intros Hle. apply Qnot_lt_le. intros Hlt.
    assert (Hf : f <= k - 1).
    { assert (Hm : (m <= inject_Z k)%Q) by lra.
      apply Qfloor_resp_le in Hm. rewrite Qfloor_Z in Hm. fold f in Hm.
      destruct (Z.eq_dec f k) as [E|E]; [|lia].
      rewrite E in H1. lra. }
    assert (Hfk : (inject_Z f <= inject_Z (k - 1))%Q)
      by (rewrite <- Zle_Qle; exact Hf).
    rewrite inject_Z_pred in Hfk.
    destruct Hc as [[_ E]|[[Hgt E]|[Heq E]]]; rewrite E in Hle.
    + lia.
    + destruct (Z.eq_dec f (k - 1)) as [E'|E']; [|lia].
      rewrite E', inject_Z_pred in Hgt. lra.
    + destruct (Z.eq_dec f (k - 1)) as [E'|E'].
      * rewrite E', inject_Z_pred in Heq. lra.
      * destruct (Z.even f); lia.
  - intros Hge.
    assert (Hf : k - 1 <= f).
    { assert (Hm : (inject_Z (k - 1) <= m)%Q)
        by (rewrite inject_Z_pred; lra).
      apply Qfloor_resp_le in Hm. rewrite Qfloor_Z in Hm. exact Hm. }
    destruct (Z.eq_dec f (k - 1)) as [E|E].
    + rewrite E, inject_Z_pred in Hc.
      destruct Hc as [[Hlt _]|[[_ ->]|[_ ->]]]; [lra|lia|].
      rewrite Hodd. lia.
    + destruct Hc as [[_ ->]|[[_ ->]|[_ ->]]]; [lia|lia|].
      destruct (Z.even f); lia.
Qed.

Lemma two_power_52 : (2 ^ 52 == inject_Z 4503599627370496)%Q.
Proof. vm_compute. reflexivity. Qed.

Lemma two_power_53 : (2 ^ 53 == inject_Z 9007199254740992)%Q.
Proof. vm_compute. reflexivity. Qed.

Lemma Qmult_le_cancel (a b q : Q) :
  (0 < q)%Q -> (a * q <= b * q)%Q -> (a <= b)%Q.
Proof. intros Hq H. apply (Qmult_le_r a b q Hq). exact H. Qed.

Lemma Qmult_lt_cancel (a b q : Q) :
  (0 < q)%Q -> (a * q < b * q)%Q -> (a < b)%Q.
Proof. intros Hq H. apply (Qmult_lt_r a b q Hq). exact H. Qed.

(** The double nearest to a positive rational reaches a bound [c] between
    1 and 2 whose significand is even exactly from half a unit in the last
    place below [c] on. *)
Lemma roundPositive_reaches (x c : Q) (K : Z) :
  (0 < x)%Q -> Z.even K = true ->
  4503599627370496 < K <= 9007199254740992 ->
  (c == inject_Z K * 2 ^ (-52))%Q ->
  match roundPositive x with
  | Some r => (c <= r)%Q
  | None => True
  end <-> (c - 2 ^ (-53) <= x)%Q.
Proof.
  intros Hx Heven HK Hc.
  destruct (exponentOf_spec x Hx) as [He1 He2].
  unfold roundPositive. set (e := exponentOf x) in *.
  set (e' := Z.max e (-1022)).
  set (q := (2 ^ (e' - 52))%Q).
  pose proof (two_power_pos (e' - 52)) as Pq. fold q in Pq.
  set (m := (x / q)%Q).
  assert (Hm : (m * q == x)%Q) by (unfold m; field; lra).
  set (r := roundHalfEven m).
  assert (Hq52 : (2 ^ 52 * q == 2 ^ e')%Q).
  { unfold q. rewrite <- Qpower_plus by discriminate.
    replace (52 + (e' - 52)) with e' by lia. reflexivity. }
  assert (Hq53 : (2 ^ 53 * q == 2 ^ (e' + 1))%Q).
  { unfold q. rewrite <- Qpower_plus by discriminate.
    replace (53 + (e' - 52)) with (e' + 1) by lia. reflexivity. }
  assert (Hhalf : (2 * 2 ^ (-53) == 2 ^ (-52))%Q) by (vm_compute; reflexivity).
  assert (Hunit : (2 ^ 52 * 2 ^ (-52) == 1)%Q) by (vm_compute; reflexivity).
  assert (Hbig : (2 < 2 ^ 1024)%Q).
  { setoid_replace 2%Q with (2 ^ 1)%Q using relation Qeq at 1 by reflexivity.
    apply Qpower_lt_compat_l; [lia|reflexivity]. }
  assert (HKq : (inject_Z 4503599627370496 + 2 <= inject_Z K)%Q).
  { assert (4503599627370496 + 2 <= K).
    { destruct (Z.eq_dec K 4503599627370497) as [->|]; [discriminate|lia]. }
    change (inject_Z 4503599627370496 + 2)%Q
      with (inject_Z 4503599627370496 + inject_Z 2)%Q.
    rewrite <- inject_Z_plus. rewrite <- Zle_Qle. assumption. }
  assert (HKq' : (inject_Z K <= inject_Z 9007199254740992)%Q)
    by (rewrite <- Zle_Qle; lia).
  pose proof (two_power_pos (-52)) as P52.
  assert (Hc1 : (1 + 2 * 2 ^ (-52) <= c)%Q).
  { rewrite Hc. rewrite <- Hunit at 1. rewrite two_power_52.
    setoid_replace
      (inject_Z 4503599627370496 * 2 ^ (-52) + 2 * 2 ^ (-52))%Q
      with ((inject_Z 4503599627370496 + 2) * 2 ^ (-52))%Q
      using relation Qeq by ring.
    apply Qmult_le_compat_r; [exact HKq|lra]. }
  assert (Hc2 : (c <= 2)%Q).
  { rewrite Hc.
    setoid_replace 2%Q with (inject_Z 9007199254740992 * 2 ^ (-52))%Q
      using relation Qeq at 2 by (vm_compute; reflexivity).
    apply Qmult_le_compat_r; [exact HKq'|lra]. }
  destruct (Z_lt_le_dec e 0) as [Hneg|Hnonneg].
  - (* below one *)
    assert (He' : e' <= -1) by (unfold e'; lia).
    assert (Hee : e <= e') by (unfold e'; lia).
    assert (Hx1 : (x < 2 ^ (e' + 1))%Q).
    { eapply Qlt_le_trans; [exact He2|]. apply two_power_le. lia. }
    assert (Hone : (2 ^ (e' + 1) <= 1)%Q).
    { setoid_replace 1%Q with (2 ^ 0)%Q using relation Qeq by reflexivity.
      apply two_power_le. lia. }
    assert (Hm53 : (m <= inject_Z 9007199254740992)%Q).
    { rewrite <- two_power_53. apply Qlt_le_weak.
      apply (Qmult_lt_cancel _ _ q Pq). rewrite Hm, Hq53. exact Hx1. }
    pose proof (roundHalfEven_upper m _ Hm53) as Hr. fold r in Hr.
    assert (HR : (inject_Z r * q <= 1)%Q).
    { eapply Qle_trans; [|exact Hone]. rewrite <- Hq53.
      apply Qmult_le_compat_r; [|lra]. rewrite two_power_53.
      rewrite <- Zle_Qle. exact Hr. }
    destruct (Qle_bool (2 ^ 1024) (inject_Z r * q)) eqn:Hov.
    { apply Qle_bool_iff in Hov. lra. }
    split; intros H; lra.
  - destruct (Z.eq_dec e 0) as [E0|E0].
    + (* between one and two *)
      assert (He' : e' = 0) by (unfold e'; lia).
      assert (Eq : (q == 2 ^ (-52))%Q) by (unfold q; rewrite He'; reflexivity).
      rewrite He' in Hq53, Hq52.
      assert (Hx2 : (x < 2)%Q).
      { rewrite E0 in He2. exact He2. }
      assert (Hm53 : (m <= inject_Z 9007199254740992)%Q).
      { rewrite <- two_power_53. apply Qlt_le_weak.
        apply (Qmult_lt_cancel _ _ q Pq). rewrite Hm, Hq53. exact Hx2. }
      pose proof (roundHalfEven_upper m _ Hm53) as Hr. fold r in Hr.
      assert (HR : (inject_Z r * q <= 2)%Q).
      { assert (H0 : (inject_Z r * q <= 2 ^ 53 * q)%Q).
        { apply Qmult_le_compat_r; [|lra].
          rewrite two_power_53. rewrite <- Zle_Qle. exact Hr. }
        rewrite Hq53 in H0. exact H0. }
      destruct (Qle_bool (2 ^ 1024) (inject_Z r * q)) eqn:Hov.
      { apply Qle_bool_iff in Hov. lra. }
      pose proof (roundHalfEven_even m K Heven) as Hev. fold r in Hev.
      split.
      * intros H. rewrite Hc, <- Eq in H.
        apply (Qmult_le_cancel _ _ q Pq) in H. rewrite <- Zle_Qle in H.
        apply Hev in H.
        assert (H' : ((inject_Z K - (1 # 2)) * q <= m * q)%Q)
          by (apply Qmult_le_compat_r; [exact H|lra]).
        rewrite Hm in H'. rewrite Hc. rewrite Eq in H'. lra.
      * intros H. rewrite Hc, <- Eq.
        apply Qmult_le_compat_r; [|lra]. rewrite <- Zle_Qle. apply Hev.
        apply (Qmult_le_cancel _ _ q Pq). rewrite Hm, Eq.
        rewrite Hc in H. lra.
    + (* two and more *)
      assert (He' : e' = e) by (unfold e'; lia).
      rewrite He' in Hq52.
      assert (Htwo : (2 <= 2 ^ e)%Q).
      { setoid_replace 2%Q with (2 ^ 1)%Q using relation Qeq at 1 by reflexivity.
        apply two_power_le. lia. }
      assert (Hm52 : (inject_Z 4503599627370496 <= m)%Q).
      { rewrite <- two_power_52. apply (Qmult_le_cancel _ _ q Pq).
        rewrite Hm, Hq52. exact He1. }
      pose proof (roundHalfEven_lower m _ Hm52) as Hr. fold r in Hr.
      assert (HR : (2 <= inject_Z r * q)%Q).
      { eapply Qle_trans; [exact Htwo|]. rewrite <- Hq52.
        apply Qmult_le_compat_r; [|lra]. rewrite two_power_52.
        rewrite <- Zle_Qle. exact Hr. }
      pose proof (two_power_pos (-53)) as P53.
      split; [intros _; lra|].
      intros _. destruct (Qle_bool _ _); [exact I|lra].
Qed.

Lemma roundPositive_nonneg (x r : Q) :
  (0 < x)%Q -> roundPositive x = Some r -> (0 <= r)%Q.
Proof.
  intros Hx. unfold roundPositive.
  set (q := (2 ^ (Z.max (exponentOf x) (-1022) - 52))%Q).
  pose proof (two_power_pos (Z.max (exponentOf x) (-1022) - 52)) as Pq.
  fold q in Pq.
  destruct (Qle_bool _ _); [discriminate|]. intros [= <-].
  apply Qmult_le_0_compat; [|lra].
  change 0%Q with (inject_Z 0). rewrite <- Zle_Qle.
  apply roundHalfEven_lower. change (inject_Z 0) with 0%Q.
  apply Qle_shift_div_l; [exact Pq|]. lra.
Qed.

End Rounding.

(** ** Threshold comparison and severity *)

Section Thresholds.
Import JS Config Effects Webhook.
Local Open Scope Q_scope.

Lemma Qgt_bool_iff (a b : Q) : negb (Qle_bool a b) = true <-> b < a.
Proof.
  rewrite negb_true_iff. split.
  - intros H. apply Qnot_le_lt. intros Hle. apply Qle_bool_iff in Hle.
    congruence.
  - intros H. destruct (Qle_bool a b) eqn:E; [|reflexivity].
    apply Qle_bool_iff in E. lra.
Qed.

Lemma checkThreshold_unrecognized (count threshold : Q) (operator : string) :
  operator ∉ ["gt"; "gte"; "lt"; "lte"; "eq"] ->
  checkThreshold count threshold operator = false.
Proof.
  intros H. unfold checkThreshold.
  repeat match goal with
  | |- context [String.eqb operator ?s] =>
      destruct (String.eqb_spec operator s) as [->|_];
      [exfalso; apply H; set_solver|]
  end.
  reflexivity.
Qed.

(** C5.  The threshold check compares the count with the threshold as
    the operator says: greater for [gt], greater or equal for [gte], less
    for [lt], less or equal for [lte], equal for [eq]; any other operator
    gives false.  With count 10 and threshold 10, [gte] holds and [gt]
    does not. *)
Theorem checkThreshold_compares (count threshold : Q) :
  (checkThreshold count threshold "gt" = true <-> threshold < count) /\
  (checkThreshold count threshold "gte" = true <-> threshold <= count) /\
  (checkThreshold count threshold "lt" = true <-> count < threshold) /\
  (checkThreshold count threshold "lte" = true <-> count <= threshold) /\
  (checkThreshold count threshold "eq" = true <-> count == threshold) /\
  (forall operator, operator ∉ ["gt"; "gte"; "lt"; "lte"; "eq"] ->
     checkThreshold count threshold operator = false) /\
  checkThreshold 10 10 "gte" = true /\ checkThreshold 10 10 "gt" = false.
Proof.
  split; [exact (Qgt_bool_iff count threshold)|].
  split; [exact (Qle_bool_iff threshold count)|].
  split; [exact (Qgt_bool_iff threshold count)|].
  split; [exact (Qle_bool_iff count threshold)|].
  split; [exact (Qeq_bool_iff count threshold)|].
  split; [exact (checkThreshold_unrecognized count threshold)|].
  split; reflexivity.
Qed.

Lemma checkThreshold_compares_witness :
  checkThreshold 3 7 "ne" = false.
Proof.
  apply (proj1 (proj2 (proj2 (proj2 (proj2 (proj2
           (checkThreshold_compares 3 7))))))).
  refine (bool_decide_unpack _ _). vm_compute. exact I.
Defined.

(** The quotient of doubles reaches 2, or 1.5, exactly when the exact
    quotient is no more than [halfUlp] below it. *)
Lemma atLeast_divide (a t c : Q) (K : Z) :
  ~ t == 0 -> Z.even K = true ->
  (4503599627370496 < K <= 9007199254740992)%Z ->
  c == inject_Z K * 2 ^ (-52) ->
  atLeast (divide a t) c = Qle_bool (c - halfUlp) (a / t).
Proof.
  intros Ht Heven HK Hc. unfold divide.
  destruct (Qeq_bool t 0) eqn:E; [apply Qeq_bool_iff in E; contradiction|].
  clear E. set (x := a / t).
  assert (Hhalf : halfUlp == 1 # 9007199254740992)
    by (vm_compute; reflexivity).
  assert (Hunit : 2 ^ (-52) == 1 # 4503599627370496)
    by (vm_compute; reflexivity).
  assert (Hlow : 1 < c - halfUlp).
  { assert (inject_Z 4503599627370496 + 1 <= inject_Z K).
    { change (inject_Z 4503599627370496 + 1)
        with (inject_Z 4503599627370496 + inject_Z 1).
      rewrite <- inject_Z_plus, <- Zle_Qle. lia. }
    assert (H1 : (inject_Z 4503599627370496 + 1) * (1 # 4503599627370496)
                 <= inject_Z K * (1 # 4503599627370496))
      by (apply Qmult_le_compat_r; [assumption|discriminate]).
    assert (H2 : inject_Z 4503599627370496 * (1 # 4503599627370496) == 1)
      by (vm_compute; reflexivity).
    rewrite Hc, Hunit, Hhalf. lra. }
  assert (Hfalse : forall y, y <= 0 -> Qle_bool (c - halfUlp) y = false).
  { intros y Hy. destruct (Qle_bool _ _) eqn:E; [|reflexivity].
    apply Qle_bool_iff in E. lra. }
  assert (Hcpos : 0 < c) by lra.
  destruct (Qeq_bool x 0) eqn:E0.
  { apply Qeq_bool_iff in E0. cbn [atLeast].
    rewrite Hfalse by lra. destruct (Qle_bool c 0) eqn:E; [|reflexivity].
    apply Qle_bool_iff in E. lra. }
  assert (Hx0 : ~ x == 0).
  { intros H. apply Qeq_bool_iff in H. congruence. }
  destruct (Qle_bool 0 x) eqn:Epos.
  - apply Qle_bool_iff in Epos.
    assert (Hx : 0 < x) by (apply Qle_lt_or_eq in Epos as [H|H];
                            [exact H|symmetry in H; contradiction]).
    pose proof (roundPositive_reaches x c K Hx Heven HK Hc) as Hreach.
    fold halfUlp in Hreach.
    destruct (roundPositive x) as [r|]; cbn [atLeast negb].
    + destruct (Qle_bool c r) eqn:E1; destruct (Qle_bool _ x) eqn:E2;
        try reflexivity.
      * apply Qle_bool_iff in E1. apply Hreach in E1.
        apply Qle_bool_iff in E1. congruence.
      * apply Qle_bool_iff in E2. apply Hreach in E2.
        apply Qle_bool_iff in E2. congruence.
    + destruct (Qle_bool _ x) eqn:E2; [reflexivity|].
      assert (H : c - halfUlp <= x) by (apply Hreach; exact I).
      apply Qle_bool_iff in H. congruence.
  - assert (Hx : x < 0).
    { apply Qnot_le_lt. intros H. apply Qle_bool_iff in H. congruence. }
    rewrite Hfalse by lra.
    destruct (roundPositive (- x)) as [r|] eqn:Er; cbn [atLeast negb];
      [|reflexivity].
    assert (Hr : 0 <= r) by (apply (roundPositive_nonneg (- x)); [lra|exact Er]).
    destruct (Qle_bool c (- r)) eqn:E; [|reflexivity].
    apply Qle_bool_iff in E. lra.
Qed.

Lemma atLeast_two (a t : Q) :
  ~ t == 0 -> atLeast (divide a t) 2 = Qle_bool (2 - halfUlp) (a / t).
Proof.
  intros Ht. apply (atLeast_divide a t 2 9007199254740992 Ht);
    [reflexivity|lia|vm_compute; reflexivity].
Qed.

Lemma atLeast_three_halves (a t : Q) :
  ~ t == 0 -> atLeast (divide a t) 1.5 = Qle_bool (1.5 - halfUlp) (a / t).
Proof.
  intros Ht. apply (atLeast_divide a t 1.5 6755399441055744 Ht);
    [reflexivity|lia|vm_compute; reflexivity].
Qed.

(** C8.  For a threshold other than zero, the severity of the payload
    goes by the quotient of count and threshold as the division of doubles
    rounds it.  That quotient reaches 2, or 1.5, when the exact ratio is no
    more than 2^-53 below it: the severity is critical exactly when the
    exact ratio is at least 2 - 2^-53, warning exactly when it is at least
    1.5 - 2^-53 and below 2 - 2^-53, and info exactly when it is below
    1.5 - 2^-53.  In particular a ratio of at least 2 is critical, a ratio
    from 1.5 to 2 - 2^-53 is warning, and a ratio below 1.5 - 2^-53 is
    info.  Count 11 against threshold 10 is info; count 11 against
    threshold 5 is critical. *)
Theorem getSeverity_by_ratio (actualValue threshold : Q) :
  ~ threshold == 0 ->
  (getSeverity actualValue threshold = critical
     <-> 2 - halfUlp <= actualValue / threshold) /\
  (getSeverity actualValue threshold = warning
     <-> 1.5 - halfUlp <= actualValue / threshold /\
         actualValue / threshold < 2 - halfUlp) /\
  (getSeverity actualValue threshold = info
     <-> actualValue / threshold < 1.5 - halfUlp) /\
  getSeverity 11 10 = info /\ getSeverity 11 5 = critical.
Proof.
  intros Ht. unfold getSeverity.
  rewrite atLeast_two, atLeast_three_halves by exact Ht.
  assert (Hhalf : halfUlp == 1 # 9007199254740992)
    by (vm_compute; reflexivity).
  set (ratio := actualValue / threshold).
  split; [|split; [|split; [|split; vm_compute; reflexivity]]];
  destruct (Qle_bool (2 - halfUlp) ratio) eqn:E2;
    destruct (Qle_bool (1.5 - halfUlp) ratio) eqn:E1;
    try apply Qle_bool_iff in E2; try apply Qle_bool_iff in E1;
    try (assert (~ 2 - halfUlp <= ratio)
           by (intros X; apply Qle_bool_iff in X; congruence));
    try (assert (~ 1.5 - halfUlp <= ratio)
           by (intros X; apply Qle_bool_iff in X; congruence));
    repeat split; intros; try discriminate; try lra.
Qed.

Lemma getSeverity_by_ratio_witness :
  getSeverity 8 5 = warning.
Proof.
  apply (proj1 (proj2 (getSeverity_by_ratio 8 5 ltac:(discriminate)))).
  split; vm_compute; [discriminate | reflexivity].
Defined.

(** Count 5 against the threshold 3.3333333333333335, the double nearest
    to ten thirds: the exact ratio is below 1.5, the quotient of doubles is
    1.5, and the severity is warning. *)
Lemma exact_ratio_as_stated_fails :
  let threshold := 7505999378950827 # 2251799813685248 in
  5 / threshold < 1.5 /\
  match divide 5 threshold with RatioOf q => q == 1.5 | _ => False end /\
  getSeverity 5 threshold = warning /\
  getSeverity 5 threshold <> info.
Proof.
  split; [vm_compute; reflexivity|].
  split; [vm_compute; reflexivity|].
  split; [vm_compute; reflexivity|]. vm_compute. discriminate.
Qed.

End Thresholds.

(** ** The alert engine *)

(** Case analysis on whether the request of the goal was delivered. *)
Ltac case_delivered H :=
  match goal with
  | |- context [Spec.delivered ?outcome] =>
      destruct (Spec.delivered outcome) eqn:H
  end.

Section Engine.
Import JS Exn Config Effects Update Database Webhook AlertEngine Spec.
Variable out : Outside.

Lemma runAlertQuery_eq predicate startTime endTime w :
  runAlertQuery out predicate startTime endTime w =
  (inr (countOf out predicate startTime endTime w),
   afterQuery predicate startTime endTime w).
Proof.
  unfold runAlertQuery, countOf, afterQuery, tryCatch, bind, modify,
    prepareGet, ret. cbn.
  destruct (sqliteGet out _ _ _ _) as [|[[|[n|s|] row]|]]; reflexivity.
Qed.

Lemma sendAlert_eq rule count startTime endTime w :
  let request :=
    requestOf out rule count startTime endTime
      (clock out (clockReads w)) in
  sendAlert out rule count startTime endTime w =
  (inr (delivered (fetch out (length (requests w)) request)),
   logRequest request (tickClock w)).
Proof.
  unfold sendAlert, bind, newDate, doFetch, ret, requestOf, delivered. cbn.
  destruct (fetch out _ _); reflexivity.
Qed.

Lemma isInCooldown_none rule w :
  lastAlertTimes w !! name rule = None ->
  isInCooldown out rule w = (inr false, w).
Proof.
  intros H. unfold isInCooldown, bind, gets. rewrite H. reflexivity.
Qed.

Lemma isInCooldown_some rule w t cooldownMs :
  lastAlertTimes w !! name rule = Some t ->
  parseTimeWindow (orElse (cooldown rule) "5m") = inr cooldownMs ->
  isInCooldown out rule w =
  (inr (validTime (t + cooldownMs)
        && (clock out (clockReads w) <? t + cooldownMs)), tickClock w).
Proof.
  intros H1 H2. unfold isInCooldown, bind, gets, lift, newDate, ret.
  rewrite H1, H2. reflexivity.
Qed.

Lemma isInCooldown_throws rule w t e :
  lastAlertTimes w !! name rule = Some t ->
  parseTimeWindow (orElse (cooldown rule) "5m") = inl e ->
  isInCooldown out rule w = (inl e, w).
Proof.
  intros H1 H2. unfold isInCooldown, bind, gets, lift. rewrite H1, H2.
  reflexivity.
Qed.

Lemma sameButClock_refl w : sameButClock w w.
Proof. constructor; reflexivity. Qed.

Lemma sameButClock_tick w : sameButClock w (tickClock w).
Proof. constructor; reflexivity. Qed.

Lemma isInCooldown_world rule w r w' :
  isInCooldown out rule w = (r, w') -> sameButClock w w'.
Proof.
  destruct (lastAlertTimes w !! name rule) as [t|] eqn:Ht.
  - destruct (parseTimeWindow (orElse (cooldown rule) "5m")) as [e|ms] eqn:Hp.
    + rewrite (isInCooldown_throws _ _ _ _ Ht Hp). intros [= <- <-].
      apply sameButClock_refl.
    + rewrite (isInCooldown_some _ _ _ _ Ht Hp). intros [= <- <-].
      apply sameButClock_tick.
  - rewrite (isInCooldown_none _ _ Ht). intros [= <- <-].
    apply sameButClock_refl.
Qed.

Lemma checkRule_unfold rule w :
  checkRule out rule w =
  match isInCooldown out rule w with
  | (inr true, w') => (inr tt, w')
  | (inr false, w') => evaluate out rule w'
  | (inl e, w') => (inl e, w')
  end.
Proof.
  unfold checkRule, evaluate. unfold bind at 1.
  destruct (isInCooldown out rule w) as [[e|[|]] w']; reflexivity.
Qed.

(** [evaluate] step by step, for a readable window. *)
Lemma evaluate_eq rule w windowMs :
  parseTimeWindow (window rule) = inr windowMs ->
  let endTime := clock out (clockReads w) in
  let startTime := endTime - windowMs in
  let w0 := tickClock w in
  let count := countOf out (query rule) startTime endTime w0 in
  let w1 := afterQuery (query rule) startTime endTime w0 in
  let request :=
    requestOf out rule count startTime endTime
      (clock out (clockReads w1)) in
  let w2 := logRequest request (tickClock w1) in
  evaluate out rule w =
  if checkThreshold count (threshold rule) (orElse (operator rule) "gt") then
    if delivered (fetch out (length (requests w1)) request) then
      insertAlertHistory out
        {| hist_alertName := name rule; hist_count := count;
           windowStart := startTime; windowEnd := endTime |}
        (setLastAlertTimes
           (<[name rule := clock out (clockReads w2)]> (lastAlertTimes w2))
           (tickClock w2))
    else (inr tt, w2)
  else (inr tt, w1).
Proof.
  intros Hp. cbv zeta. unfold evaluate, bind, lift, newDate. rewrite Hp.
  rewrite runAlertQuery_eq.
  destruct (checkThreshold _ _ _); [|reflexivity].
  rewrite sendAlert_eq. cbv zeta.
  case_delivered Hd; reflexivity.
Qed.

Lemma evaluate_throws rule w e :
  parseTimeWindow (window rule) = inl e ->
  evaluate out rule w = (inl e, w).
Proof.
  intros Hp. unfold evaluate, bind, lift. rewrite Hp. reflexivity.
Qed.

Lemma no_request_appended (w : World) (request : Request) :
  requests w <> requests w ++ [request].
Proof.
  intros H. apply (f_equal length) in H. rewrite length_app in H.
  cbn in H. lia.
Qed.

(** Inserting a history row touches neither the engine's fields nor the
    requests nor the clock. *)
Lemma insertAlertHistory_world alert w :
  let w' := snd (insertAlertHistory out alert w) in
  lastAlertTimes w' = lastAlertTimes w /\ requests w' = requests w /\
  isRunning w' = isRunning w /\ checked w' = checked w /\
  clockReads w' = clockReads w.
Proof.
  unfold insertAlertHistory, prepareRun.
  destruct (sqliteRunThrows out _); cbn; auto.
Qed.

Lemma insert_lastAlertTimes alert w :
  lastAlertTimes (snd (insertAlertHistory out alert w)) = lastAlertTimes w.
Proof. apply insertAlertHistory_world. Qed.

Lemma insert_requests alert w :
  requests (snd (insertAlertHistory out alert w)) = requests w.
Proof. apply insertAlertHistory_world. Qed.

Lemma insert_isRunning alert w :
  isRunning (snd (insertAlertHistory out alert w)) = isRunning w.
Proof. apply insertAlertHistory_world. Qed.

Lemma insert_checked alert w :
  checked (snd (insertAlertHistory out alert w)) = checked w.
Proof. apply insertAlertHistory_world. Qed.

Lemma insert_clockReads alert w :
  clockReads (snd (insertAlertHistory out alert w)) = clockReads w.
Proof. apply insertAlertHistory_world. Qed.

(** What an evaluation can do to the tracker, the history and the
    requests: nothing at all to the first two and at most one undelivered
    request, or exactly one delivered request. *)
Lemma evaluate_outcome rule w :
  let w' := snd (evaluate out rule w) in
  (lastAlertTimes w' = lastAlertTimes w /\ alertHistory w' = alertHistory w /\
   (requests w' = requests w \/
    exists request, requests w' = requests w ++ [request] /\
      delivered (fetch out (length (requests w)) request) = false)) \/
  (exists request, requests w' = requests w ++ [request] /\
      delivered (fetch out (length (requests w)) request) = true).
Proof.
  destruct (parseTimeWindow (window rule)) as [e|windowMs] eqn:Hp.
  { rewrite (evaluate_throws _ _ _ Hp). left. cbn. auto. }
  rewrite (evaluate_eq _ _ _ Hp). cbv zeta.
  destruct (checkThreshold _ _ _); [|left; cbn; auto].
  case_delivered Hd.
  - right. eexists. split; [|exact Hd].
    rewrite insert_requests. reflexivity.
  - left. cbn. split; [reflexivity|]. split; [reflexivity|].
    right. eexists. split; [reflexivity|]. exact Hd.
Qed.

(** A delivered request leaves in the tracker the clock reading taken
    after it. *)
Lemma evaluate_delivered rule w request :
  let w' := snd (evaluate out rule w) in
  requests w' = requests w ++ [request] ->
  delivered (fetch out (length (requests w)) request) = true ->
  lastAlertTimes w' =
  <[name rule := clock out (pred (clockReads w'))]> (lastAlertTimes w).
Proof.
  destruct (parseTimeWindow (window rule)) as [e|windowMs] eqn:Hp.
  { rewrite (evaluate_throws _ _ _ Hp). cbn. intros Hr.
    destruct (no_request_appended _ _ Hr). }
  rewrite (evaluate_eq _ _ _ Hp). cbv zeta.
  destruct (checkThreshold _ _ _).
  2:{ cbn. intros Hr. destruct (no_request_appended _ _ Hr). }
  case_delivered Hd.
  - intros _ _. rewrite insert_lastAlertTimes, insert_clockReads.
    reflexivity.
  - cbn. intros Hr. apply app_inv_head in Hr. injection Hr as <-.
    intros Hd'. cbn in Hd, Hd'. congruence.
Qed.

Lemma checkRule_outcome rule w :
  let w' := snd (checkRule out rule w) in
  (lastAlertTimes w' = lastAlertTimes w /\ alertHistory w' = alertHistory w /\
   (requests w' = requests w \/
    exists request, requests w' = requests w ++ [request] /\
      delivered (fetch out (length (requests w)) request) = false)) \/
  (exists request, requests w' = requests w ++ [request] /\
      delivered (fetch out (length (requests w)) request) = true).
Proof.
  rewrite checkRule_unfold.
  destruct (isInCooldown out rule w) as [[e|[|]] w1] eqn:Hc;
    apply isInCooldown_world in Hc; destruct Hc as [Hl _ _ _ Hh Hr _]; cbn.
  - left. auto.
  - left. auto.
  - pose proof (evaluate_outcome rule w1) as H. cbv zeta in H.
    rewrite Hl, Hh, Hr in H. exact H.
Qed.

Lemma checkRule_delivered rule w request :
  let w' := snd (checkRule out rule w) in
  requests w' = requests w ++ [request] ->
  delivered (fetch out (length (requests w)) request) = true ->
  lastAlertTimes w' =
  <[name rule := clock out (pred (clockReads w'))]> (lastAlertTimes w).
Proof.
  rewrite checkRule_unfold.
  destruct (isInCooldown out rule w) as [[e|[|]] w1] eqn:Hc;
    apply isInCooldown_world in Hc; destruct Hc as [Hl _ _ _ _ Hr _];
    cbn [snd].
  - rewrite Hr. intros H. destruct (no_request_appended _ _ H).
  - rewrite Hr. intros H. destruct (no_request_appended _ _ H).
  - rewrite <- Hl, <- Hr. apply evaluate_delivered.
Qed.

Lemma checkGuarded_eq rule w :
  checkGuarded out rule w =
  (inr tt, snd (checkRule out rule w)).
Proof.
  unfold checkGuarded, tryCatch, ret.
  destruct (checkRule out rule w) as [[e|[]] w']; reflexivity.
Qed.

(** C6.  When executing the count query fails, [runAlertQuery] catches
    the failure and returns 0.  For every predicate and time window it
    returns a count and never throws; and the body of the scheduler's loop,
    which runs it for a rule, never throws either, whatever the
    predicate. *)
Theorem query_failure_counts_zero (predicate : string) (startTime endTime : Z)
    (w : World) :
  (sqliteGet out (statements w) (countStatementText predicate)
     startTime endTime = GetThrows ->
   fst (runAlertQuery out predicate startTime endTime w) = inr 0%Q) /\
  (exists count w',
     runAlertQuery out predicate startTime endTime w = (inr count, w')) /\
  (forall rule, exists w',
     checkGuarded out rule w = (inr tt, w')).
Proof.
  split; [|split].
  - intros H. rewrite runAlertQuery_eq. unfold countOf. rewrite H. reflexivity.
  - rewrite runAlertQuery_eq. eauto.
  - intros rule. rewrite checkGuarded_eq. eauto.
Qed.



Lemma evaluate_flags rule w :
  let w' := snd (evaluate out rule w) in
  isRunning w' = isRunning w /\ checked w' = checked w.
Proof.
  destruct (parseTimeWindow (window rule)) as [e|windowMs] eqn:Hp.
  { rewrite (evaluate_throws _ _ _ Hp). cbn. auto. }
  rewrite (evaluate_eq _ _ _ Hp). cbv zeta.
  destruct (checkThreshold _ _ _); [|cbn; auto].
  case_delivered Hd; [|cbn; auto].
  rewrite insert_isRunning, insert_checked. cbn. auto.
Qed.

Lemma checkGuarded_flags rule w :
  let w' := snd (checkGuarded out rule w) in
  isRunning w' = isRunning w /\ checked w' = checked w.
Proof.
  rewrite checkGuarded_eq, checkRule_unfold. cbn [snd].
  destruct (isInCooldown out rule w) as [[e|[|]] w1] eqn:Hc;
    apply isInCooldown_world in Hc; destruct Hc as [_ Hi _ _ _ _ Hk];
    cbn [snd]; auto.
  destruct (evaluate_flags rule w1) as [-> ->]. auto.
Qed.

Section Scheduling.
Variable config : Config.

Lemma checkNext_isRunning w rule :
  isRunning (checkNext out w rule) = isRunning w.
Proof.
  unfold checkNext.
  destruct (checkGuarded_flags rule (logChecked (name rule) w)) as [-> _].
  reflexivity.
Qed.

Lemma checkNext_checked w rule :
  checked (checkNext out w rule) = checked w ++ [name rule].
Proof.
  unfold checkNext.
  destruct (checkGuarded_flags rule (logChecked (name rule) w)) as [_ ->].
  reflexivity.
Qed.

Lemma onResume_head rule rest s :
  batches s = [rule :: rest] ->
  onResume out 0 s =
  match rest with
  | [] => {| world := setRunning false (checkNext out (world s) rule);
             timer := timer s; batches := [] |}
  | _ => {| world := checkNext out (world s) rule; timer := timer s;
            batches := [rest] |}
  end.
Proof.
  intros Hb. unfold onResume, checkNext. rewrite Hb. cbn [lookup list_lookup].
  destruct (checkGuarded out rule _) as [r w'].
  destruct rest; reflexivity.
Qed.

Lemma singleFlight_step s e :
  singleFlight s -> singleFlight (step out config s e).
Proof.
  intros [[Hb Hr]|(rule & rest & Hb & Hr)]; destruct e as [|i];
    cbn [AlertEngine.step].
  - unfold AlertEngine.onTick. destruct (timer s); [|left; auto].
    rewrite Hr. cbn [negb]. unfold runChecks.
    destruct (getAlertRules config) as [|rule rest] eqn:Hrules; cbn.
    + left. auto.
    + right. exists rule, rest. rewrite Hb. auto.
  - unfold AlertEngine.onResume. rewrite Hb. cbn. left. auto.
  - unfold AlertEngine.onTick. rewrite Hr. destruct (timer s); right; eauto.
  - destruct i as [|i].
    + rewrite (onResume_head _ _ _ Hb). destruct rest as [|rule' rest].
      * left. auto.
      * right. exists rule', rest. cbn. rewrite checkNext_isRunning. auto.
    + unfold AlertEngine.onResume. rewrite Hb. cbn. right. eauto.
Qed.

Lemma singleFlight_run events s :
  singleFlight s -> singleFlight (run out config s events).
Proof.
  revert s. induction events as [|e events IH]; intros s Hs; [exact Hs|].
  cbn. apply IH, singleFlight_step, Hs.
Qed.

Lemma singleFlight_started : singleFlight (started config).
Proof.
  left. unfold started, start. destruct (alerting_enabled _); auto.
Qed.

Lemma onTick_running s : isRunning (world s) = true -> onTick config s = s.
Proof.
  intros Hr. unfold AlertEngine.onTick. rewrite Hr.
  destruct (timer s); reflexivity.
Qed.

Lemma run_cons s e es :
  run out config s (e :: es) = run out config (step out config s e) es.
Proof. reflexivity. Qed.

Lemma run_app s es1 es2 :
  run out config (run out config s es1) es2 = run out config s (es1 ++ es2).
Proof. unfold AlertEngine.run. rewrite fold_left_app. reflexivity. Qed.

Lemma run_ticks_running k s :
  isRunning (world s) = true -> run out config s (repeat Tick k) = s.
Proof.
  intros Hr. induction k as [|k IH]; [reflexivity|].
  cbn [repeat]. rewrite run_cons. cbn [AlertEngine.step].
  rewrite (onTick_running _ Hr). exact IH.
Qed.

Lemma run_batch rules : forall gaps s,
  rules <> [] ->
  length gaps = length rules ->
  batches s = [rules] ->
  isRunning (world s) = true ->
  run out config s (batchEvents gaps) =
  {| world := setRunning false (fold_left (checkNext out) rules (world s));
     timer := timer s; batches := [] |}.
Proof.
  induction rules as [|rule rest IH]; intros gaps s Hne Hlen Hb Hr;
    [contradiction|].
  destruct gaps as [|k gaps]; [discriminate|].
  cbn [batchEvents flat_map]. rewrite <- app_assoc, <- !run_app.
  rewrite (run_ticks_running _ _ Hr), run_cons. cbn [AlertEngine.step].
  rewrite (onResume_head _ _ _ Hb).
  destruct rest as [|rule' rest].
  - destruct gaps; [|discriminate]. reflexivity.
  - rewrite IH; [reflexivity|discriminate| |reflexivity|].
    + cbn in Hlen |- *. lia.
    + cbn. rewrite checkNext_isRunning. exact Hr.
Qed.

Lemma fold_checkNext_checked rules : forall w,
  checked (fold_left (checkNext out) rules w) = checked w ++ map name rules.
Proof.
  induction rules as [|rule rest IH]; intros w; cbn.
  - rewrite app_nil_r. reflexivity.
  - rewrite IH, checkNext_checked, <- app_assoc. reflexivity.
Qed.

(** C7.  After any sequence of timer ticks and resumptions, at most one
    batch is suspended.  A tick that arrives while the flag is up changes
    nothing: the batch is neither queued nor replaced.  From the idle state
    with the timer installed, a tick starts a batch; however many further
    ticks arrive before each of its rules is checked, the enabled rules are
    checked one after the other in their configured order, each with its
    failure caught, and after the last one the engine is idle again. *)
Theorem single_flight_batches (events : list Event) :
  let s := run out config (started config) events in
  (length (batches s) <= 1)%nat /\
  (isRunning (world s) = true -> step out config s Tick = s) /\
  (isRunning (world s) = false -> timer s = true ->
   forall gaps, length gaps = length (getAlertRules config) ->
     let s' := run out config s (Tick :: batchEvents gaps) in
     world s' =
       setRunning false
         (fold_left (checkNext out) (getAlertRules config)
            (setRunning true (world s))) /\
     checked (world s') =
       checked (world s) ++ map name (getAlertRules config) /\
     batches s' = [] /\ isRunning (world s') = false).
Proof.
  cbv zeta.
  pose proof (singleFlight_run events _ singleFlight_started) as Hs.
  set (s := run out config (started config) events) in *.
  split; [|split].
  - destruct Hs as [[-> _]|(rule & rest & -> & _)]; cbn; lia.
  - apply onTick_running.
  - intros Hidle Htimer gaps Hlen.
    destruct Hs as [[Hb _]|(rule & rest & _ & Hr)]; [|congruence].
    rewrite run_cons. cbn [AlertEngine.step].
    unfold AlertEngine.onTick. rewrite Htimer, Hidle. cbn [negb].
    unfold runChecks. rewrite Hb.
    destruct (getAlertRules config) as [|rule rest] eqn:Hrules.
    + destruct gaps; [|discriminate]. cbn. rewrite app_nil_r. auto.
    + cbn [length Nat.eqb app].
      rewrite (run_batch (rule :: rest));
        [|discriminate|exact Hlen|reflexivity|reflexivity].
      cbn [world batches]. split; [reflexivity|].
      split; [|auto].
      cbn [checked setRunning]. rewrite fold_checkNext_checked. reflexivity.
Qed.

End Scheduling.
End Engine.

(** ** The statements at the sample deployment *)

Section Samples.
Import JS Exn Config Effects Update Database Webhook AlertEngine Spec.

Lemma query_failure_counts_zero_witness :
  fst (runAlertQuery brokenStore "severity <= " 0 900000 initialWorld)
  = inr 0%Q.
Proof.
  apply (proj1 (query_failure_counts_zero brokenStore
                  "severity <= " 0 900000 initialWorld)).
  reflexivity.
Defined.


Lemma single_flight_batches_witness :
  let s := run sampleOutside sampleConfig
             (started sampleConfig) (Tick :: batchEvents [2%nat]) in
  checked (world s) = ["errors"] /\ batches s = [] /\
  isRunning (world s) = false.
Proof.
  destruct (proj2 (proj2 (single_flight_batches sampleOutside
                            sampleConfig []))
              eq_refl eq_refl [2%nat] eq_refl) as (_ & Hc & Hb & Hr).
  exact (conj Hc (conj Hb Hr)).
Defined.

End Samples.

(** ** Spacing of the requests of a rule *)

Section Spacing.
Import JS Exn Config Effects Update Database Webhook AlertEngine Spec Wording.
Variable out : Outside.
Hypothesis clock_monotone : monotone out.

Lemma parseTimeWindow_nonneg (window : string) (ms : Z) :
  parseTimeWindow window = inr ms -> 0 <= ms.
Proof.
  unfold parseTimeWindow.
  pose proof (spanDigits_allDigits window) as Hall.
  destruct (spanDigits window) as [[|d ds] [|unit [|c rest]]];
    try discriminate.
  cbn [fst] in Hall.
  rewrite (parseInt_digits (String d ds) ltac:(discriminate) Hall).
  pose proof (digitsValue_nonneg (String d ds)) as Hv.
  destruct (Ascii.eqb unit "m"); [intros [= <-]; lia|].
  destruct (Ascii.eqb unit "h"); [intros [= <-]; lia|].
  destruct (Ascii.eqb unit "d"); [intros [= <-]; lia|discriminate].
Qed.

(** The request of an evaluation: whose it is, when it was stamped, and
    what it does to the tracker. *)
Lemma evaluate_request rule w request :
  let w' := snd (evaluate out rule w) in
  requests w' = requests w ++ [request] ->
  alertName (req_body request) = name rule /\
  pay_timestamp (req_body request) = clock out (S (clockReads w)) /\
  lastAlertTimes w' =
    if delivered (fetch out (length (requests w)) request)
    then <[name rule := clock out (S (S (clockReads w)))]> (lastAlertTimes w)
    else lastAlertTimes w.
Proof.
  destruct (parseTimeWindow (window rule)) as [e|windowMs] eqn:Hp.
  { rewrite (evaluate_throws out _ _ _ Hp). cbn. intros Hr.
    destruct (no_request_appended _ _ Hr). }
  rewrite (evaluate_eq out _ _ _ Hp). cbv zeta.
  destruct (checkThreshold _ _ _).
  2:{ cbn. intros Hr. destruct (no_request_appended _ _ Hr). }
  case_delivered Hd.
  - rewrite insert_lastAlertTimes, insert_requests. cbn. intros Hr.
    apply app_inv_head in Hr. injection Hr as <-.
    cbn in Hd |- *. rewrite Hd. auto.
  - cbn. intros Hr. apply app_inv_head in Hr. injection Hr as <-.
    cbn in Hd |- *. rewrite Hd. auto.
Qed.

(** The same for [checkRule]: its request comes no sooner than the
    cooldown after the time the tracker holds, and a delivered request
    moves the tracker forward. *)
Lemma checkRule_request rule w request :
  cooldownEndValid rule w ->
  let w' := snd (checkRule out rule w) in
  requests w' = requests w ++ [request] ->
  alertName (req_body request) = name rule /\
  (forall t, lastAlertTimes w !! name rule = Some t ->
     t <= pay_timestamp (req_body request) /\
     forall cooldownMs,
       parseTimeWindow (orElse (cooldown rule) "5m") = inr cooldownMs ->
       t + cooldownMs <= pay_timestamp (req_body request)) /\
  exists stamp,
    pay_timestamp (req_body request) <= stamp /\
    lastAlertTimes w' =
      if delivered (fetch out (length (requests w)) request)
      then <[name rule := stamp]> (lastAlertTimes w)
      else lastAlertTimes w.
Proof.
  intros Hvalid. rewrite checkRule_unfold.
  destruct (lastAlertTimes w !! name rule) as [t|] eqn:Ht.
  - destruct (parseTimeWindow (orElse (cooldown rule) "5m"))
      as [e|cooldownMs] eqn:Hp.
    { rewrite (isInCooldown_throws _ _ _ _ _ Ht Hp). cbn. intros Hr.
      destruct (no_request_appended _ _ Hr). }
    rewrite (isInCooldown_some _ _ _ _ _ Ht Hp).
    rewrite (Hvalid t cooldownMs Ht Hp), andb_true_l.
    destruct (_ <? _) eqn:Hgate.
    { cbn. intros Hr. destruct (no_request_appended _ _ Hr). }
    apply Z.ltb_ge in Hgate.
    intros w' Hr. destruct (evaluate_request rule (tickClock w) request Hr)
      as (Hn & Hs & Hl).
    cbn [clockReads tickClock lastAlertTimes requests] in Hs, Hl.
    pose proof (parseTimeWindow_nonneg _ _ Hp) as Hcd.
    pose proof (clock_monotone (clockReads w) (S (S (clockReads w)))
                  ltac:(lia)) as Hm.
    split; [exact Hn|]. split.
    + intros t' [= <-]. rewrite Hs. split; [lia|].
      intros cd [= <-]. lia.
    + exists (clock out (S (S (S (clockReads w))))). split; [|exact Hl].
      rewrite Hs. apply clock_monotone. lia.
  - rewrite (isInCooldown_none _ _ _ Ht).
    intros w' Hr. destruct (evaluate_request rule w request Hr)
      as (Hn & Hs & Hl).
    split; [exact Hn|]. split; [intros t' [=]|].
    exists (clock out (S (S (clockReads w)))). split; [|exact Hl].
    rewrite Hs. apply clock_monotone. lia.
Qed.

(** A call that appends no request leaves requests and tracker alone. *)
Lemma checkRule_quiet rule w :
  let w' := snd (checkRule out rule w) in
  (exists request, requests w' = requests w ++ [request]) \/
  (requests w' = requests w /\ lastAlertTimes w' = lastAlertTimes w).
Proof.
  destruct (checkRule_outcome out rule w)
    as [(Hl & _ & [Hr|(request & Hr & _)])|(request & Hr & _)]; eauto.
Qed.

Section WithConfig.
Variable config : Config.

Lemma tracked_checkRule rule w :
  cooldownEndValid rule w ->
  tracked out w -> tracked out (snd (checkRule out rule w)).
Proof.
  intros Hvalid Htr.
  destruct (checkRule_quiet rule w) as [(request & Hr)|(Hr & Hl)].
  - destruct (checkRule_request rule w request Hvalid Hr)
      as (Hn & Hgate & stamp & Hstamp & Hl).
    intros i req Hi Hd. rewrite Hr in Hi.
    apply lookup_app_Some in Hi as [Hi|(Hlen & Hi)].
    + destruct (Htr i req Hi Hd) as (t & Ht & Hle).
      rewrite Hl. destruct (delivered (fetch out _ request)); [|eauto].
      destruct (decide (name rule = alertName (req_body req))) as [E|E].
      * rewrite <- E, lookup_insert_eq. rewrite <- E in Ht.
        exists stamp. split; [reflexivity|].
        destruct (Hgate t Ht) as [Hle' _]. lia.
      * rewrite lookup_insert_ne by exact E. eauto.
    + apply list_lookup_singleton_Some in Hi as [Hi <-].
      replace i with (length (requests w)) in Hd by lia.
      rewrite Hl, Hd, Hn, lookup_insert_eq. eauto.
  - intros i req Hi Hd. rewrite Hr in Hi. rewrite Hl. eauto.
Qed.

Lemma spaced_checkRule rule w :
  rule ∈ getAlertRules config ->
  cooldownEndValid rule w ->
  tracked out w -> spaced out config w ->
  spaced out config (snd (checkRule out rule w)).
Proof.
  intros Hin Hvalid Htr Hsp.
  destruct (checkRule_quiet rule w) as [(request & Hr)|(Hr & _)].
  - destruct (checkRule_request rule w request Hvalid Hr)
      as (Hn & Hgate & _).
    intros i j first second cd Hij Hi Hj Hd Hname Hcd.
    rewrite Hr in Hi, Hj.
    apply lookup_app_Some in Hj as [Hj|(Hlen & Hj)].
    + pose proof (lookup_lt_Some _ _ _ Hj) as Hjlt.
      rewrite lookup_app_l in Hi by lia. eauto.
    + apply list_lookup_singleton_Some in Hj as [Hj <-].
      rewrite lookup_app_l in Hi by lia.
      destruct (Htr i first Hi Hd) as (t & Ht & Hle).
      rewrite Hname, Hn in Ht. destruct (Hgate t Ht) as [_ Hwait].
      rewrite Hn in Hcd. specialize (Hwait cd (Hcd rule Hin eq_refl)). lia.
  - intros i j first second cd Hij Hi Hj. rewrite Hr in Hi, Hj. eauto.
Qed.

(** A check leaves in the tracker readings of the clock only. *)
Lemma fromClock_checkRule rule w :
  fromClock out w -> fromClock out (snd (checkRule out rule w)).
Proof.
  intros Hfc.
  destruct (checkRule_outcome out rule w)
    as [(Hl & _)|(request & Hr & Hd)].
  - intros ruleName t Ht. rewrite Hl in Ht. exact (Hfc _ _ Ht).
  - pose proof (checkRule_delivered out rule w request Hr Hd) as Hl.
    intros ruleName t Ht. rewrite Hl in Ht.
    destruct (decide (name rule = ruleName)) as [<-|E].
    + rewrite lookup_insert_eq in Ht. injection Ht as <-. eauto.
    + rewrite lookup_insert_ne in Ht by exact E. exact (Hfc _ _ Ht).
Qed.

Lemma checkNext_spacing rule w :
  cooldownsInRange out config ->
  rule ∈ getAlertRules config ->
  tracked out w /\ spaced out config w /\ fromClock out w ->
  tracked out (checkNext out w rule) /\
  spaced out config (checkNext out w rule) /\
  fromClock out (checkNext out w rule).
Proof.
  intros Hrange Hin (Htr & Hsp & Hfc). unfold checkNext.
  rewrite checkGuarded_eq. cbn [snd].
  assert (Htr' : tracked out (logChecked (name rule) w)) by exact Htr.
  assert (Hsp' : spaced out config (logChecked (name rule) w)) by exact Hsp.
  assert (Hfc' : fromClock out (logChecked (name rule) w)) by exact Hfc.
  assert (Hvalid : cooldownEndValid rule (logChecked (name rule) w)).
  { intros t cooldownMs Ht Hp. destruct (Hfc _ _ Ht) as [n ->].
    exact (Hrange n rule cooldownMs Hin Hp). }
  split; [apply tracked_checkRule; assumption|].
  split; [apply spaced_checkRule; assumption|].
  apply fromClock_checkRule. exact Hfc'.
Qed.

Lemma setRunning_spacing b w :
  tracked out w /\ spaced out config w /\ fromClock out w ->
  tracked out (setRunning b w) /\ spaced out config (setRunning b w) /\
  fromClock out (setRunning b w).
Proof. intros H. exact H. Qed.

Lemma spacing_step s e :
  cooldownsInRange out config ->
  fromConfig config s ->
  tracked out (world s) /\ spaced out config (world s) /\
  fromClock out (world s) ->
  fromConfig config (step out config s e) /\
  tracked out (world (step out config s e)) /\
  spaced out config (world (step out config s e)) /\
  fromClock out (world (step out config s e)).
Proof.
  intros Hrange Hb Hw. destruct e as [|i]; cbn [AlertEngine.step].
  - unfold AlertEngine.onTick. destruct (timer s); [|tauto].
    destruct (negb _); [|tauto]. unfold runChecks.
    destruct (length (getAlertRules config) =? 0)%nat; cbn [world batches].
    + split; [exact Hb|]. exact Hw.
    + split; [|exact Hw]. unfold fromConfig. cbn [batches].
      apply Forall_app. split; [exact Hb|]. constructor; [auto|constructor].
  - unfold AlertEngine.onResume.
    destruct (batches s !! i) as [[|rule rest]|] eqn:Hi; try tauto.
    pose proof (Forall_lookup_1 _ _ _ _ Hb Hi) as Hbatch. cbn beta in Hbatch.
    assert (Hin : rule ∈ getAlertRules config) by (apply Hbatch; left).
    pose proof (checkNext_spacing rule (world s) Hrange Hin Hw) as Hw'.
    unfold checkNext in Hw'.
    destruct (checkGuarded out rule _) as [r w']. cbn [snd] in Hw'.
    destruct rest as [|rule' rest]; cbn [world batches].
    + split; [|exact Hw']. unfold fromConfig. cbn [batches].
      apply Forall_delete. exact Hb.
    + split; [|exact Hw']. unfold fromConfig. cbn [batches].
      apply Forall_insert; [exact Hb|].
      intros r' Hr'. apply Hbatch. right. exact Hr'.
Qed.

Lemma spacing_run events : forall s,
  cooldownsInRange out config ->
  fromConfig config s ->
  tracked out (world s) /\ spaced out config (world s) /\
  fromClock out (world s) ->
  spaced out config (world (run out config s events)).
Proof.
  induction events as [|e events IH]; intros s Hrange Hb Hw; [apply Hw|].
  rewrite run_cons.
  destruct (spacing_step s e Hrange Hb Hw) as (Hb' & Hw').
  apply IH; assumption.
Qed.

Lemma spacing_started :
  fromConfig config (started config) /\
  tracked out (world (started config)) /\
  spaced out config (world (started config)) /\
  fromClock out (world (started config)).
Proof.
  assert (Hb : batches (started config) = []).
  { unfold started, start. destruct (alerting_enabled _); reflexivity. }
  assert (Hr : requests (world (started config)) = []).
  { unfold started, start. destruct (alerting_enabled _); reflexivity. }
  split; [unfold fromConfig; rewrite Hb; apply Forall_nil_2|].
  assert (Hl : lastAlertTimes (world (started config)) = ∅).
  { unfold started, start. destruct (alerting_enabled _); reflexivity. }
  split; [|split].
  - intros i request Hi. rewrite Hr, lookup_nil in Hi. discriminate.
  - intros i j first second cd _ Hi. rewrite Hr, lookup_nil in Hi.
    discriminate.
  - intros ruleName t. rewrite Hl, lookup_empty. discriminate.
Qed.

End WithConfig.
End Spacing.

(** ** The cooldown *)

Section Cooldown.
Import JS Exn Config Effects Update Database Webhook AlertEngine Spec.
Variable out : Outside.
Variable config : Config.

(** Within the range of [Date] a rule fires at most once per cooldown
    interval measured from its last successful dispatch.  While the tracker
    holds a last-fire time [t] for the rule, [t] plus the rule's cooldown
    (five minutes when none is given) is a time a [Date] can hold, and the
    clock reads less than that, [checkRule] does nothing but read the
    clock: no count query is issued, no request is sent, tracker and alert
    history stay as they are.  Whatever a call of [checkRule] does, the
    tracker and the alert history change only if the call sent a request
    that the endpoint answered with a 2xx status; a request that was
    refused or answered otherwise leaves both unchanged; and after a
    request that succeeded the tracker holds for the rule the clock reading
    taken after the dispatch.  As a consequence, with a clock that never
    runs backwards and whose readings stay, with the cooldown of any
    enabled rule added, within the range of [Date], in every run of the
    engine a request for an alert is stamped no sooner than the cooldown
    after any earlier delivered request for the same alert. *)
Theorem cooldown_gate_and_update (rule : AlertRule) (w : World) :
  (forall t cooldownMs,
     lastAlertTimes w !! name rule = Some t ->
     parseTimeWindow (orElse (cooldown rule) "5m") = inr cooldownMs ->
     validTime (t + cooldownMs) = true ->
     clock out (clockReads w) < t + cooldownMs ->
     checkRule out rule w = (inr tt, tickClock w)) /\
  (forall result w',
     checkRule out rule w = (result, w') ->
     (lastAlertTimes w' <> lastAlertTimes w \/
      alertHistory w' <> alertHistory w ->
      exists request,
        requests w' = requests w ++ [request] /\
        delivered (fetch out (length (requests w)) request) = true) /\
     (forall request,
        requests w' = requests w ++ [request] ->
        delivered (fetch out (length (requests w)) request) = false ->
        lastAlertTimes w' = lastAlertTimes w /\
        alertHistory w' = alertHistory w) /\
     (forall request,
        requests w' = requests w ++ [request] ->
        delivered (fetch out (length (requests w)) request) = true ->
        lastAlertTimes w' =
        <[name rule := clock out (pred (clockReads w'))]>
          (lastAlertTimes w))) /\
  (monotone out -> cooldownsInRange out config ->
   forall events,
     spaced out config (world (run out config (started config) events))).
Proof.
  split; [|split].
  - intros t cooldownMs Ht Hp Hv Hlt. rewrite checkRule_unfold.
    rewrite (isInCooldown_some _ _ _ _ _ Ht Hp).
    apply Z.ltb_lt in Hlt. rewrite Hv, Hlt. reflexivity.
  - intros result w' Hrun.
    pose proof (checkRule_outcome out rule w) as H.
    pose proof (checkRule_delivered out rule w) as Hpos.
    cbv zeta in H, Hpos. rewrite Hrun in H, Hpos. cbn [snd] in H, Hpos.
    split; [|split; [|exact Hpos]].
    + destruct H as [(Hl & Hh & _)|(request & Hr & Hd)]; [|eauto].
      intros [?|?]; contradiction.
    + destruct H as [(Hl & Hh & _)|(request & Hr & Hd)]; [auto|].
      intros request' Hr' Hd'.
      rewrite Hr in Hr'. apply app_inv_head in Hr'. injection Hr' as ->.
      congruence.
  - intros Hmono Hrange events.
    destruct (spacing_started out config) as (Hb & Hw).
    apply spacing_run; assumption.
Qed.

End Cooldown.

Section CooldownSample.
Import JS Exn Config Effects Update Database Webhook AlertEngine Spec.

Lemma cooldown_gate_and_update_sample :
  checkRule sampleOutside sampleRule firedWorld
  = (inr tt, tickClock firedWorld) /\
  (let w' := snd (checkRule refusingOutside sampleRule initialWorld) in
   lastAlertTimes w' = lastAlertTimes initialWorld /\
   alertHistory w' = alertHistory initialWorld).
Proof.
  split.
  - apply (proj1 (cooldown_gate_and_update sampleOutside sampleConfig
                    sampleRule firedWorld))
      with (t := 0) (cooldownMs := 300000).
    + vm_compute. reflexivity.
    + vm_compute. reflexivity.
    + vm_compute. reflexivity.
    + vm_compute. reflexivity.
  - destruct (proj1 (proj2 (cooldown_gate_and_update refusingOutside
                              sampleConfig sampleRule initialWorld))
                _ _ (surjective_pairing _))
      as (_ & Hrefused & _).
    eapply Hrefused; reflexivity.
Defined.

(** C1.  A cooldown beyond the range of [Date] does not hold the rule
    back.  The rule with a cooldown of two hundred million days passes the
    schema.  Its cooldown is 17280000000000000 milliseconds, so that the
    end of the cooldown is an Invalid Date and the comparison of the gate
    is false: with the last alert at time 0 and the clock at 0, inside the
    cooldown, a check of the rule issues the count query and sends a
    request.  In a run of the engine from its start the rule alerts at
    every tick: two ticks give two delivered requests, stamped 1000 and
    5000 milliseconds, and two rows of the alert history. *)
Theorem huge_cooldown_fires_again :
  AlertRuleSchema (fun _ => true) patientDefinition = Some patientRule /\
  parseTimeWindow "200000000d" = inr 17280000000000000 /\
  validTime (0 + 17280000000000000) = false /\
  lastAlertTimes firedWorld !! "errors" = Some 0 /\
  clock sampleOutside (clockReads firedWorld) < 0 + 17280000000000000 /\
  (let w' := snd (checkRule sampleOutside patientRule firedWorld) in
   length (countQueries w') = 1%nat /\ length (requests w') = 1%nat /\
   length (alertHistory w') = 1%nat) /\
  (let w' :=
     world (run sampleOutside patientConfig (started patientConfig)
              [Tick; Resume 0%nat; Tick; Resume 0%nat]) in
   map (fun request => pay_timestamp (req_body request)) (requests w')
   = [1000; 5000] /\
   map (fun request => alertName (req_body request)) (requests w')
   = ["errors"; "errors"] /\
   length (alertHistory w') = 2%nat).
Proof.
  repeat split; vm_compute; reflexivity.
Qed.

End CooldownSample.

(** * Further properties *)

(** ** Texts and their pieces *)

Section Pieces.
Import JS Server Wording Streams.

Lemma append_assoc (a b c : string) : (a +:+ b) +:+ c = a +:+ (b +:+ c).
Proof.
  induction a as [|x a IH]; [reflexivity|].
  rewrite !append_cons, IH. reflexivity.
Qed.

Lemma includes_append (a b : string) (c : ascii) :
  includes (a +:+ b) c = includes a c || includes b c.
Proof.
  induction a as [|x a IH]; [reflexivity|].
  rewrite append_cons. cbn [includes]. rewrite IH, orb_assoc. reflexivity.
Qed.

Lemma take_append (a b : string) : take (String.length a) (a +:+ b) = a.
Proof.
  induction a as [|x a IH]; [destruct b; reflexivity|].
  rewrite append_cons. cbn. rewrite IH. reflexivity.
Qed.

Lemma last_app {A} (l l' : list A) (d : A) :
  l' <> [] -> List.last (l ++ l') d = List.last l' d.
Proof.
  intros Hne. induction l as [|x l IH]; [reflexivity|].
  cbn [app List.last]. destruct (l ++ l') eqn:E; [|exact IH].
  apply app_eq_nil in E as [_ E]. contradiction.
Qed.

(** Two ways to cut one text: the shorter first part is a prefix of the
    longer. *)
Lemma append_inv (a b c d : string) :
  a +:+ b = c +:+ d -> (String.length c <= String.length a)%nat ->
  exists e, a = c +:+ e /\ d = e +:+ b.
Proof.
  revert a. induction c as [|x c IH]; intros a H Hlen.
  - exists a. rewrite !append_nil_l in *. auto.
  - destruct a as [|y a]; [cbn in Hlen; lia|].
    rewrite !append_cons in H. injection H as -> H.
    destruct (IH a H) as (e & -> & ->); [cbn in Hlen; lia|].
    exists e. rewrite append_cons. auto.
Qed.

Lemma splitLines_nonempty (s : string) : splitLines s <> [].
Proof. destruct (splitLines_cons s) as (h & t & ->). discriminate. Qed.

Lemma split_nonempty (s : string) (sep : ascii) : split s sep <> [].
Proof. destruct (split_cons s sep) as (h & t & ->). discriminate. Qed.

(** A text that is one line. *)
Lemma splitLines_single (s h : string) :
  splitLines s = [h] -> h = s /\ includes s LF = false.
Proof.
  intros H. destruct (includes s LF) eqn:E.
  - apply splitLines_includes in E. rewrite H in E. cbn in E. lia.
  - rewrite (splitLines_whole _ E) in H. injection H as <-. auto.
Qed.

(** The lines of a text that goes on: the complete lines stay, and the
    partial line is continued. *)
Lemma splitLines_app (p c : string) :
  splitLines (p +:+ c) =
  removelast (splitLines p)
  ++ splitLines (List.last (splitLines p) EmptyString +:+ c).
Proof.
  induction p as [|x|x d s IH1 IH2] using string_pair_ind.
  - reflexivity.
  - rewrite (splitLines_step x EmptyString).
    destruct (Ascii.eqb x LF) eqn:Ex.
    + rewrite append_cons, splitLines_step, Ex. reflexivity.
    + rewrite andb_false_r. reflexivity.
  - rewrite (splitLines_step x (String d s)).
    destruct (Ascii.eqb x LF) eqn:Ex.
    { rewrite append_cons, splitLines_step, Ex, IH2.
      destruct (splitLines_cons (String d s)) as (h & t & E). rewrite E.
      reflexivity. }
    destruct (Ascii.eqb x CR && startsWith (String d s) (String LF EmptyString))
      eqn:Ecr.
    { rewrite !append_cons, splitLines_step, Ex.
      cbn [startsWith] in Ecr |- *. rewrite Ecr. cbn [drop]. rewrite IH1.
      destruct (splitLines_cons s) as (h & t & E). rewrite E. reflexivity. }
    destruct (splitLines_cons (String d s)) as (h & t & E). rewrite E in *.
    destruct t as [|h2 t].
    + apply splitLines_single in E as [-> _]. reflexivity.
    + rewrite !append_cons, splitLines_step, Ex.
      cbn [startsWith] in Ecr |- *. rewrite Ecr.
      rewrite <- append_cons, IH2. reflexivity.
Qed.

Lemma splitLines_keeps (s : string) (x : ascii) :
  includes s x = false ->
  Forall (fun piece => includes piece x = false) (splitLines s).
Proof.
  induction s as [|c|c d s IH1 IH2] using string_pair_ind; intros H.
  - repeat constructor.
  - cbn. destruct (Ascii.eqb c LF); [repeat constructor|].
    destruct (Ascii.eqb c CR); repeat constructor; exact H.
  - pose proof H as H'. cbn [includes] in H'.
    apply orb_false_iff in H' as [Hc Hd].
    pose proof Hd as Hs. apply orb_false_iff in Hs as [_ Hs].
    rewrite splitLines_step.
    destruct (Ascii.eqb c LF).
    { constructor; [reflexivity|]. apply IH2. exact Hd. }
    destruct (Ascii.eqb c CR && _).
    { constructor; [reflexivity|]. apply IH1. exact Hs. }
    specialize (IH2 Hd).
    destruct (splitLines_cons (String d s)) as (h & t & E). rewrite E in *.
    inversion IH2; subst. constructor; [|assumption].
    cbn. rewrite Hc. assumption.
Qed.

Lemma split_whole (s : string) (sep : ascii) :
  includes s sep = false -> split s sep = [s].
Proof.
  induction s as [|c s IH]; [reflexivity|].
  cbn [includes split]. intros H. apply orb_false_iff in H as [Hc Hs].
  rewrite Hc, (IH Hs). reflexivity.
Qed.

Lemma split_single (s h : string) (sep : ascii) :
  split s sep = [h] -> h = s /\ includes s sep = false.
Proof.
  intros H. destruct (includes s sep) eqn:E.
  - apply split_includes in E. rewrite H in E. cbn in E. lia.
  - rewrite (split_whole _ _ E) in H. injection H as <-. auto.
Qed.

Lemma split_app (p c : string) (sep : ascii) :
  split (p +:+ c) sep =
  removelast (split p sep)
  ++ split (List.last (split p sep) EmptyString +:+ c) sep.
Proof.
  induction p as [|x p IH]; [reflexivity|].
  rewrite append_cons. cbn [split]. rewrite IH.
  destruct (split_cons p sep) as (h & t & E). rewrite E in *.
  destruct (Ascii.eqb x sep) eqn:Ex.
  - reflexivity.
  - destruct t as [|h2 t].
    + cbn [removelast List.last app]. rewrite append_cons. cbn [split].
      rewrite Ex. reflexivity.
    + reflexivity.
Qed.

Lemma split_keeps (s : string) (sep x : ascii) :
  includes s x = false ->
  Forall (fun piece => includes piece x = false) (split s sep).
Proof.
  induction s as [|c s IH]; intros H; [repeat constructor|].
  cbn [includes] in H. apply orb_false_iff in H as [Hc Hs].
  specialize (IH Hs). cbn [split].
  destruct (split_cons s sep) as (h & t & E). rewrite E in *.
  destruct (Ascii.eqb c sep); [constructor; [reflexivity|exact IH]|].
  inversion IH; subst. constructor; [|assumption].
  cbn. rewrite Hc. assumption.
Qed.

Lemma split_pieces (s : string) (sep : ascii) :
  Forall (fun piece => includes piece sep = false) (split s sep).
Proof.
  induction s as [|c s IH]; [repeat constructor|].
  cbn [split]. destruct (split_cons s sep) as (h & t & E). rewrite E in *.
  destruct (Ascii.eqb c sep) eqn:Ec; [constructor; [reflexivity|exact IH]|].
  inversion IH; subst. constructor; [|assumption].
  cbn. rewrite Ec. assumption.
Qed.

Lemma isDigit_not_LF (c : ascii) :
  isDigit c = true -> Ascii.eqb c LF = false /\ Ascii.eqb c CR = false.
Proof.
  destruct c as [[] [] [] [] [] [] [] []]; cbn; intros H;
    first [discriminate | split; reflexivity].
Qed.

(** A text starts as its first line does. *)
Lemma startsWithDigit_lines (s : string) :
  Forall (fun line => startsWithDigit line = false) (splitLines s) ->
  startsWithDigit s = false.
Proof.
  destruct s as [|c s]; [reflexivity|]. cbn [startsWithDigit].
  destruct (isDigit c) eqn:Ec; [|reflexivity].
  destruct (isDigit_not_LF _ Ec) as [E1 E2].
  rewrite splitLines_step, E1, E2. cbn [andb].
  destruct (splitLines_cons s) as (h & t & ->).
  intros H. inversion H; subst. cbn in *. congruence.
Qed.

Lemma startsWithDigit_segments (s : string) (sep : ascii) :
  isDigit sep = false ->
  Forall (fun piece => startsWithDigit piece = false) (split s sep) ->
  startsWithDigit s = false.
Proof.
  intros Hsep. destruct s as [|c s]; [reflexivity|]. cbn [startsWithDigit split].
  destruct (isDigit c) eqn:Ec; [|reflexivity].
  destruct (Ascii.eqb_spec c sep) as [->|_]; [congruence|].
  destruct (split_cons s sep) as (h & t & ->).
  intros H. inversion H; subst. cbn in *. congruence.
Qed.

Lemma startsWithDigit_prefix (a b : string) :
  startsWithDigit (a +:+ b) = false -> startsWithDigit a = false.
Proof. destruct a; [reflexivity|]. rewrite append_cons. auto. Qed.

Lemma matchLengthPrefix_nondigit (s : string) :
  startsWithDigit s = false -> matchLengthPrefix s = None.
Proof.
  destruct s as [|c s]; [reflexivity|]. cbn [startsWithDigit].
  intros H. unfold matchLengthPrefix. cbn [spanDigits]. rewrite H.
  reflexivity.
Qed.

Lemma emitTrimmed_app (a b : list string) :
  emitTrimmed (a ++ b) = emitTrimmed a ++ emitTrimmed b.
Proof. unfold emitTrimmed. rewrite map_app, List.filter_app. reflexivity. Qed.

End Pieces.

(** ** Chunks of bytes that hold whole characters *)

Section Decoded.
Import JS Server Wording Lifecycle Streams.

Lemma receiveAll_decoded (socket : Socket) (chunks : list (list Byte.byte))
    (texts : list string) :
  decoded chunks texts ->
  forall buffers : gmap Socket string,
  receiveAll buffers socket chunks = Some (deliver buffers socket texts).
Proof.
  induction 1 as [|bytes text chunks texts Hd _ IH]; intros buffers;
    [reflexivity|].
  cbn [receiveAll deliver]. unfold receive. rewrite Hd.
  cbn [fmap option_fmap option_map].
  destruct (data buffers socket text) as [first buffers'].
  rewrite IH. destruct (deliver buffers' socket texts). reflexivity.
Qed.

End Decoded.

(** ** Line-delimited streams under any chunking *)

Section LineStreams.
Import JS Server Wording Lifecycle Streams.

(** Decoding a text without NUL none of whose lines starts with a digit:
    the complete lines are emitted, the partial line is kept. *)
Lemma decode_lines (text : string) :
  includes text NUL = false ->
  Forall (fun line => startsWithDigit line = false) (splitLines text) ->
  decode text =
  (emitTrimmed (removelast (splitLines text)),
   List.last (splitLines text) EmptyString).
Proof.
  intros Hn Hd. rewrite decode_unfold.
  destruct (0 <? String.length text)%nat eqn:Hlen.
  2:{ destruct text; [reflexivity|discriminate]. }
  unfold iterate.
  rewrite (matchLengthPrefix_nondigit _ (startsWithDigit_lines _ Hd)).
  destruct (1 <? length (splitLines text))%nat eqn:Hl.
  - assert (Hw : decode (List.last (splitLines text) EmptyString)
                 = ([], List.last (splitLines text) EmptyString)).
    { apply decode_waits.
      - apply matchLengthPrefix_nondigit.
        apply (Forall_last (fun line => startsWithDigit line = false));
          [exact Hd|reflexivity].
      - apply (Forall_last (fun piece => includes piece LF = false));
          [apply splitLines_pieces|reflexivity].
      - apply (Forall_last (fun piece => includes piece NUL = false));
          [apply splitLines_keeps; exact Hn|reflexivity]. }
    rewrite Hw. cbn [fst snd]. rewrite app_nil_r. reflexivity.
  - apply Nat.ltb_ge in Hl.
    destruct (splitLines_cons text) as (h & t & E). rewrite E in *.
    destruct t; [|cbn in Hl; lia].
    apply splitLines_single in E as [-> _]. rewrite Hn. reflexivity.
Qed.

Lemma deliver_lines (socket : Socket) (chunks : list string) :
  forall (buffers : gmap Socket string) (b : string),
  buffers !! socket = Some b ->
  includes b LF = false ->
  includes (b +:+ concatChunks chunks) NUL = false ->
  Forall (fun line => startsWithDigit line = false)
         (splitLines (b +:+ concatChunks chunks)) ->
  deliver buffers socket chunks =
  (emitTrimmed (removelast (splitLines (b +:+ concatChunks chunks))),
   <[socket := List.last (splitLines (b +:+ concatChunks chunks)) EmptyString]>
     buffers).
Proof.
  induction chunks as [|c rest IH]; intros buffers b Hb Hlf Hn Hd.
  - cbn [concatChunks deliver]. rewrite append_nil_r, (splitLines_whole _ Hlf).
    cbn. rewrite insert_id by exact Hb. reflexivity.
  - cbn [concatChunks deliver] in *. rewrite <- append_assoc in *.
    set (text := b +:+ c) in *. set (R := concatChunks rest) in *.
    set (b' := List.last (splitLines text) EmptyString).
    rewrite splitLines_app in Hd. fold b' in Hd.
    apply Forall_app in Hd as [Hd1 Hd2].
    rewrite includes_append in Hn. apply orb_false_iff in Hn as [Hn1 Hn2].
    assert (Hb'd : startsWithDigit b' = false).
    { apply (startsWithDigit_prefix b' R), startsWithDigit_lines, Hd2. }
    assert (Htext : Forall (fun line => startsWithDigit line = false)
                           (splitLines text)).
    { rewrite (app_removelast_last EmptyString (splitLines_nonempty text)).
      apply Forall_app. split; [exact Hd1|]. constructor; [exact Hb'd|].
      constructor. }
    assert (Hb'n : includes b' NUL = false).
    { apply (Forall_last (fun piece => includes piece NUL = false));
        [apply splitLines_keeps; exact Hn1|reflexivity]. }
    assert (Hb'l : includes b' LF = false).
    { apply (Forall_last (fun piece => includes piece LF = false));
        [apply splitLines_pieces|reflexivity]. }
    rewrite data_eq. cbv zeta. rewrite Hb.
    change (default EmptyString (Some b)) with b. fold text.
    rewrite (decode_lines text Hn1 Htext). cbn [fst snd]. fold b'.
    rewrite (IH (<[socket := b']> buffers) b');
      [|apply lookup_insert_eq|exact Hb'l
       |rewrite includes_append, Hb'n, Hn2; reflexivity|exact Hd2].
    rewrite insert_insert_eq, (splitLines_app text R). fold b'.
    rewrite removelast_app, last_app by apply splitLines_nonempty.
    rewrite emitTrimmed_app. reflexivity.
Qed.

(** X1.  A stream of lines arrives in chunks of bytes cut between
    characters, its characters below U+0100, so that each chunk decodes on
    its own.  When the stream holds no NUL and none of its lines starts
    with a decimal digit, the [data] handler emits, over all the chunks,
    exactly the complete lines of the stream, in order, each trimmed, the
    blank ones left out; and the buffer of the connection ends as the
    unterminated rest of the stream.  Where between characters the stream
    was cut makes no difference. *)
Theorem lines_any_chunking (buffers : gmap Socket string) (socket : Socket)
    (chunks : list (list Byte.byte)) (texts : list string) :
  decoded chunks texts ->
  let stream := concatChunks texts in
  includes stream NUL = false ->
  Forall (fun line => startsWithDigit line = false) (splitLines stream) ->
  receiveAll (open buffers socket) socket chunks =
  Some (emitTrimmed (removelast (splitLines stream)),
        <[socket := List.last (splitLines stream) EmptyString]> buffers).
Proof.
  intros Hdec stream Hn Hd. rewrite (receiveAll_decoded _ _ _ Hdec).
  unfold open.
  rewrite (deliver_lines socket texts _ EmptyString);
    [|apply lookup_insert_eq|reflexivity|exact Hn|exact Hd].
  rewrite append_nil_l, insert_insert_eq. reflexivity.
Qed.

Lemma lines_any_chunking_witness :
  receiveAll (open ∅ 7%nat) 7%nat
    [bytesOf "<13>caf" ++ [xc3; xa9]; bytesOf (String CR EmptyString);
     bytesOf (String LF "<14>b" +:+ String LF "<1")]
  = Some (["<13>caf" +:+ String "233" EmptyString; "<14>b"],
          <[7%nat := "<1"]> ∅).
Proof.
  apply (lines_any_chunking ∅ 7%nat
           [bytesOf "<13>caf" ++ [xc3; xa9]; bytesOf (String CR EmptyString);
            bytesOf (String LF "<14>b" +:+ String LF "<1")]
           ["<13>caf" +:+ String "233" EmptyString; String CR EmptyString;
            String LF "<14>b" +:+ String LF "<1"]).
  - repeat constructor.
  - reflexivity.
  - repeat constructor.
Defined.

(** X2.  A stream of lines without NUL, none of them starting with a
    decimal digit, arrives in chunks of bytes cut between characters, its
    characters below U+0100, and the connection is closed.  Then every
    line of the stream has been handed on, the unterminated last one
    included: the messages of the whole session are the lines of the
    stream, trimmed, without the blank ones; and the buffer of the
    connection is gone. *)
Theorem close_flushes_last_line (buffers : gmap Socket string)
    (socket : Socket) (chunks : list (list Byte.byte))
    (texts : list string) :
  decoded chunks texts ->
  let stream := concatChunks texts in
  includes stream NUL = false ->
  Forall (fun line => startsWithDigit line = false) (splitLines stream) ->
  session buffers socket chunks =
  Some (emitTrimmed (splitLines stream), delete socket buffers).
Proof.
  intros Hdec stream Hn Hd. unfold session.
  rewrite (receiveAll_decoded _ _ _ Hdec). unfold open.
  rewrite (deliver_lines socket texts _ EmptyString);
    [|apply lookup_insert_eq|reflexivity|exact Hn|exact Hd].
  rewrite append_nil_l. fold stream. unfold close.
  rewrite lookup_insert_eq, !delete_insert_eq.
  assert (E : emitTrimmed (splitLines stream) =
              emitTrimmed (removelast (splitLines stream))
              ++ emitTrimmed [List.last (splitLines stream) EmptyString]).
  { rewrite <- emitTrimmed_app, <- app_removelast_last
      by apply splitLines_nonempty.
    reflexivity. }
  rewrite E.
  assert (E1 : forall x, emitTrimmed [x]
                         = if truthy (trim x) then [trim x] else [])
    by reflexivity.
  rewrite E1. destruct (truthy (trim _)); reflexivity.
Qed.

Lemma close_flushes_last_line_witness :
  session ∅ 7%nat [bytesOf ("<13>a" +:+ String LF "<14"); bytesOf ">b "]
  = Some (["<13>a"; "<14>b"], ∅).
Proof.
  rewrite (close_flushes_last_line ∅ 7%nat
             [bytesOf ("<13>a" +:+ String LF "<14"); bytesOf ">b "]
             ["<13>a" +:+ String LF "<14"; ">b "]).
  - vm_compute. reflexivity.
  - repeat constructor.
  - reflexivity.
  - repeat constructor.
Defined.

(** X3.  A stream of lines without NUL, none of them starting with a
    decimal digit, arrives in chunks of bytes cut between characters, its
    characters below U+0100, and the connection ends with a socket error
    instead of a close.  Then the unterminated last line of the stream is
    lost: the messages of the session are the complete lines only,
    trimmed, without the blank ones; and the buffer of the connection is
    gone. *)
Theorem error_drops_last_line (buffers : gmap Socket string)
    (socket : Socket) (chunks : list (list Byte.byte))
    (texts : list string) :
  decoded chunks texts ->
  let stream := concatChunks texts in
  includes stream NUL = false ->
  Forall (fun line => startsWithDigit line = false) (splitLines stream) ->
  failedSession buffers socket chunks =
  Some (emitTrimmed (removelast (splitLines stream)), delete socket buffers).
Proof.
  intros Hdec stream Hn Hd. unfold failedSession.
  rewrite (receiveAll_decoded _ _ _ Hdec). unfold open.
  rewrite (deliver_lines socket texts _ EmptyString);
    [|apply lookup_insert_eq|reflexivity|exact Hn|exact Hd].
  rewrite append_nil_l. fold stream. unfold error.
  rewrite !delete_insert_eq. reflexivity.
Qed.

Lemma error_drops_last_line_witness :
  failedSession ∅ 7%nat
    [bytesOf ("<13>a" +:+ String LF "<14"); bytesOf ">b "]
  = Some (["<13>a"], ∅).
Proof.
  rewrite (error_drops_last_line ∅ 7%nat
             [bytesOf ("<13>a" +:+ String LF "<14"); bytesOf ">b "]
             ["<13>a" +:+ String LF "<14"; ">b "]).
  - vm_compute. reflexivity.
  - repeat constructor.
  - reflexivity.
  - repeat constructor.
Defined.

End LineStreams.

(** ** Octet-counted streams under any chunking *)

Section FrameStreams.
Import JS Server Wording Lifecycle Streams.

Lemma allDigits_append (a b : string) :
  allDigits (a +:+ b) = allDigits a && allDigits b.
Proof.
  induction a as [|x a IH]; [reflexivity|].
  rewrite append_cons. cbn [allDigits]. rewrite IH, andb_assoc. reflexivity.
Qed.

Lemma allDigits_excludes (s : string) (x : ascii) :
  allDigits s = true -> isDigit x = false -> includes s x = false.
Proof.
  intros Hs Hx. induction s as [|c s IH]; [reflexivity|].
  cbn in Hs. apply andb_true_iff in Hs as [Hc Hs]. cbn [includes].
  rewrite (IH Hs), orb_false_r.
  destruct (Ascii.eqb_spec c x) as [->|_]; [congruence|reflexivity].
Qed.

(** A proper prefix of a frame is kept whole. *)
Lemma decode_partial_frame (frame : string * string) (t e : string) :
  wellFramed frame -> frameText frame = t +:+ e -> e <> EmptyString ->
  decode t = ([], t).
Proof.
  destruct frame as [digits payload]. unfold wellFramed, frameText.
  cbn [fst snd]. intros (Hne & Hall & Hval) Heq He.
  destruct (le_lt_dec (String.length t) (String.length digits)) as [Hle|Hlt].
  - destruct (append_inv _ _ _ _ Heq Hle) as (e1 & Hd & _).
    rewrite Hd, allDigits_append in Hall.
    apply andb_true_iff in Hall as [Ht _].
    apply decode_waits.
    + unfold matchLengthPrefix. rewrite (spanDigits_digits _ Ht).
      destruct t; reflexivity.
    + apply allDigits_excludes; [exact Ht|reflexivity].
    + apply allDigits_excludes; [exact Ht|reflexivity].
  - symmetry in Heq.
    destruct (append_inv _ _ _ _ Heq ltac:(lia)) as (e2 & -> & Hp).
    rewrite length_append in Hlt.
    destruct e2 as [|sp p]; [cbn in Hlt; lia|].
    rewrite append_cons in Hp. injection Hp as <- ->.
    apply (decode_frame digits " " p Hne Hall eq_refl).
    rewrite Hval, Nat2Z.id, length_append.
    destruct e; [contradiction|cbn; lia].
Qed.

(** Decoding the first part of a stream of frames: the frames that are
    complete are emitted, the rest is kept. *)
Lemma decode_frames (frames : list (string * string)) : forall t u,
  Forall wellFramed frames -> framesText frames = t +:+ u ->
  exists done todo r,
    frames = done ++ todo /\ decode t = (map snd done, r) /\
    framesText todo = r +:+ u /\ partialOf r todo.
Proof.
  induction frames as [|frame frames IH]; intros t u Hwf Heq.
  - exists [], [], EmptyString. cbn in Heq.
    destruct t; [|discriminate]. rewrite append_nil_l in Heq. subst u.
    repeat split; reflexivity.
  - inversion Hwf as [|? ? Hframe Hrest]; subst. cbn [framesText] in Heq.
    destruct (le_lt_dec (String.length (frameText frame)) (String.length t))
      as [Hle|Hlt].
    + symmetry in Heq.
      destruct (append_inv _ _ _ _ Heq Hle) as (e & -> & Hu).
      destruct (IH e u Hrest Hu) as (done & todo & r & -> & Hdec & Htodo & Hp).
      exists (frame :: done), todo, r. split; [reflexivity|].
      split; [|auto].
      destruct frame as [digits payload].
      destruct Hframe as (Hne & Hall & Hval). cbn [fst snd] in *.
      unfold frameText. cbn [fst snd]. rewrite append_assoc, append_cons.
      destruct (decode_frame digits " " (payload +:+ e) Hne Hall eq_refl)
        as [Hfull _].
      rewrite Hval, Nat2Z.id in Hfull.
      rewrite Hfull by (rewrite length_append; lia).
      rewrite take_append, drop_append, Hdec. reflexivity.
    + destruct (append_inv _ _ _ _ Heq ltac:(lia)) as (e & Hf & ->).
      exists [], (frame :: frames), t. split; [reflexivity|].
      split; [|split; [|exact Hlt]].
      * apply (decode_partial_frame frame t e Hframe Hf).
        intros ->. rewrite Hf, append_nil_r in Hlt. lia.
      * cbn [framesText]. rewrite Hf, append_assoc. reflexivity.
Qed.

Lemma deliver_frames (socket : Socket) (chunks : list string) :
  forall (buffers : gmap Socket string) (b : string)
         (frames : list (string * string)),
  buffers !! socket = Some b ->
  Forall wellFramed frames -> partialOf b frames ->
  b +:+ concatChunks chunks = framesText frames ->
  deliver buffers socket chunks =
  (map snd frames, <[socket := EmptyString]> buffers).
Proof.
  induction chunks as [|c rest IH]; intros buffers b frames Hb Hwf Hp Heq.
  - cbn [concatChunks deliver] in *. rewrite append_nil_r in Heq.
    destruct frames as [|frame frames].
    + cbn in Hp. subst b. rewrite insert_id by exact Hb. reflexivity.
    + cbn in Hp, Heq. rewrite Heq, length_append in Hp. lia.
  - cbn [concatChunks deliver] in *. rewrite <- append_assoc in Heq.
    symmetry in Heq.
    destruct (decode_frames frames (b +:+ c) _ Hwf Heq)
      as (done & todo & r & -> & Hdec & Htodo & Hr).
    apply Forall_app in Hwf as [_ Hwf].
    rewrite data_eq. cbv zeta. rewrite Hb.
    change (default EmptyString (Some b)) with b. rewrite Hdec.
    cbn [fst snd].
    rewrite (IH (<[socket := r]> buffers) r todo);
      [|apply lookup_insert_eq|exact Hwf|exact Hr|symmetry; exact Htodo].
    rewrite insert_insert_eq, map_app. reflexivity.
Qed.

(** X4.  A stream of octet-counted frames, each a run of decimal digits
    that gives the number of characters of the payload, a space, and the
    payload, arrives in chunks of bytes cut between characters, within a
    length prefix or within a payload; its characters lie below U+0100,
    so that each chunk decodes on its own.  The [data] handler emits
    exactly the payloads, in order and unchanged, whatever they contain,
    and the buffer of the connection ends empty. *)
Theorem frames_any_chunking (buffers : gmap Socket string) (socket : Socket)
    (chunks : list (list Byte.byte)) (texts : list string)
    (frames : list (string * string)) :
  decoded chunks texts ->
  Forall wellFramed frames ->
  concatChunks texts = framesText frames ->
  receiveAll (open buffers socket) socket chunks =
  Some (map snd frames, <[socket := EmptyString]> buffers).
Proof.
  intros Hdec Hwf Heq. rewrite (receiveAll_decoded _ _ _ Hdec). unfold open.
  rewrite (deliver_frames socket texts _ EmptyString frames);
    [|apply lookup_insert_eq|exact Hwf| |rewrite append_nil_l; exact Heq].
  - rewrite insert_insert_eq. reflexivity.
  - destruct frames as [|[digits payload] frames]; [reflexivity|].
    cbn. unfold frameText. rewrite length_append. cbn. lia.
Qed.

Lemma frames_any_chunking_witness :
  receiveAll (open ∅ 7%nat) 7%nat
    [bytesOf "1"; bytesOf ("2 hello" +:+ String LF "wor"); bytesOf "ld!3";
     bytesOf " "; bytesOf "<1" ++ [xc3; xa9]]
  = Some (["hello" +:+ String LF "world!"; "<1" +:+ String "233" EmptyString],
          <[7%nat := EmptyString]> ∅).
Proof.
  apply (frames_any_chunking ∅ 7%nat
           [bytesOf "1"; bytesOf ("2 hello" +:+ String LF "wor");
            bytesOf "ld!3"; bytesOf " "; bytesOf "<1" ++ [xc3; xa9]]
           ["1"; "2 hello" +:+ String LF "wor"; "ld!3"; " ";
            "<1" +:+ String "233" EmptyString]
           [("12", "hello" +:+ String LF "world!");
            ("3", "<1" +:+ String "233" EmptyString)]).
  - repeat constructor.
  - repeat constructor; discriminate.
  - reflexivity.
Defined.

End FrameStreams.

(** ** NUL-terminated streams under any chunking *)

Section NulStreams.
Import JS Server Wording Lifecycle Streams.

Lemma decode_segments (text : string) :
  includes text LF = false ->
  Forall (fun piece => startsWithDigit piece = false) (split text NUL) ->
  decode text =
  (emitTrimmed (removelast (split text NUL)),
   List.last (split text NUL) EmptyString).
Proof.
  intros Hl Hd. rewrite decode_unfold.
  destruct (0 <? String.length text)%nat eqn:Hlen.
  2:{ destruct text; [reflexivity|discriminate]. }
  unfold iterate.
  rewrite (matchLengthPrefix_nondigit _
             (startsWithDigit_segments _ NUL eq_refl Hd)).
  rewrite (splitLines_whole _ Hl). cbn [length Nat.ltb Nat.leb].
  destruct (includes text NUL) eqn:Hn.
  - assert (Hw : decode (List.last (split text NUL) EmptyString)
                 = ([], List.last (split text NUL) EmptyString)).
    { apply decode_waits.
      - apply matchLengthPrefix_nondigit.
        apply (Forall_last (fun piece => startsWithDigit piece = false));
          [exact Hd|reflexivity].
      - apply (Forall_last (fun piece => includes piece LF = false));
          [apply split_keeps; exact Hl|reflexivity].
      - apply (Forall_last (fun piece => includes piece NUL = false));
          [apply split_pieces|reflexivity]. }
    rewrite Hw. cbn [fst snd]. rewrite app_nil_r. reflexivity.
  - rewrite (split_whole _ _ Hn). reflexivity.
Qed.

Lemma deliver_segments (socket : Socket) (chunks : list string) :
  forall (buffers : gmap Socket string) (b : string),
  buffers !! socket = Some b ->
  includes b NUL = false ->
  includes (b +:+ concatChunks chunks) LF = false ->
  Forall (fun piece => startsWithDigit piece = false)
         (split (b +:+ concatChunks chunks) NUL) ->
  deliver buffers socket chunks =
  (emitTrimmed (removelast (split (b +:+ concatChunks chunks) NUL)),
   <[socket := List.last (split (b +:+ concatChunks chunks) NUL) EmptyString]>
     buffers).
Proof.
  induction chunks as [|c rest IH]; intros buffers b Hb Hnul Hl Hd.
  - cbn [concatChunks deliver]. rewrite append_nil_r, (split_whole _ _ Hnul).
    cbn. rewrite insert_id by exact Hb. reflexivity.
  - cbn [concatChunks deliver] in *. rewrite <- append_assoc in *.
    set (text := b +:+ c) in *. set (R := concatChunks rest) in *.
    set (b' := List.last (split text NUL) EmptyString).
    rewrite split_app in Hd. fold b' in Hd.
    apply Forall_app in Hd as [Hd1 Hd2].
    rewrite includes_append in Hl. apply orb_false_iff in Hl as [Hl1 Hl2].
    assert (Hb'd : startsWithDigit b' = false).
    { apply (startsWithDigit_prefix b' R).
      apply (startsWithDigit_segments _ NUL eq_refl Hd2). }
    assert (Htext : Forall (fun piece => startsWithDigit piece = false)
                           (split text NUL)).
    { rewrite (app_removelast_last EmptyString (split_nonempty text NUL)).
      apply Forall_app. split; [exact Hd1|]. constructor; [exact Hb'd|].
      constructor. }
    assert (Hb'n : includes b' NUL = false).
    { apply (Forall_last (fun piece => includes piece NUL = false));
        [apply split_pieces|reflexivity]. }
    assert (Hb'l : includes b' LF = false).
    { apply (Forall_last (fun piece => includes piece LF = false));
        [apply split_keeps; exact Hl1|reflexivity]. }
    rewrite data_eq. cbv zeta. rewrite Hb.
    change (default EmptyString (Some b)) with b. fold text.
    rewrite (decode_segments text Hl1 Htext). cbn [fst snd]. fold b'.
    rewrite (IH (<[socket := b']> buffers) b');
      [|apply lookup_insert_eq|exact Hb'n
       |rewrite includes_append, Hb'l, Hl2; reflexivity|exact Hd2].
    rewrite insert_insert_eq, (split_app text R). fold b'.
    rewrite removelast_app, last_app by apply split_nonempty.
    rewrite emitTrimmed_app. reflexivity.
Qed.

(** X5.  A stream of NUL-terminated messages arrives in chunks of bytes
    cut between characters, its characters below U+0100, so that each
    chunk decodes on its own.  When the stream holds no line feed and none
    of its segments starts with a decimal digit, the [data] handler emits
    exactly the terminated segments, in order, each trimmed, the blank
    ones left out; the buffer of the connection ends as the unterminated
    rest. *)
Theorem segments_any_chunking (buffers : gmap Socket string)
    (socket : Socket) (chunks : list (list Byte.byte))
    (texts : list string) :
  decoded chunks texts ->
  let stream := concatChunks texts in
  includes stream LF = false ->
  Forall (fun piece => startsWithDigit piece = false) (split stream NUL) ->
  receiveAll (open buffers socket) socket chunks =
  Some (emitTrimmed (removelast (split stream NUL)),
        <[socket := List.last (split stream NUL) EmptyString]> buffers).
Proof.
  intros Hdec stream Hl Hd. rewrite (receiveAll_decoded _ _ _ Hdec).
  unfold open.
  rewrite (deliver_segments socket texts _ EmptyString);
    [|apply lookup_insert_eq|reflexivity|exact Hl|exact Hd].
  rewrite append_nil_l, insert_insert_eq. reflexivity.
Qed.

Lemma segments_any_chunking_witness :
  receiveAll (open ∅ 7%nat) 7%nat
    [bytesOf "<13>a b"; bytesOf (String NUL " <14");
     bytesOf (">c" +:+ String NUL "<1")]
  = Some (["<13>a b"; "<14>c"], <[7%nat := "<1"]> ∅).
Proof.
  apply (segments_any_chunking ∅ 7%nat
           [bytesOf "<13>a b"; bytesOf (String NUL " <14");
            bytesOf (">c" +:+ String NUL "<1")]
           ["<13>a b"; String NUL " <14"; ">c" +:+ String NUL "<1"]).
  - repeat constructor.
  - reflexivity.
  - repeat constructor.
Defined.

End NulStreams.

(** ** What the handler keeps, and connections side by side *)

Section Buffers.
Import JS Server Wording Lifecycle Streams.

(** What decoding keeps holds nothing more to emit. *)
Lemma decode_settled (n : nat) : forall text,
  (String.length text <= n)%nat ->
  decode (snd (decode text)) = ([], snd (decode text)).
Proof.
  induction n as [|n IH]; intros text Hlen.
  - destruct text; [reflexivity|cbn in Hlen; lia].
  - rewrite (decode_unfold text).
    destruct (0 <? String.length text)%nat eqn:Hpos.
    2:{ destruct text; [reflexivity|discriminate]. }
    destruct (iterate text) as [emitted remaining|] eqn:Hi.
    + cbn [snd]. apply IH. apply iterate_shrinks in Hi. lia.
    + cbn [snd]. rewrite decode_unfold, Hpos, Hi. reflexivity.
Qed.

(** X6.  What the [data] handler leaves in the buffer of a connection
    holds no complete message: whatever the buffer was and whatever
    arrived, an empty chunk that arrives next emits nothing and leaves the
    buffers as they are. *)
Theorem retained_buffer_is_settled (buffers : gmap Socket string)
    (socket : Socket) (chunk : string) :
  let buffers' := snd (data buffers socket chunk) in
  data buffers' socket EmptyString = ([], buffers').
Proof.
  cbv zeta. rewrite !data_eq. cbv zeta. cbn [snd].
  rewrite lookup_insert_eq.
  change (default EmptyString (Some ?x)) with x.
  rewrite append_nil_r.
  rewrite (decode_settled _ _ (Nat.le_refl _)). cbn [fst snd].
  rewrite insert_insert_eq. reflexivity.
Qed.

Lemma data_other (buffers : gmap Socket string) (socket other : Socket)
    (chunk : string) :
  other <> socket ->
  snd (data buffers other chunk) !! socket = buffers !! socket.
Proof.
  intros Hne. rewrite data_eq. cbn [snd]. apply lookup_insert_ne. exact Hne.
Qed.

Lemma data_same (b1 b2 : gmap Socket string) (socket : Socket)
    (chunk : string) :
  b1 !! socket = b2 !! socket ->
  fst (data b1 socket chunk) = fst (data b2 socket chunk) /\
  snd (data b1 socket chunk) !! socket = snd (data b2 socket chunk) !! socket.
Proof.
  intros H. rewrite !data_eq. cbv zeta. cbn [fst snd]. rewrite H.
  rewrite !lookup_insert_eq. auto.
Qed.

Lemma deliver_same (socket : Socket) (chunks : list string) :
  forall b1 b2 : gmap Socket string,
  b1 !! socket = b2 !! socket ->
  fst (deliver b1 socket chunks) = fst (deliver b2 socket chunks) /\
  snd (deliver b1 socket chunks) !! socket
  = snd (deliver b2 socket chunks) !! socket.
Proof.
  induction chunks as [|c rest IH]; intros b1 b2 H; [cbn; auto|].
  cbn [deliver]. destruct (data_same b1 b2 socket c H) as [Hm Hb].
  destruct (data b1 socket c) as [m1 b1'], (data b2 socket c) as [m2 b2'].
  cbn [fst snd] in Hm, Hb. destruct (IH b1' b2' Hb) as [Hm' Hb'].
  destruct (deliver b1' socket rest), (deliver b2' socket rest).
  cbn [fst snd] in *. subst. auto.
Qed.

(** X7.  Connections do not interfere.  When chunks of several
    connections arrive interleaved, the messages emitted for one connection,
    and what its buffer holds in the end, are those of its own chunks
    alone, arriving in the same order without the others. *)
Theorem connections_do_not_interfere (socket : Socket) :
  forall (arrivals : list (Socket * string)) (buffers : gmap Socket string),
  messagesOf socket (fst (serve buffers arrivals))
  = fst (deliver buffers socket (chunksOf socket arrivals)) /\
  snd (serve buffers arrivals) !! socket
  = snd (deliver buffers socket (chunksOf socket arrivals)) !! socket.
Proof.
  induction arrivals as [|[other chunk] rest IH]; intros buffers;
    [cbn; auto|].
  cbn [serve]. unfold chunksOf, messagesOf in *.
  cbn [List.filter fst snd].
  destruct (data buffers other chunk) as [first buffers'] eqn:Hdata.
  specialize (IH buffers').
  destruct (serve buffers' rest) as [later buffers''].
  cbn [fst snd] in *. rewrite List.filter_app, map_app.
  destruct (Nat.eqb_spec other socket) as [->|Hne].
  - cbn [map deliver fst snd]. rewrite Hdata.
    destruct (deliver buffers' socket _) as [m b]. cbn [fst snd] in *.
    destruct IH as [IH1 IH2]. split; [|exact IH2]. subst m. f_equal.
    clear. induction first as [|x first IHf]; [reflexivity|].
    cbn. rewrite Nat.eqb_refl. cbn. rewrite IHf. reflexivity.
  - assert (Hb : buffers' !! socket = buffers !! socket).
    { pose proof (data_other buffers socket other chunk Hne) as H.
      rewrite Hdata in H. exact H. }
    destruct (deliver_same socket
                (map snd (List.filter (fun a => (a.1 =? socket)%nat) rest))
                buffers' buffers Hb) as [Hm Hs].
    destruct IH as [IH1 IH2]. split; [|etransitivity; [exact IH2|exact Hs]].
    etransitivity; [|exact Hm]. etransitivity; [|exact IH1].
    match goal with |- ?a ++ ?b = _ => change (a ++ b = [] ++ b) end.
    f_equal.
    clear -Hne. induction first as [|x first IHf]; [reflexivity|].
    cbn. apply Nat.eqb_neq in Hne. rewrite Hne. exact IHf.
Qed.

End Buffers.

(** ** Length prefixes: bytes and characters, and texts that look like
    one *)

Section Octets.
Import JS Server Wording Lifecycle Streams.

Lemma decodeUtf8_ascii (bytes : list Byte.byte) :
  Forall (fun b => (Byte.to_N b < 128)%N) bytes ->
  decodeUtf8 bytes = Some (asciiText bytes).
Proof.
  induction 1 as [|b rest Hb Hrest IH]; [reflexivity|].
  cbn [decodeUtf8 asciiText]. apply N.ltb_lt in Hb. rewrite Hb, IH.
  reflexivity.
Qed.

Lemma asciiText_app (a b : list Byte.byte) :
  asciiText (a ++ b) = asciiText a +:+ asciiText b.
Proof.
  induction a as [|x a IH]; [reflexivity|].
  cbn [app asciiText]. rewrite IH, append_cons. reflexivity.
Qed.

Lemma asciiText_length (bytes : list Byte.byte) :
  String.length (asciiText bytes) = length bytes.
Proof. induction bytes as [|b rest IH]; [reflexivity|]. cbn. rewrite IH. reflexivity. Qed.

Lemma receiveAll_ascii (socket : Socket) (chunks : list (list Byte.byte)) :
  forall buffers : gmap Socket string,
  Forall (Forall (fun b => (Byte.to_N b < 128)%N)) chunks ->
  receiveAll buffers socket chunks =
  Some (deliver buffers socket (map asciiText chunks)) /\
  concatChunks (map asciiText chunks) = asciiText (concat chunks).
Proof.
  induction chunks as [|chunk rest IH]; intros buffers Hall; [cbn; auto|].
  inversion Hall as [|? ? Hchunk Hrest]; subst.
  cbn [receiveAll map deliver concatChunks concat]. unfold receive.
  rewrite (decodeUtf8_ascii _ Hchunk). cbn [fmap option_fmap option_map].
  destruct (data buffers socket (asciiText chunk)) as [first buffers'].
  destruct (IH buffers' Hrest) as [-> ->].
  destruct (deliver buffers' socket _). rewrite asciiText_app. auto.
Qed.

(** X8.  For payloads of bytes below 0x80 the declared length is a
    number of octets.  A stream of frames, each a run of decimal digits
    that gives the number of bytes of the payload, a space, and the
    payload, arrives in chunks of bytes cut at arbitrary positions; every
    byte of the stream is below 0x80.  The handler emits exactly the
    payloads, in order, and the buffer of the connection ends empty. *)
Theorem ascii_frames_count_octets (buffers : gmap Socket string)
    (socket : Socket) (chunks : list (list Byte.byte))
    (frames : list (string * list Byte.byte)) :
  Forall (Forall (fun b => (Byte.to_N b < 128)%N)) chunks ->
  Forall octetFramed frames ->
  asciiText (concat chunks) = framesText (map frameOfOctets frames) ->
  receiveAll (open buffers socket) socket chunks =
  Some (map (fun frame => asciiText (snd frame)) frames,
        <[socket := EmptyString]> buffers).
Proof.
  intros Hascii Hframes Hstream.
  destruct (receiveAll_ascii socket chunks (open buffers socket) Hascii)
    as [-> Hconcat].
  unfold open.
  rewrite (deliver_frames socket _ _ EmptyString (map frameOfOctets frames)).
  - rewrite insert_insert_eq, map_map. reflexivity.
  - apply lookup_insert_eq.
  - apply Forall_map. eapply Forall_impl; [exact Hframes|].
    intros [digits payload] (Hne & Hall & Hval). unfold wellFramed.
    cbn [frameOfOctets fst snd] in *. rewrite asciiText_length. auto.
  - destruct frames as [|[digits payload] frames]; [reflexivity|].
    cbn. unfold frameText. rewrite length_append. cbn. lia.
  - rewrite append_nil_l, Hconcat. exact Hstream.
Qed.

Lemma ascii_frames_count_octets_witness :
  receiveAll (open ∅ 7%nat) 7%nat
    [[x35; x20; x68; x65]; [x6c; x6c; x6f; x31]; [x20; x21]]
  = Some (["hello"; "!"], <[7%nat := EmptyString]> ∅).
Proof.
  apply (ascii_frames_count_octets ∅ 7%nat
           [[x35; x20; x68; x65]; [x6c; x6c; x6f; x31]; [x20; x21]]
           [("5", [x68; x65; x6c; x6c; x6f]); ("1", [x21])]).
  - repeat constructor.
  - repeat constructor; discriminate.
  - reflexivity.
Defined.

(** X9.  The length prefix has precedence over the line feed.  A text
    that starts with decimal digits and a white-space character is taken
    for the start of an octet-counted frame, whatever follows.  While fewer
    characters follow than the digits say, the handler emits nothing and
    keeps the whole text, complete lines included; the white-space
    character may be the line feed itself. *)
Theorem number_led_text_is_held_back (buffers : gmap Socket string)
    (socket : Socket) (digits : string) (c : ascii) (rest : string) :
  digits <> EmptyString -> allDigits digits = true -> isSpace c = true ->
  (String.length rest < Z.to_nat (digitsValue digits))%nat ->
  data (open buffers socket) socket (digits +:+ String c rest) =
  ([], <[socket := digits +:+ String c rest]> buffers).
Proof.
  intros Hne Hall Hc Hlen. unfold open. rewrite data_eq. cbv zeta.
  rewrite lookup_insert_eq.
  change (default EmptyString (Some EmptyString)) with EmptyString.
  rewrite append_nil_l.
  destruct (decode_frame digits c rest Hne Hall Hc) as [_ Hwait].
  rewrite (Hwait Hlen). cbn [fst snd]. rewrite insert_insert_eq.
  reflexivity.
Qed.

Lemma number_led_text_is_held_back_witness :
  data (open ∅ 7%nat) 7%nat
    ("404 not found" +:+ String LF ("<13>next line" +:+ String LF EmptyString))
  = ([], <[7%nat := "404 not found" +:+ String LF
                      ("<13>next line" +:+ String LF EmptyString)]> ∅).
Proof.
  apply (number_led_text_is_held_back ∅ 7%nat "404" " "
           ("not found" +:+ String LF
              ("<13>next line" +:+ String LF EmptyString))).
  - discriminate.
  - reflexivity.
  - reflexivity.
  - vm_compute. lia.
Defined.

End Octets.

(** ** Trimming, splitting and joining *)

Section Trimming.
Import JS Wording Format.

Lemma trimEnd_step (c : ascii) (s : string) :
  trimEnd (String c s) =
  match trimEnd s with
  | EmptyString => if isSpace c then EmptyString else String c EmptyString
  | t => String c t
  end.
Proof. reflexivity. Qed.

Lemma trimEnd_append (a b : string) :
  trimEnd (a +:+ b) =
  if truthy (trimEnd b) then a +:+ trimEnd b else trimEnd a.
Proof.
  induction a as [|c a IH].
  - rewrite !append_nil_l. destruct (trimEnd b); reflexivity.
  - rewrite append_cons, !trimEnd_step, IH.
    destruct (trimEnd b) as [|x y] eqn:E; cbn [truthy]; [reflexivity|].
    rewrite append_cons. destruct a; reflexivity.
Qed.

Lemma trimEnd_idem (s : string) : trimEnd (trimEnd s) = trimEnd s.
Proof.
  induction s as [|c s IH]; [reflexivity|].
  rewrite trimEnd_step. destruct (trimEnd s) as [|x y] eqn:E.
  - destruct (isSpace c) eqn:Ec; [reflexivity|].
    rewrite trimEnd_step. cbn [trimEnd]. rewrite Ec. reflexivity.
  - rewrite trimEnd_step, IH. reflexivity.
Qed.

Lemma trimEnd_noSpace (s : string) : noSpace s = true -> trimEnd s = s.
Proof.
  induction s as [|c s IH]; [reflexivity|].
  cbn [noSpace]. intros H. apply andb_true_iff in H as [Hc Hs].
  apply negb_true_iff in Hc. rewrite trimEnd_step, (IH Hs), Hc.
  destruct s; reflexivity.
Qed.

Lemma trimStart_trimEnd (s : string) :
  trimStart (trimEnd s) = trimEnd (trimStart s).
Proof.
  induction s as [|c s IH]; [reflexivity|].
  cbn [trimStart]. rewrite trimEnd_step.
  destruct (isSpace c) eqn:Ec.
  - rewrite <- IH. destruct (trimEnd s); [reflexivity|].
    cbn [trimStart]. rewrite Ec. reflexivity.
  - rewrite trimEnd_step, Ec.
    destruct (trimEnd s); cbn [trimStart]; rewrite Ec; reflexivity.
Qed.

Lemma trim_trimEnd (s : string) : trim (trimEnd s) = trim s.
Proof.
  unfold trim. rewrite trimStart_trimEnd, trimEnd_idem. reflexivity.
Qed.

Lemma trim_blank (s : string) : trimEnd s = EmptyString -> trim s = EmptyString.
Proof.
  intros H. unfold trim. rewrite <- trimStart_trimEnd, H. reflexivity.
Qed.

Lemma noSpace_excludes (s : string) (x : ascii) :
  noSpace s = true -> isSpace x = true -> includes s x = false.
Proof.
  intros Hs Hx. induction s as [|c s IH]; [reflexivity|].
  cbn in Hs. apply andb_true_iff in Hs as [Hc Hs].
  apply negb_true_iff in Hc. cbn [includes]. rewrite (IH Hs), orb_false_r.
  destruct (Ascii.eqb_spec c x) as [->|_]; [congruence|reflexivity].
Qed.

Lemma isToken_spec (s : string) :
  isToken s = true ->
  truthy s = true /\ noSpace s = true /\ includes s " " = false /\
  trimEnd s = s.
Proof.
  unfold isToken. intros H. apply andb_true_iff in H as [Ht Hs].
  split; [exact Ht|]. split; [exact Hs|].
  split; [apply noSpace_excludes; [exact Hs|reflexivity]|].
  apply trimEnd_noSpace, Hs.
Qed.

Lemma join_cons (p : string) (parts : list string) (sep : string) :
  parts <> [] -> join (p :: parts) sep = p +:+ sep +:+ join parts sep.
Proof. destruct parts; [contradiction|reflexivity]. Qed.

(** Splitting at a separator and joining with it restores the text. *)
Lemma join_split (s : string) (sep : ascii) :
  join (split s sep) (String sep EmptyString) = s.
Proof.
  induction s as [|c s IH]; [reflexivity|].
  cbn [split]. pose proof (split_nonempty s sep) as Hne.
  destruct (Ascii.eqb_spec c sep) as [->|_].
  - rewrite join_cons, IH by exact Hne. reflexivity.
  - destruct (split s sep) as [|h t]; [contradiction|].
    destruct t as [|h2 t]; [cbn [join] in *; rewrite IH; reflexivity|].
    rewrite join_cons by discriminate. rewrite join_cons in IH by discriminate.
    rewrite append_cons, IH. reflexivity.
Qed.

Lemma split_field (field rest : string) (sep : ascii) :
  includes field sep = false ->
  split (field +:+ String sep rest) sep = field :: split rest sep.
Proof.
  intros H. induction field as [|c field IH].
  - rewrite append_nil_l. cbn [split]. rewrite Ascii.eqb_refl. reflexivity.
  - cbn [includes] in H. apply orb_false_iff in H as [Hc Hf].
    rewrite append_cons. cbn [split]. rewrite Hc, (IH Hf). reflexivity.
Qed.

Lemma split_field_space (field rest : string) :
  includes field " " = false ->
  split (field +:+ " " +:+ rest) " " = field :: split rest " ".
Proof. exact (split_field field rest " "). Qed.

Lemma indexOf_nonneg_or (s : string) (c : ascii) :
  indexOf s c = -1 \/ 0 <= indexOf s c.
Proof.
  induction s as [|d s IH]; [left; reflexivity|].
  cbn [indexOf]. destruct (Ascii.eqb d c); [right; lia|].
  destruct (indexOf s c <? 0) eqn:E; [left; reflexivity|].
  apply Z.ltb_ge in E. right. lia.
Qed.

Lemma indexOf_skip (a rest : string) (c : ascii) :
  includes a c = false ->
  indexOf (a +:+ String c rest) c = Z.of_nat (String.length a).
Proof.
  intros H. induction a as [|d a IH].
  - rewrite append_nil_l. cbn [indexOf]. rewrite Ascii.eqb_refl. reflexivity.
  - cbn [includes] in H. apply orb_false_iff in H as [Hd Ha].
    rewrite append_cons. cbn [indexOf]. rewrite Hd, (IH Ha).
    destruct (_ <? 0) eqn:E; [apply Z.ltb_lt in E; lia|].
    cbn [String.length]. lia.
Qed.

End Trimming.

(** ** Lines in the format of RFC 5424 *)

Section Rfc5424.
Import JS Parser Wording Format.
Variable rt : Runtime.

(** A trimmed text that starts with a priority and the version. *)
Lemma parse_version1 (rawMessage pri body : string) :
  pri <> EmptyString -> allDigits pri = true ->
  trim rawMessage = "<" +:+ pri +:+ ">1 " +:+ body ->
  trim ("1 " +:+ body) = "1 " +:+ body ->
  parse rt rawMessage =
  parseRFC5424 rt (trim rawMessage) (Num (digitsValue pri / 8))
    (Num (digitsValue pri mod 8)) body.
Proof.
  intros Hne Hall Htrim Hbody.
  set (R := "1 " +:+ body) in *.
  assert (ET : trim rawMessage = String "<" (pri +:+ String ">" R))
    by (rewrite Htrim; reflexivity).
  assert (Hgt : includes pri ">" = false)
    by (apply allDigits_excludes; [exact Hall|reflexivity]).
  assert (Hidx : indexOf (trim rawMessage) ">"
                 = Z.of_nat (String.length pri) + 1).
  { rewrite ET. cbn [indexOf]. rewrite (indexOf_skip _ _ _ Hgt).
    change (Ascii.eqb "<" ">") with false. cbv iota.
    destruct (_ <? 0) eqn:E; [apply Z.ltb_lt in E; lia|reflexivity]. }
  unfold Parser.parse. rewrite Hidx.
  replace (startsWith (trim rawMessage) "<") with true
    by (rewrite ET; reflexivity).
  replace (0 <? Z.of_nat (String.length pri) + 1) with true
    by (symmetry; apply Z.ltb_lt; lia).
  replace (substring (trim rawMessage) 1
             (Z.to_nat (Z.of_nat (String.length pri) + 1)))
    with pri.
  2:{ rewrite ET. unfold substring.
      replace (Z.to_nat (Z.of_nat (String.length pri) + 1))
        with (S (String.length pri)) by lia.
      rewrite Nat.min_l, Nat.max_r by lia. cbn [drop].
      replace (S (String.length pri) - 1)%nat with (String.length pri) by lia.
      rewrite take_append. reflexivity. }
  replace (substringFrom (trim rawMessage)
             (Z.to_nat (Z.of_nat (String.length pri) + 1 + 1)))
    with R.
  2:{ rewrite ET. unfold substringFrom.
      replace (Z.to_nat (Z.of_nat (String.length pri) + 1 + 1))
        with (S (S (String.length pri))) by lia.
      change (drop (S (S ?n)) (String ?c ?s)) with (drop (S n) s).
      rewrite drop_prefix. reflexivity. }
  rewrite Hbody, (parseInt_digits _ Hne Hall). cbn [floorDiv remainder].
  rewrite Z.rem_mod_nonneg by (pose proof (digitsValue_nonneg pri); lia).
  reflexivity.
Qed.

Lemma optionalField_decide (field : string) :
  (if decide (Some field = Some "-") then None else Some field)
  = optionalField field.
Proof.
  unfold optionalField.
  destruct (String.eqb_spec field "-") as [->|H];
    destruct (decide _) as [E|E]; try reflexivity.
  - exfalso. apply E. reflexivity.
  - injection E as E. contradiction.
Qed.

(** What follows the sixth field once the line is trimmed. *)
Lemma trimEnd_sixth (sd msg : string) :
  truthy sd = true -> trimEnd sd = sd ->
  trimEnd (sd +:+ " " +:+ msg) = sd +:+ afterFields msg.
Proof.
  intros Tsd Esd. rewrite trimEnd_append.
  change (" " +:+ msg) with (String " " msg). rewrite trimEnd_step.
  unfold afterFields. destruct (trimEnd msg) as [|x y]; cbn [isSpace truthy].
  - rewrite Esd, append_nil_r. reflexivity.
  - reflexivity.
Qed.

(** A line of the format reaches the positional parser with the fields
    and what follows them as content. *)
Lemma rfc5424_content (pri ts host app procid msgid sd msg : string) :
  pri <> EmptyString -> allDigits pri = true ->
  truthy sd = true -> trimEnd sd = sd ->
  let line := rfc5424Line pri ts host app procid msgid sd msg in
  let body := ts +:+ " " +:+ host +:+ " " +:+ app +:+ " " +:+ procid
              +:+ " " +:+ msgid +:+ " " +:+ sd +:+ afterFields msg in
  parse rt line =
  parseRFC5424 rt (trim line) (Num (digitsValue pri / 8))
    (Num (digitsValue pri mod 8)) body.
Proof.
  intros Hne Hall Tsd Esd line body.
  pose proof (trimEnd_sixth sd msg Tsd Esd) as Etail.
  set (tail := afterFields msg) in *.
  assert (Etail' : trimEnd (sd +:+ tail) = sd +:+ tail).
  { rewrite <- Etail. apply trimEnd_idem. }
  assert (Ttail : truthy (sd +:+ tail) = true).
  { destruct sd; [discriminate|reflexivity]. }
  assert (Etrim : trim line = "<" +:+ pri +:+ ">1 " +:+ body).
  { unfold trim, line, rfc5424Line.
    change (trimStart ("<" +:+ ?x)) with ("<" +:+ x).
    replace ("<" +:+ pri +:+ ">1 " +:+ ts +:+ " " +:+ host +:+ " " +:+ app
             +:+ " " +:+ procid +:+ " " +:+ msgid +:+ " " +:+ sd +:+ " "
             +:+ msg)
      with (("<" +:+ pri +:+ ">1 " +:+ ts +:+ " " +:+ host +:+ " " +:+ app
             +:+ " " +:+ procid +:+ " " +:+ msgid +:+ " ")
            +:+ (sd +:+ " " +:+ msg))
      by (rewrite !append_assoc; reflexivity).
    rewrite trimEnd_append, Etail, Ttail. unfold body.
    rewrite !append_assoc. reflexivity. }
  assert (Ebody : trim ("1 " +:+ body) = "1 " +:+ body).
  { unfold trim. change (trimStart ("1 " +:+ ?x)) with ("1 " +:+ x).
    unfold body.
    replace ("1 " +:+ ts +:+ " " +:+ host +:+ " " +:+ app +:+ " " +:+ procid
             +:+ " " +:+ msgid +:+ " " +:+ sd +:+ tail)
      with (("1 " +:+ ts +:+ " " +:+ host +:+ " " +:+ app +:+ " " +:+ procid
             +:+ " " +:+ msgid +:+ " ") +:+ (sd +:+ tail))
      by (rewrite !append_assoc; reflexivity).
    rewrite trimEnd_append, Etail', Ttail. reflexivity. }
  exact (parse_version1 line pri body Hne Hall Etrim Ebody).
Qed.

(** The words of what follows the sixth field, joined again and trimmed,
    are the trimmed message text. *)
Lemma wordsAfter_message (msg : string) :
  trim (join (wordsAfter msg) " ") = trim msg.
Proof.
  unfold wordsAfter. destruct (trimEnd msg) as [|x y] eqn:E.
  - rewrite (trim_blank _ E). reflexivity.
  - rewrite join_split, <- E. apply trim_trimEnd.
Qed.

(** The positional parser on a content whose first six fields are known,
    the sixth not opening a bracket. *)
Lemma parseRFC5424_plain (raw : string) (f s : number) (content : string)
    (ts host app procid msgid sd : string) (more : list string) :
  split content " " = ts :: host :: app :: procid :: msgid :: sd :: more ->
  truthy ts = true -> truthy host = true -> truthy app = true ->
  startsWith sd "[" = false ->
  parseRFC5424 rt raw f s content =
  {| facility := f; severity := s; version := Some 1;
     timestamp := parseTimestamp rt ts; hostname := host; appName := app;
     procId := optionalField procid; msgId := optionalField msgid;
     structuredData := None; message := trim (join more " "); raw := raw |}.
Proof.
  intros Hsplit Hts Hhost Happ Hsd. unfold parseRFC5424. rewrite Hsplit.
  cbn [lookup list_lookup]. rewrite Hsd, !andb_false_r.
  change (List.skipn 6 (ts :: host :: app :: procid :: msgid :: sd :: more))
    with more.
  unfold orElse. rewrite Hts, Hhost, Happ, !optionalField_decide.
  reflexivity.
Qed.

(** X10.  A line in the format of RFC 5424 is taken apart field by
    field.  With a priority of decimal digits and six fields without white
    space, the last of which does not open a bracket, the record has the
    facility and severity of the priority, for a priority of at most 2^53,
    version 1, the time the time stamp denotes, the host name and
    application name as given, the process id and message id as given or
    absent for the nil value, no structured data, and as message the
    trimmed text after the sixth field.  Whatever stands in the sixth
    position is left out of the message, the nil value or not. *)
Theorem rfc5424_fields (pri ts host app procid msgid sd msg : string) :
  pri <> EmptyString -> allDigits pri = true ->
  isToken ts = true -> isToken host = true -> isToken app = true ->
  isToken procid = true -> isToken msgid = true -> isToken sd = true ->
  startsWith sd "[" = false ->
  let m := parse rt (rfc5424Line pri ts host app procid msgid sd msg) in
  (digitsValue pri <= maxExact ->
   facility m = Num (digitsValue pri / 8) /\
   severity m = Num (digitsValue pri mod 8)) /\
  version m = Some 1 /\
  timestamp m = parseTimestamp rt ts /\
  hostname m = host /\ appName m = app /\
  procId m = optionalField procid /\ msgId m = optionalField msgid /\
  structuredData m = None /\
  message m = trim msg.
Proof.
  intros Hne Hall Hts Hhost Happ Hprocid Hmsgid Hsd Hopen.
  apply isToken_spec in Hts as (Tts & _ & Sts & _).
  apply isToken_spec in Hhost as (Thost & _ & Shost & _).
  apply isToken_spec in Happ as (Tapp & _ & Sapp & _).
  apply isToken_spec in Hprocid as (_ & _ & Sprocid & _).
  apply isToken_spec in Hmsgid as (_ & _ & Smsgid & _).
  apply isToken_spec in Hsd as (Tsd & _ & Ssd & Esd).
  cbv zeta. rewrite (rfc5424_content _ _ _ _ _ _ _ _ Hne Hall Tsd Esd).
  rewrite (parseRFC5424_plain _ _ _ _ ts host app procid msgid sd
             (wordsAfter msg)); [| |assumption..].
  - cbn [facility severity version timestamp hostname appName procId msgId
         structuredData message].
    rewrite wordsAfter_message. repeat split; reflexivity.
  - rewrite !split_field_space by assumption. do 5 f_equal.
    unfold afterFields, wordsAfter. destruct (trimEnd msg) as [|x y].
    + rewrite append_nil_r. apply split_whole. exact Ssd.
    + apply split_field. exact Ssd.
Qed.

(** *** A bracket in the sixth position *)

Lemma endsWith_includes (s : string) (c : ascii) :
  endsWith s c = true -> includes s c = true.
Proof.
  induction s as [|d s IH]; [discriminate|].
  cbn [endsWith includes]. destruct s as [|e s].
  - intros ->. reflexivity.
  - intros H. rewrite (IH H). apply orb_true_r.
Qed.

Lemma endsWith_excluded (s : string) (c : ascii) :
  includes s c = false -> endsWith s c = false.
Proof.
  intros H. destruct (endsWith s c) eqn:E; [|reflexivity].
  apply endsWith_includes in E. congruence.
Qed.

Lemma endsWith_append (a b : string) (c : ascii) :
  b <> EmptyString -> endsWith (a +:+ b) c = endsWith b c.
Proof.
  intros Hb. induction a as [|d a IH]; [reflexivity|].
  rewrite append_cons. cbn [endsWith]. rewrite IH.
  destruct (a +:+ b) eqn:E; [|reflexivity].
  destruct a; [|discriminate]. rewrite append_nil_l in E. contradiction.
Qed.

Lemma trimEnd_keeps (s : string) (c : ascii) :
  includes s c = false -> includes (trimEnd s) c = false.
Proof.
  induction s as [|d s IH]; [reflexivity|].
  cbn [includes]. intros H. apply orb_false_iff in H as [Hd Hs].
  rewrite trimEnd_step. specialize (IH Hs).
  destruct (trimEnd s) eqn:E.
  - destruct (isSpace d); cbn [includes]; rewrite ?Hd; reflexivity.
  - cbn [includes] in *. rewrite Hd. exact IH.
Qed.

Lemma truthy_opens (s : string) :
  startsWith s "[" = true -> truthy s = true /\ String.eqb s "-" = false.
Proof.
  destruct s as [|c s]; [discriminate|]. cbn [startsWith].
  destruct (Ascii.eqb_spec c "[") as [->|_]; [|discriminate].
  intros _. split; reflexivity.
Qed.

(** The loop of [parseStructuredData] over parts none of which ends in a
    closing bracket records nothing. *)
Lemma structuredDataLoop_open (parts : list string) :
  forall currentSD inSD result,
  Forall (fun part => endsWith part "]" = false) parts ->
  structuredDataLoop rt parts currentSD inSD result = result.
Proof.
  induction parts as [|part rest IH]; intros currentSD inSD result Hparts;
    [reflexivity|].
  inversion Hparts as [|? ? Hpart Hrest]; subst. cbn [structuredDataLoop].
  destruct (truthy part) eqn:Tpart; [|apply IH; exact Hrest].
  assert (Hjoin : endsWith (currentSD +:+ " " +:+ part) "]" = false).
  { rewrite endsWith_append by discriminate.
    change (" " +:+ part) with (String " " part).
    destruct part; [discriminate|exact Hpart]. }
  destruct (startsWith part "[" && negb inSD).
  - rewrite Hpart. cbn [andb]. apply IH. exact Hrest.
  - destruct inSD.
    + rewrite Hjoin. cbn [andb]. apply IH. exact Hrest.
    + cbn [andb]. apply IH. exact Hrest.
Qed.

Lemma findMessageStartFrom_open (parts : list string) : forall i,
  Forall (fun part => endsWith part "]" = false) parts ->
  findMessageStartFrom parts i = (i + length parts)%nat.
Proof.
  induction parts as [|part rest IH]; intros i Hparts; [cbn; lia|].
  inversion Hparts as [|? ? Hpart Hrest]; subst.
  cbn [findMessageStartFrom]. rewrite Hpart. cbn [andb].
  rewrite (IH _ Hrest). cbn [length]. lia.
Qed.

Lemma findMessageStartFrom_gt (parts : list string) : forall i,
  parts <> [] -> (i < findMessageStartFrom parts i)%nat.
Proof.
  induction parts as [|part rest IH]; intros i Hne; [contradiction|].
  cbn [findMessageStartFrom]. destruct (_ && _); [lia|].
  destruct rest as [|part' rest]; [cbn; lia|].
  specialize (IH (S i) ltac:(discriminate)). lia.
Qed.

(** The positional parser on a content whose sixth field opens a
    bracket. *)
Lemma parseRFC5424_bracket (raw : string) (f s : number) (content : string)
    (ts host app procid msgid : string) (words : list string) :
  split content " " = ts :: host :: app :: procid :: msgid :: words ->
  truthy ts = true -> truthy host = true -> truthy app = true ->
  startsWith (List.hd EmptyString words) "[" = true ->
  parseRFC5424 rt raw f s content =
  {| facility := f; severity := s; version := Some 1;
     timestamp := parseTimestamp rt ts; hostname := host; appName := app;
     procId := optionalField procid; msgId := optionalField msgid;
     structuredData :=
       (let result := structuredDataLoop rt words EmptyString false ∅ in
        if (0 <? size result)%nat then Some result else None);
     message :=
       trim (join (List.skipn (findMessageStartFrom words 5 - 5) words) " ");
     raw := raw |}.
Proof.
  intros Hsplit Hts Hhost Happ Hopen. unfold parseRFC5424. rewrite Hsplit.
  destruct words as [|w0 tl]; [discriminate|]. cbn [List.hd] in Hopen.
  destruct (truthy_opens _ Hopen) as [Tw0 Ew0].
  cbn [lookup list_lookup]. rewrite Tw0, Ew0, Hopen. cbn [andb negb].
  unfold parseStructuredData, findMessageStart.
  change (List.skipn 5 (ts :: host :: app :: procid :: msgid :: w0 :: tl))
    with (w0 :: tl).
  unfold orElse. rewrite Hts, Hhost, Happ, !optionalField_decide.
  set (start := findMessageStartFrom (w0 :: tl) 5).
  assert (Hstart : (5 < start)%nat)
    by (apply findMessageStartFrom_gt; discriminate).
  replace (List.skipn start
             (ts :: host :: app :: procid :: msgid :: w0 :: tl))
    with (List.skipn (start - 5) (w0 :: tl)); [reflexivity|].
  destruct start as [|[|[|[|[|n]]]]]; try lia.
  replace (S (S (S (S (S n)))) - 5)%nat with n by lia. reflexivity.
Qed.

(** X11.  When the sixth field of such a line opens a bracket and no
    closing bracket follows anywhere in the line, the whole text after the
    fifth field is taken for an unfinished structured-data element: the
    record has an empty message and no structured data. *)
Theorem unclosed_bracket_empties_message
    (pri ts host app procid msgid sd msg : string) :
  pri <> EmptyString -> allDigits pri = true ->
  isToken ts = true -> isToken host = true -> isToken app = true ->
  isToken procid = true -> isToken msgid = true -> isToken sd = true ->
  startsWith sd "[" = true ->
  includes sd "]" = false -> includes msg "]" = false ->
  let m := parse rt (rfc5424Line pri ts host app procid msgid sd msg) in
  message m = EmptyString /\ structuredData m = None /\
  hostname m = host /\ appName m = app.
Proof.
  intros Hne Hall Hts Hhost Happ Hprocid Hmsgid Hsd Hopen Csd Cmsg.
  apply isToken_spec in Hts as (Tts & _ & Sts & _).
  apply isToken_spec in Hhost as (Thost & _ & Shost & _).
  apply isToken_spec in Happ as (Tapp & _ & Sapp & _).
  apply isToken_spec in Hprocid as (_ & _ & Sprocid & _).
  apply isToken_spec in Hmsgid as (_ & _ & Smsgid & _).
  apply isToken_spec in Hsd as (Tsd & _ & Ssd & Esd).
  cbv zeta. rewrite (rfc5424_content _ _ _ _ _ _ _ _ Hne Hall Tsd Esd).
  assert (Hsplit :
    split (ts +:+ " " +:+ host +:+ " " +:+ app +:+ " " +:+ procid +:+ " "
           +:+ msgid +:+ " " +:+ sd +:+ afterFields msg) " "
    = ts :: host :: app :: procid :: msgid :: sd :: wordsAfter msg).
  { rewrite !split_field_space by assumption. do 5 f_equal.
    unfold afterFields, wordsAfter. destruct (trimEnd msg) as [|x y].
    - rewrite append_nil_r. apply split_whole. exact Ssd.
    - apply split_field. exact Ssd. }
  assert (Hwords : Forall (fun part => endsWith part "]" = false)
                          (sd :: wordsAfter msg)).
  { constructor; [apply endsWith_excluded; exact Csd|].
    unfold wordsAfter. pose proof (trimEnd_keeps _ _ Cmsg) as Ht.
    destruct (trimEnd msg) as [|x y]; [constructor|].
    eapply Forall_impl; [apply split_keeps; exact Ht|].
    intros part. apply endsWith_excluded. }
  rewrite (parseRFC5424_bracket _ _ _ _ ts host app procid msgid
             (sd :: wordsAfter msg) Hsplit Tts Thost Tapp Hopen).
  cbn [message structuredData hostname appName].
  rewrite (structuredDataLoop_open _ _ _ _ Hwords).
  rewrite (findMessageStartFrom_open _ _ Hwords).
  replace (5 + length (sd :: wordsAfter msg) - 5)%nat
    with (length (sd :: wordsAfter msg)) by lia.
  rewrite skipn_all. repeat split; reflexivity.
Qed.

(** *** A structured-data element in the sixth position *)

Lemma truthy_closes (s : string) : endsWith s "]" = true -> truthy s = true.
Proof. destruct s; [discriminate|reflexivity]. Qed.

Lemma endsWith_joined (currentSD part : string) :
  truthy part = true ->
  endsWith (currentSD +:+ " " +:+ part) "]" = endsWith part "]".
Proof.
  intros H. rewrite endsWith_append by discriminate.
  change (" " +:+ part) with (String " " part).
  destruct part; [discriminate|reflexivity].
Qed.

(** The loop of [parseStructuredData] inside an element: the words up to
    the one that closes the bracket are assembled, the pattern for
    elements is tried on the result, and the loop ends when the next part
    does not open another element. *)
Lemma structuredDataLoop_inside (front : list string) :
  forall (currentSD lastWord : string) (rest : list string)
         (result : StructuredData),
  Forall (fun part => endsWith part "]" = false) front ->
  endsWith lastWord "]" = true ->
  match rest with
  | next :: _ => truthy next && startsWith next "[" = false
  | [] => True
  end ->
  structuredDataLoop rt (front ++ lastWord :: rest) currentSD true result =
  let text :=
    fold_left (fun text part =>
                 if truthy part then text +:+ " " +:+ part else text)
              front currentSD +:+ " " +:+ lastWord in
  match sdMatch rt text with
  | Some (sdId, params) =>
      if truthy sdId && negb (String.eqb sdId protoKey)
      then <[sdId := parseSDParams rt params]> result
      else result
  | None => result
  end.
Proof.
  induction front as [|part front IH];
    intros currentSD lastWord rest result Hfront Hlast Hrest.
  - cbn [app fold_left structuredDataLoop]. cbv zeta.
    rewrite (truthy_closes _ Hlast). cbn [negb]. rewrite andb_false_r.
    rewrite (endsWith_joined _ _ (truthy_closes _ Hlast)), Hlast.
    cbn [andb]. destruct rest as [|next rest]; [reflexivity|].
    rewrite Hrest. reflexivity.
  - inversion Hfront as [|? ? Hpart Hfront']; subst.
    cbn [app fold_left structuredDataLoop].
    destruct (truthy part) eqn:Tpart; [|apply IH; assumption].
    cbn [negb]. rewrite andb_false_r.
    rewrite (endsWith_joined _ _ Tpart), Hpart. cbn [andb].
    apply IH; assumption.
Qed.

Lemma join_snoc (parts : list string) (part sep : string) :
  parts <> [] -> join (parts ++ [part]) sep = join parts sep +:+ sep +:+ part.
Proof.
  induction parts as [|p parts IH]; intros Hne; [contradiction|].
  destruct parts as [|p' parts]; [reflexivity|].
  change (join ((p :: p' :: parts) ++ [part]) sep)
    with (p +:+ sep +:+ join ((p' :: parts) ++ [part]) sep).
  rewrite IH by discriminate.
  change (join (p :: p' :: parts) sep)
    with (p +:+ sep +:+ join (p' :: parts) sep).
  rewrite !append_assoc. reflexivity.
Qed.

Lemma fold_collapse (words : list string) : forall parts : list string,
  parts <> [] ->
  fold_left (fun text part =>
               if truthy part then text +:+ " " +:+ part else text)
            words (join parts " ")
  = join (parts ++ List.filter truthy words) " ".
Proof.
  induction words as [|word words IH]; intros parts Hne.
  - cbn. rewrite app_nil_r. reflexivity.
  - cbn [fold_left List.filter]. destruct (truthy word).
    + rewrite <- join_snoc by exact Hne. rewrite IH.
      * rewrite <- app_assoc. reflexivity.
      * destruct parts; discriminate.
    + apply IH. exact Hne.
Qed.

Lemma findMessageStartFrom_closed (front : list string) :
  forall (i : nat) (lastWord : string) (rest : list string),
  Forall (fun part => endsWith part "]" = false) front ->
  endsWith lastWord "]" = true ->
  match rest with
  | next :: _ => truthy next && startsWith next "[" = false
  | [] => True
  end ->
  findMessageStartFrom (front ++ lastWord :: rest) i
  = (i + length front + 1)%nat.
Proof.
  induction front as [|part front IH]; intros i lastWord rest Hfront Hlast Hrest.
  - cbn [app findMessageStartFrom length]. rewrite Hlast.
    destruct rest as [|next rest]; [cbn; lia|]. rewrite Hrest. cbn. lia.
  - inversion Hfront as [|? ? Hpart Hfront']; subst.
    cbn [app findMessageStartFrom length]. rewrite Hpart. cbn [andb].
    rewrite (IH (S i) lastWord rest Hfront' Hlast Hrest). lia.
Qed.

(** The loop from its start over the words of one element. *)
Lemma structuredDataLoop_element (front : list string) (lastWord : string)
    (rest : list string) :
  startsWith (List.hd EmptyString (front ++ [lastWord])) "[" = true ->
  Forall (fun part => endsWith part "]" = false) front ->
  endsWith lastWord "]" = true ->
  match rest with
  | next :: _ => truthy next && startsWith next "[" = false
  | [] => True
  end ->
  structuredDataLoop rt (front ++ lastWord :: rest) EmptyString false ∅ =
  match sdMatch rt (join (List.filter truthy (front ++ [lastWord])) " ") with
  | Some (sdId, params) =>
      if truthy sdId && negb (String.eqb sdId protoKey)
      then <[sdId := parseSDParams rt params]> ∅
      else ∅
  | None => ∅
  end.
Proof.
  intros Hopen Hfront Hlast Hrest. pose proof (truthy_closes _ Hlast) as Tlast.
  destruct front as [|w0 front'].
  - cbn [List.app List.hd] in *. cbn [structuredDataLoop List.filter].
    rewrite Tlast, Hopen. cbn [andb negb]. rewrite Hlast. cbn [andb join].
    destruct rest as [|next rest]; [reflexivity|]. rewrite Hrest.
    reflexivity.
  - cbn [List.app List.hd] in *.
    inversion Hfront as [|? ? Hw0 Hfront']; subst.
    destruct (truthy_opens _ Hopen) as [Tw0 _].
    cbn [structuredDataLoop]. rewrite Tw0, Hopen. cbn [andb negb].
    rewrite Hw0. cbn [andb].
    rewrite (structuredDataLoop_inside front' w0 lastWord rest ∅
               Hfront' Hlast Hrest).
    cbv zeta.
    replace (fold_left _ front' w0 +:+ " " +:+ lastWord)
      with (join (List.filter truthy (w0 :: front' ++ [lastWord])) " ");
      [reflexivity|].
    cbn [List.filter]. rewrite Tw0, List.filter_app.
    cbn [List.filter]. rewrite Tlast.
    change (w0 :: List.filter truthy front' ++ [lastWord])
      with ((w0 :: List.filter truthy front') ++ [lastWord]).
    rewrite join_snoc by discriminate. f_equal.
    change w0 with (join [w0] " ") at 2.
    rewrite (fold_collapse front' [w0]) by discriminate. reflexivity.
Qed.

(** The words of a text that ends in a character other than the
    separator. *)
Lemma split_snoc (a : string) (c sep : ascii) :
  Ascii.eqb c sep = false ->
  split (a +:+ String c EmptyString) sep =
  removelast (split a sep)
  ++ [List.last (split a sep) EmptyString +:+ String c EmptyString].
Proof.
  intros Hc. rewrite split_app. f_equal. apply split_whole.
  rewrite includes_append. cbn [includes]. rewrite Hc, !orb_false_r.
  apply (Forall_last (fun piece => includes piece sep = false));
    [apply split_pieces|reflexivity].
Qed.

Lemma trimEnd_head (s : string) (c : ascii) (r : string) :
  trimEnd s = String c r -> exists r', s = String c r'.
Proof.
  destruct s as [|d s]; [discriminate|]. rewrite trimEnd_step.
  destruct (trimEnd s); [destruct (isSpace d); [discriminate|]|];
    intros [= -> _]; eauto.
Qed.

(** The text after the fields does not open a bracket when the message
    text does not. *)
Lemma wordsAfter_opens (msg : string) :
  startsWith msg "[" = false ->
  match wordsAfter msg with
  | next :: _ => truthy next && startsWith next "[" = false
  | [] => True
  end.
Proof.
  intros Hmsg. unfold wordsAfter.
  destruct (trimEnd msg) as [|c r] eqn:E; [exact I|].
  destruct (trimEnd_head _ _ _ E) as (r' & ->). cbn [startsWith] in Hmsg.
  cbn [split]. destruct (Ascii.eqb c " "); [reflexivity|].
  destruct (split_cons r " ") as (h & t & ->). cbn [truthy startsWith].
  destruct (Ascii.eqb c "["); [discriminate|reflexivity].
Qed.

(** X12.  A line whose sixth field is a structured-data element, an
    opening bracket, a text without closing bracket, and a closing bracket,
    followed by a message text that does not open a bracket itself.  The
    element may hold spaces.  The message of the record is the trimmed
    message text; and the structured data are those of the one element
    whose text is the words of the element with single spaces between
    them: its parameters under its id, or nothing when the pattern for
    elements does not match or the id is [__proto__]. *)
Theorem rfc5424_structured_data
    (pri ts host app procid msgid inner msg : string) :
  pri <> EmptyString -> allDigits pri = true ->
  isToken ts = true -> isToken host = true -> isToken app = true ->
  isToken procid = true -> isToken msgid = true ->
  includes inner "]" = false -> startsWith msg "[" = false ->
  let element := "[" +:+ inner +:+ "]" in
  let m := parse rt (rfc5424Line pri ts host app procid msgid element msg) in
  message m = trim msg /\
  structuredData m = recordedElement rt (collapseSpaces element) /\
  hostname m = host /\ appName m = app /\
  procId m = optionalField procid /\ msgId m = optionalField msgid.
Proof.
  intros Hne Hall Hts Hhost Happ Hprocid Hmsgid Cinner Hmsg element.
  apply isToken_spec in Hts as (Tts & _ & Sts & _).
  apply isToken_spec in Hhost as (Thost & _ & Shost & _).
  apply isToken_spec in Happ as (Tapp & _ & Sapp & _).
  apply isToken_spec in Hprocid as (_ & _ & Sprocid & _).
  apply isToken_spec in Hmsgid as (_ & _ & Smsgid & _).
  (* the words of the element *)
  set (opened := "[" +:+ inner).
  set (front := removelast (split opened " ")).
  set (lastWord := List.last (split opened " ") EmptyString +:+ "]").
  assert (Ewords : split element " " = front ++ [lastWord]).
  { unfold element.
    replace ("[" +:+ inner +:+ "]") with (opened +:+ "]")
      by (unfold opened; rewrite append_assoc; reflexivity).
    apply (split_snoc opened "]" " "). reflexivity. }
  assert (Copened : includes opened "]" = false).
  { unfold opened. change ("[" +:+ inner) with (String "[" inner).
    cbn [includes]. rewrite Cinner. reflexivity. }
  assert (Hfront : Forall (fun part => endsWith part "]" = false) front).
  { unfold front.
    assert (H : Forall (fun part => endsWith part "]" = false)
                       (split opened " ")).
    { eapply Forall_impl; [apply split_keeps; exact Copened|].
      intros part. apply endsWith_excluded. }
    rewrite (app_removelast_last EmptyString (split_nonempty opened " "))
      in H.
    apply Forall_app in H as [H _]. exact H. }
  assert (Hlast : endsWith lastWord "]" = true).
  { unfold lastWord. rewrite endsWith_append by discriminate. reflexivity. }
  assert (Slast : includes lastWord " " = false).
  { pose proof (split_pieces element " ") as H. rewrite Ewords in H.
    apply Forall_app in H as [_ H]. inversion H; subst. assumption. }
  assert (Hhd : startsWith (List.hd EmptyString (split element " ")) "["
                = true).
  { unfold element. change ("[" +:+ inner +:+ "]")
      with (String "[" (inner +:+ "]")).
    cbn [split]. change (Ascii.eqb "[" " ") with false. cbv iota.
    destruct (split_cons (inner +:+ "]") " ") as (h & t & ->). reflexivity. }
  assert (Telement : truthy element = true) by reflexivity.
  assert (Eelement : trimEnd element = element).
  { unfold element.
    replace ("[" +:+ inner +:+ "]") with (opened +:+ "]")
      by (unfold opened; rewrite append_assoc; reflexivity).
    rewrite trimEnd_append. reflexivity. }
  cbv zeta. fold element.
  rewrite (rfc5424_content _ _ _ _ _ _ _ _ Hne Hall Telement Eelement).
  assert (Hsplit :
    split (ts +:+ " " +:+ host +:+ " " +:+ app +:+ " " +:+ procid +:+ " "
           +:+ msgid +:+ " " +:+ element +:+ afterFields msg) " "
    = ts :: host :: app :: procid :: msgid
      :: (split element " " ++ wordsAfter msg)).
  { rewrite !split_field_space by assumption. do 5 f_equal.
    unfold afterFields, wordsAfter. destruct (trimEnd msg) as [|x y].
    - rewrite append_nil_r, app_nil_r. reflexivity.
    - rewrite split_app, Ewords, removelast_last, last_last.
      rewrite (split_field lastWord _ " " Slast), <- app_assoc.
      reflexivity. }
  pose proof (wordsAfter_opens msg Hmsg) as Hnext.
  rewrite (parseRFC5424_bracket _ _ _ _ ts host app procid msgid
             (split element " " ++ wordsAfter msg) Hsplit Tts Thost Tapp).
  2:{ destruct (split element " ") as [|w0 tl]; [discriminate|exact Hhd]. }
  cbn [message structuredData hostname appName procId msgId].
  rewrite Ewords, <- app_assoc. cbn [List.app].
  rewrite (findMessageStartFrom_closed front 5 lastWord (wordsAfter msg)
             Hfront Hlast Hnext).
  replace (5 + length front + 1 - 5)%nat with (length (front ++ [lastWord]))
    by (rewrite length_app; cbn; lia).
  replace (front ++ lastWord :: wordsAfter msg)
    with ((front ++ [lastWord]) ++ wordsAfter msg)
    by (rewrite <- app_assoc; reflexivity).
  rewrite drop_app_length, wordsAfter_message.
  split; [reflexivity|]. split; [|auto].
  (* the structured data *)
  rewrite <- app_assoc. cbn [List.app].
  unfold recordedElement, collapseSpaces. rewrite Ewords.
  assert (Hopen : startsWith (List.hd EmptyString (front ++ [lastWord])) "["
                  = true)
    by (rewrite <- Ewords; exact Hhd).
  rewrite (structuredDataLoop_element front lastWord (wordsAfter msg)
             Hopen Hfront Hlast Hnext).
  destruct (sdMatch rt _) as [[sdId params]|]; [|reflexivity].
  destruct (truthy sdId && negb _); [|reflexivity].
  unfold StructuredData.
  rewrite map_size_insert_None by apply lookup_empty. reflexivity.
Qed.

End Rfc5424.

Section Rfc5424Sample.
Import JS Parser Wording Format.

Lemma rfc5424_fields_witness :
  let m := parseAtZero
             ("<131>1 2024-01-01T00:00:00.000Z server1.local app - - "
              +:+ "Error: Database connection failed") in
  facility m = Num 16 /\ severity m = Num 3 /\
  hostname m = "server1.local" /\ appName m = "app" /\ procId m = None /\
  message m = "Database connection failed".
Proof.
  destruct (rfc5424_fields quietRuntime "131" "2024-01-01T00:00:00.000Z"
              "server1.local" "app" "-" "-" "Error:"
              "Database connection failed"
              ltac:(discriminate) eq_refl eq_refl eq_refl eq_refl eq_refl
              eq_refl eq_refl eq_refl)
    as (Hfs & _ & _ & Hh & Ha & Hp & _ & _ & Hm).
  destruct (Hfs ltac:(vm_compute; discriminate)) as [Hf Hs].
  exact (conj Hf (conj Hs (conj Hh (conj Ha (conj Hp Hm))))).
Defined.

Lemma unclosed_bracket_empties_message_witness :
  let m := parseAtZero
             "<13>1 2024-01-01T00:00:00Z host app 17 - [warn disk is full" in
  message m = EmptyString /\ structuredData m = None.
Proof.
  destruct (unclosed_bracket_empties_message quietRuntime "13"
              "2024-01-01T00:00:00Z" "host" "app" "17" "-" "[warn"
              "disk is full"
              ltac:(discriminate) eq_refl eq_refl eq_refl eq_refl eq_refl
              eq_refl eq_refl eq_refl eq_refl eq_refl)
    as (Hm & Hs & _).
  exact (conj Hm Hs).
Defined.

Lemma rfc5424_structured_data_witness :
  let m := parse (Classic.withElementPattern quietRuntime)
             ("<165>1 2003-10-11T22:14:15.003Z mymachine evntslog - ID47 "
              +:+ "[origin  ip=10.0.0.1 software=evntslog] An event ") in
  message m = "An event" /\
  structuredData m = Some (<["origin" := ∅]> ∅) /\
  Classic.elementPattern "[origin ip=10.0.0.1 software=evntslog]"
  = Some ("origin", " ip=10.0.0.1 software=evntslog") /\
  msgId m = Some "ID47".
Proof.
  destruct (rfc5424_structured_data (Classic.withElementPattern quietRuntime) "165"
              "2003-10-11T22:14:15.003Z" "mymachine" "evntslog" "-" "ID47"
              "origin  ip=10.0.0.1 software=evntslog" "An event "
              ltac:(discriminate) eq_refl eq_refl eq_refl eq_refl eq_refl
              eq_refl eq_refl eq_refl)
    as (Hm & Hs & _ & _ & _ & Hi).
  split; [exact Hm|]. split; [|split; [reflexivity|exact Hi]].
  etransitivity; [exact Hs|]. vm_compute. reflexivity.
Defined.

(** An element named [__proto__] leaves no structured data. *)
Lemma proto_element_is_dropped :
  let m := parse (Classic.withElementPattern quietRuntime)
             ("<165>1 2003-10-11T22:14:15.003Z mymachine evntslog - ID47 "
              +:+ "[__proto__ ip=10.0.0.1] An event") in
  Classic.elementPattern "[__proto__ ip=10.0.0.1]"
  = Some ("__proto__", " ip=10.0.0.1") /\
  structuredData m = None /\ message m = "An event".
Proof. vm_compute. repeat split; reflexivity. Qed.

End Rfc5424Sample.

(** ** What every parsed record satisfies, and what becomes of it *)

Section Records.
Import JS Exn Parser Wording Format Names Ingest.
Variable rt : Runtime.

(** The three ways [parse] produces its record. *)
Lemma parse_cases (rawMessage : string) :
  parse rt rawMessage = fallbackOf (now rt) (trim rawMessage) \/
  (exists f s content,
     parse rt rawMessage = parseRFC5424 rt (trim rawMessage) f s content) \/
  (exists f s content,
     parse rt rawMessage = parseRFC3164 rt (trim rawMessage) f s content).
Proof.
  unfold Parser.parse. destruct (startsWith _ "<"); [|left; reflexivity].
  destruct (0 <? _); [|left; reflexivity].
  destruct (startsWith _ "1 "); right; [left|right]; eauto.
Qed.

Lemma orElse_nonempty (a : option string) (b : string) :
  b <> EmptyString -> orElse a b <> EmptyString.
Proof.
  intros Hb. unfold orElse. destruct a as [[|c s]|]; cbn; congruence.
Qed.

Lemma parseRFC5424_record (raw : string) (f s : number) (content : string) :
  let m := parseRFC5424 rt raw f s content in
  hostname m <> EmptyString /\ appName m <> EmptyString /\
  Parser.raw m = raw /\ version m = Some 1 /\
  procId m <> Some "-" /\ msgId m <> Some "-" /\
  exists ts, timestamp m = parseTimestamp rt ts.
Proof.
  unfold parseRFC5424.
  set (parts := split content " ").
  assert (Hopt : forall o : option string,
            (if decide (o = Some "-") then None else o) <> Some "-").
  { intros o. destruct (decide _) as [E|E]; [discriminate|exact E]. }
  destruct (parts !! 5%nat) as [p5|];
    [destruct (truthy p5 && negb (p5 =? "-")%string && startsWith p5 "[")|];
    cbn [hostname appName Parser.raw version procId msgId timestamp];
    (split; [apply orElse_nonempty; discriminate|]);
    (split; [apply orElse_nonempty; discriminate|]);
    (split; [reflexivity|]); (split; [reflexivity|]);
    (split; [apply Hopt|]); (split; [apply Hopt|]); eauto.
Qed.

Lemma parseRFC3164_record (raw : string) (f s : number) (content : string) :
  let m := parseRFC3164 rt raw f s content in
  hostname m <> EmptyString /\ appName m <> EmptyString /\
  Parser.raw m = raw /\ version m = None /\
  (timestamp m = InvalidDate ->
   exists stamp matched,
     timestampMatch rt content = Some (stamp, matched) /\
     newDate rt (stamp +:+ " " +:+ currentYear rt) = InvalidDate).
Proof.
  unfold parseRFC3164.
  destruct (timestampMatch rt content) as [[stamp matched]|];
    destruct (hostAppMatch rt _) as [[[[g1 g2] g3] g4]|];
    cbn [hostname appName Parser.raw version timestamp];
    repeat (split; [first [apply orElse_nonempty; discriminate
                          |discriminate|reflexivity]|]);
    first [discriminate | intros H; eauto].
Qed.

Lemma parseTimestamp_valid (text : string) :
  parseTimestamp rt text <> InvalidDate.
Proof.
  unfold parseTimestamp. destruct (String.eqb text "-"); [discriminate|].
  destruct (newDate rt text); discriminate.
Qed.

Lemma parse_record (rawMessage : string) :
  let m := parse rt rawMessage in
  hostname m <> EmptyString /\ appName m <> EmptyString /\
  raw m = trim rawMessage /\
  (version m = Some 1 \/ version m = None) /\
  (version m = Some 1 -> procId m <> Some "-" /\ msgId m <> Some "-") /\
  (timestamp m = InvalidDate ->
   version m = None /\
   exists content stamp matched,
     timestampMatch rt content = Some (stamp, matched) /\
     newDate rt (stamp +:+ " " +:+ currentYear rt) = InvalidDate).
Proof.
  cbv zeta.
  destruct (parse_cases rawMessage)
    as [->|[(f & s & content & ->)|(f & s & content & ->)]].
  - cbn. split; [discriminate|]. split; [discriminate|].
    split; [reflexivity|]. split; [right; reflexivity|].
    split; discriminate.
  - destruct (parseRFC5424_record (trim rawMessage) f s content)
      as (Hh & Ha & Hr & Hv & Hp & Hm & ts & Ht).
    split; [exact Hh|]. split; [exact Ha|]. split; [exact Hr|].
    split; [left; exact Hv|]. split; [auto|].
    intros Hinv. rewrite Ht in Hinv. destruct (parseTimestamp_valid _ Hinv).
  - destruct (parseRFC3164_record (trim rawMessage) f s content)
      as (Hh & Ha & Hr & Hv & Ht).
    split; [exact Hh|]. split; [exact Ha|]. split; [exact Hr|].
    split; [right; exact Hv|]. split; [rewrite Hv; discriminate|].
    intros Hinv. split; [exact Hv|].
    destruct (Ht Hinv) as (stamp & matched & H1 & H2). eauto.
Qed.

(** When the time stamp of the record is not a valid date. *)
Lemma parse_timestamp_invalid (rawMessage : string) :
  let content := contentOf rawMessage in
  timestamp (parse rt rawMessage) = InvalidDate <->
  hasPriority rawMessage = true /\ startsWith content "1 " = false /\
  exists stamp matched,
    timestampMatch rt content = Some (stamp, matched) /\
    newDate rt (stamp +:+ " " +:+ currentYear rt) = InvalidDate.
Proof.
  cbv zeta. unfold Parser.parse, hasPriority, contentOf.
  set (text := trim rawMessage).
  set (content := trim (substringFrom text (Z.to_nat (indexOf text ">" + 1)))).
  destruct (startsWith text "<");
    [|split; [discriminate|intros (H & _); discriminate]].
  destruct (0 <? indexOf text ">");
    [|split; [discriminate|intros (H & _); discriminate]].
  destruct (startsWith content "1 ") eqn:Hv.
  - split; [|intros (_ & H & _); discriminate].
    intros Hinv.
    destruct (parseRFC5424_record text
                (floorDiv (parseInt (substring text 1
                                       (Z.to_nat (indexOf text ">")))) 8)
                (remainder (parseInt (substring text 1
                                        (Z.to_nat (indexOf text ">")))) 8)
                (substringFrom content 2))
      as (_ & _ & _ & _ & _ & _ & ts & Ht).
    rewrite Ht in Hinv. destruct (parseTimestamp_valid _ Hinv).
  - unfold parseRFC3164.
    destruct (timestampMatch rt content) as [[stamp matched]|];
      destruct (hostAppMatch rt _) as [[[[g1 g2] g3] g4]|];
      cbn [timestamp andb]; split;
      try discriminate;
      try (intros H; split; [reflexivity|]; split; [reflexivity|]; eauto);
      intros (_ & _ & stamp' & matched' & Hm & Hd);
      first [discriminate | injection Hm as <- <-; exact Hd].
Qed.

(** X13.  Whatever the input, the record [parse] returns has a host
    name and an application name that are not empty, and as raw text the
    trimmed input.  A record of version 1 never has the nil value [-] as
    process id or message id.  The time stamp of the record is a valid
    date, except in one case, and in that case it is not: the message has
    a priority part, the text after it does not start with the version,
    the pattern for the classic time stamp matches that text, and the
    matched text followed by the current year is not a readable date. *)
Theorem parse_record_invariants (rawMessage : string) :
  let m := parse rt rawMessage in
  let content := contentOf rawMessage in
  hostname m <> EmptyString /\ appName m <> EmptyString /\
  raw m = trim rawMessage /\
  (version m = Some 1 \/ version m = None) /\
  (version m = Some 1 -> procId m <> Some "-" /\ msgId m <> Some "-") /\
  (timestamp m = InvalidDate <->
   hasPriority rawMessage = true /\ startsWith content "1 " = false /\
   exists stamp matched,
     timestampMatch rt content = Some (stamp, matched) /\
     newDate rt (stamp +:+ " " +:+ currentYear rt) = InvalidDate).
Proof.
  destruct (parse_record rawMessage) as (Hh & Ha & Hr & Hv & Hp & _).
  cbv zeta. repeat (split; [assumption|]).
  apply parse_timestamp_invalid.
Qed.

(** X14.  What [processMessage] does with a message.  When the time
    stamp of the parsed record is not a valid date, the conversion of the
    time to text fails before the insert statement is run: the failure is
    caught, and the message is dropped without a trace in the log store.
    Otherwise the statement is run once; unless the engine fails, exactly
    one row is appended, with the fields of the record, an empty process
    id or message id stored as NULL, and as raw text the message as it was
    framed, not trimmed. *)
Theorem processMessage_row (db : Sqlite) (rawMessage : string) (logs : Logs) :
  let m := parse rt rawMessage in
  let logs' := processMessage rt db rawMessage logs in
  (timestamp m = InvalidDate -> logs' = logs) /\
  (forall ms, timestamp m = DateAt ms ->
     runs logs' = S (runs logs) /\
     (runThrows db (runs logs) = true -> rows logs' = rows logs) /\
     (runThrows db (runs logs) = false ->
      rows logs' =
      rows logs ++
      [{| row_timestamp := ms; row_facility := facility m;
          row_severity := severity m; row_hostname := hostname m;
          row_appName := appName m; row_procId := orNull (procId m);
          row_msgId := orNull (msgId m); row_message := message m;
          row_raw := rawMessage |}] /\
      orNull (procId m) <> Some EmptyString /\
      hostname m <> EmptyString)).
Proof.
  cbv zeta. unfold processMessage, insertLog. cbn [log_timestamp]. split.
  - intros ->. reflexivity.
  - intros ms ->. cbn [toISOString].
    destruct (runThrows db (runs logs)) eqn:E; cbn [snd runs rows].
    + split; [reflexivity|]. split; [reflexivity|discriminate].
    + split; [reflexivity|]. split; [discriminate|]. intros _.
      split; [reflexivity|]. split.
      * unfold orNull. destruct (procId _) as [[|c s]|]; discriminate.
      * apply (parse_record rawMessage).
Qed.

End Records.

(** ** Severity names *)

Section SeverityNames.
Import JS Parser Wording Names.
Variable rt : Runtime.

(** X15.  The severity of a record parsed from a priority from 0 to
    2^53 has one of the eight names of the table: [getSeverityName] does
    not fall back to the text made of the word severity and the number.
    For a negative priority down to -2^53 that is not a multiple of 8 it
    does. *)
Theorem severity_name_of_priority (show : number -> string)
    (rawMessage : string) (P : Z) :
  let text := trim rawMessage in
  startsWith text "<" = true ->
  0 < indexOf text ">" ->
  parseInt (substring text 1 (Z.to_nat (indexOf text ">"))) = Num P ->
  let name := getSeverityName show (severity (parse rt rawMessage)) in
  (0 <= P <= maxExact ->
   In name ["Emergency"; "Alert"; "Critical"; "Error"; "Warning"; "Notice";
            "Informational"; "Debug"]) /\
  (- maxExact <= P < 0 -> Z.rem P 8 <> 0 ->
   name = "severity" +:+ show (Num (Z.rem P 8))).
Proof.
  intros text Hstart Hend Hpri name.
  destruct (priority_of_parse rt rawMessage P Hstart Hend Hpri) as [_ Hs].
  unfold name. rewrite Hs. split.
  - intros HP. rewrite Z.rem_mod_nonneg by lia.
    pose proof (Z.mod_pos_bound P 8 ltac:(lia)) as Hb.
    assert (Hcases : P mod 8 = 0 \/ P mod 8 = 1 \/ P mod 8 = 2 \/
                     P mod 8 = 3 \/ P mod 8 = 4 \/ P mod 8 = 5 \/
                     P mod 8 = 6 \/ P mod 8 = 7) by lia.
    destruct Hcases as [->|[->|[->|[->|[->|[->|[->| ->]]]]]]]; cbn; auto 10.
  - intros HP Hr.
    pose proof (Z.rem_nonpos P 8 ltac:(lia) ltac:(lia)) as Hle.
    unfold getSeverityName.
    destruct (Z.rem P 8) as [|p|p] eqn:E; [contradiction|lia|reflexivity].
Qed.

End SeverityNames.

Section SeverityNamesSample.
Import JS Parser Wording Names.

Lemma severity_name_of_priority_witness :
  In (getSeverityName (fun _ => "?")
        (severity (parseAtZero "<131>1 - host app - - - failed")))
     ["Emergency"; "Alert"; "Critical"; "Error"; "Warning"; "Notice";
      "Informational"; "Debug"].
Proof.
  apply (proj1 (severity_name_of_priority quietRuntime (fun _ => "?")
                  "<131>1 - host app - - - failed" 131
                  eq_refl eq_refl eq_refl)).
  vm_compute. split; discriminate.
Defined.

End SeverityNamesSample.

(** ** Time windows and validated rules *)

Section TimeWindows.
Import JS Exn Config Wording.

Lemma parseTimeWindow_unit (digits : string) (u : ascii) :
  digits <> EmptyString -> allDigits digits = true -> isDigit u = false ->
  parseTimeWindow (digits +:+ String u EmptyString) =
  if Ascii.eqb u "m" then inr (digitsValue digits * 60 * 1000)
  else if Ascii.eqb u "h" then inr (digitsValue digits * 60 * 60 * 1000)
  else if Ascii.eqb u "d"
       then inr (digitsValue digits * 24 * 60 * 60 * 1000)
       else inl (Throw ("Invalid time window format: "
                        +:+ digits +:+ String u EmptyString)).
Proof.
  intros Hne Hall Hunit. unfold parseTimeWindow.
  rewrite (spanDigits_all digits (String u EmptyString) Hall Hunit).
  destruct digits as [|d ds]; [contradiction|].
  rewrite (parseInt_digits _ Hne Hall). reflexivity.
Qed.

(** The shape of a text the pattern of [parseTimeWindow] matches up to the
    u. *)
Lemma parseTimeWindow_shape (window : string) (ms : Z) :
  parseTimeWindow window = inr ms ->
  exists digits u,
    window = digits +:+ String u EmptyString /\
    digits <> EmptyString /\ allDigits digits = true /\ isDigit u = false.
Proof.
  unfold parseTimeWindow.
  pose proof (spanDigits_allDigits window) as Hall.
  pose proof (spanDigits_append window) as Happ.
  destruct (spanDigits window) as [[|d ds] [|u [|c rest]]];
    try discriminate.
  cbn [fst snd] in *.
  rewrite (parseInt_digits (String d ds) ltac:(discriminate) Hall).
  intros H. exists (String d ds), u.
  split; [symmetry; exact Happ|]. split; [discriminate|].
  split; [exact Hall|].
  destruct (Ascii.eqb_spec u "m") as [->|_]; [reflexivity|].
  destruct (Ascii.eqb_spec u "h") as [->|_]; [reflexivity|].
  destruct (Ascii.eqb_spec u "d") as [->|_]; [reflexivity|discriminate].
Qed.

Lemma parseTimeWindow_error (window : string) (e : Error) :
  parseTimeWindow window = inl e ->
  e = Throw ("Invalid time window format: " +:+ window).
Proof.
  unfold parseTimeWindow.
  destruct (spanDigits window) as [[|d ds] [|u [|c rest]]];
    try (intros [= <-]; reflexivity).
  destruct (parseInt _); [intros [= <-]; reflexivity|].
  destruct (Ascii.eqb u "m"); [discriminate|].
  destruct (Ascii.eqb u "h"); [discriminate|].
  destruct (Ascii.eqb u "d"); [discriminate|].
  intros [= <-]. reflexivity.
Qed.

(** X16.  [parseTimeWindow] returns a number of milliseconds exactly
    for the texts made of one or more decimal digits and one of the letters
    m, h and d; there is no sign, no fraction and no white space.  The
    number is the decimal value of the digits times 60000, 3600000 or
    86400000, as long as that product is at most 2^53.  For every other
    text it throws the error that names the text. *)
Theorem parseTimeWindow_accepts (window : string) :
  ((exists ms, parseTimeWindow window = inr ms) <->
   exists digits u,
     window = digits +:+ String u EmptyString /\
     digits <> EmptyString /\ allDigits digits = true /\
     (u = "m"%char \/ u = "h"%char \/ u = "d"%char)) /\
  (forall digits u ms,
     window = digits +:+ String u EmptyString ->
     digits <> EmptyString -> allDigits digits = true ->
     (u = "m"%char /\ ms = digitsValue digits * 60000) \/
     (u = "h"%char /\ ms = digitsValue digits * 3600000) \/
     (u = "d"%char /\ ms = digitsValue digits * 86400000) ->
     ms <= maxExact ->
     parseTimeWindow window = inr ms) /\
  (forall e,
     parseTimeWindow window = inl e ->
     e = Throw ("Invalid time window format: " +:+ window)).
Proof.
  split; [|split].
  - split.
    + intros [ms H].
      destruct (parseTimeWindow_shape _ _ H)
        as (digits & u & -> & Hne & Hall & Hunit).
      rewrite (parseTimeWindow_unit _ _ Hne Hall Hunit) in H.
      exists digits, u. split; [reflexivity|]. split; [exact Hne|].
      split; [exact Hall|].
      destruct (Ascii.eqb_spec u "m") as [E|_]; [left; exact E|].
      destruct (Ascii.eqb_spec u "h") as [E|_]; [right; left; exact E|].
      destruct (Ascii.eqb_spec u "d") as [E|_];
        [right; right; exact E|discriminate].
    + intros (digits & u & -> & Hne & Hall & [-> | [-> | ->] ]).
      * rewrite (parseTimeWindow_unit digits "m" Hne Hall eq_refl).
        cbn. eauto.
      * rewrite (parseTimeWindow_unit digits "h" Hne Hall eq_refl).
        cbn. eauto.
      * rewrite (parseTimeWindow_unit digits "d" Hne Hall eq_refl).
        cbn. eauto.
  - intros digits u ms -> Hne Hall Hunit _.
    destruct Hunit as [[-> ->] | [[-> ->] | [-> ->] ] ].
    + rewrite (parseTimeWindow_unit digits "m" Hne Hall eq_refl).
      cbn. f_equal. lia.
    + rewrite (parseTimeWindow_unit digits "h" Hne Hall eq_refl).
      cbn. f_equal. lia.
    + rewrite (parseTimeWindow_unit digits "d" Hne Hall eq_refl).
      cbn. f_equal. lia.
  - intros e. apply parseTimeWindow_error.
Qed.

Lemma parseTimeWindow_accepts_witness :
  parseTimeWindow "15m" = inr 900000 /\
  exists digits u,
    "15m" = digits +:+ String u EmptyString /\
    digits <> EmptyString /\ allDigits digits = true /\
    (u = "m"%char \/ u = "h"%char \/ u = "d"%char).
Proof.
  destruct (parseTimeWindow_accepts "15m") as (Hshape & Hvalue & _).
  split.
  - apply (Hvalue "15" "m"%char 900000 eq_refl).
    + discriminate.
    + reflexivity.
    + left. split; reflexivity.
    + vm_compute. discriminate.
  - apply Hshape. exists 900000. reflexivity.
Defined.

Lemma isTimeWindow_parses (text : string) :
  isTimeWindow text = true ->
  exists ms, parseTimeWindow text = inr ms /\ 0 <= ms.
Proof.
  unfold isTimeWindow.
  pose proof (spanDigits_allDigits text) as Hall.
  pose proof (spanDigits_append text) as Happ.
  destruct (spanDigits text) as [[|d ds] [|u [|c rest]]];
    try discriminate.
  cbn [fst snd] in *. intros Hunit.
  assert (exists ms, parseTimeWindow text = inr ms) as [ms Hms].
  { rewrite <- Happ.
    assert (Hnd : isDigit u = false).
    { destruct (Ascii.eqb_spec u "m") as [->|_]; [reflexivity|].
      destruct (Ascii.eqb_spec u "h") as [->|_]; [reflexivity|].
      destruct (Ascii.eqb_spec u "d") as [->|_];
        [reflexivity|discriminate]. }
    rewrite (parseTimeWindow_unit (String d ds) u ltac:(discriminate)
               Hall Hnd).
    destruct (Ascii.eqb u "m"); [eauto|].
    destruct (Ascii.eqb u "h"); [eauto|].
    destruct (Ascii.eqb u "d"); [eauto|discriminate]. }
  exists ms. split; [exact Hms|].
  exact (parseTimeWindow_nonneg _ _ Hms).
Qed.

End TimeWindows.

Section ValidatedRules.
Import JS Exn Config Effects Update Database Webhook AlertEngine Spec Wording.
Local Open Scope Q_scope.

Lemma isTimeWindow_truthy (text : string) :
  isTimeWindow text = true -> truthy text = true.
Proof. destruct text; [discriminate|reflexivity]. Qed.

Lemma isOperator_spec (operator : string) :
  isOperator operator = true ->
  operator ∈ ["gt"; "gte"; "lt"; "lte"; "eq"] /\ truthy operator = true.
Proof.
  unfold isOperator. intros H.
  repeat (apply orb_true_iff in H as [H|H]);
    apply String.eqb_eq in H; subst; split; try reflexivity; set_solver.
Qed.

(** What validation by the schema guarantees about a rule. *)
Lemma AlertRuleSchema_valid (isUrl : string -> bool) (d : RuleDefinition)
    (rule : AlertRule) :
  AlertRuleSchema isUrl d = Some rule ->
  isTimeWindow (window rule) = true /\
  isTimeWindow (orElse (cooldown rule) "5m") = true /\
  0 < threshold rule /\
  isOperator (orElse (operator rule) "gt") = true /\
  isUrl (webhook rule) = true.
Proof.
  unfold AlertRuleSchema.
  destruct (isTimeWindow (def_window d)) eqn:Hw; [|discriminate].
  destruct (negb (Qle_bool (def_threshold d) 0)) eqn:Ht; [|discriminate].
  destruct (isOperator (default "gt" (def_operator d))) eqn:Ho;
    [|discriminate].
  destruct (isUrl (def_webhook d)) eqn:Hu; [|discriminate].
  destruct (isTimeWindow (default "5m" (def_cooldown d))) eqn:Hc;
    [|discriminate].
  cbn [andb]. intros [= <-].
  cbn [window cooldown threshold operator webhook]. unfold orElse.
  rewrite (isTimeWindow_truthy _ Hc).
  rewrite (proj2 (isOperator_spec _ Ho)).
  split; [exact Hw|]. split; [exact Hc|].
  split; [apply Qgt_bool_iff; exact Ht|]. split; [exact Ho|exact Hu].
Qed.

Section WithOutside.
Variable out : Outside.

(** With a readable window and cooldown, a check can fail only in the
    insert into the alert history. *)
Lemma checkRule_failure (rule : AlertRule) (w : World) (e : Error) :
  (exists ms, parseTimeWindow (window rule) = inr ms) ->
  (exists ms, parseTimeWindow (orElse (cooldown rule) "5m") = inr ms) ->
  fst (checkRule out rule w) = inl e -> e = Throw "SQLiteError".
Proof.
  intros [windowMs Hw] [cooldownMs Hc]. rewrite checkRule_unfold.
  assert (Heval : forall w1, fst (evaluate out rule w1) = inl e ->
                             e = Throw "SQLiteError").
  { intros w1. rewrite (evaluate_eq out _ _ _ Hw). cbv zeta.
    destruct (checkThreshold _ _ _); [|discriminate].
    case_delivered Hd; [|discriminate].
    unfold insertAlertHistory, prepareRun.
    destruct (sqliteRunThrows out _); [|discriminate].
    intros [= <-]. reflexivity. }
  destruct (lastAlertTimes w !! name rule) as [t|] eqn:Ht.
  - rewrite (isInCooldown_some out _ _ _ _ Ht Hc).
    destruct (validTime _ && _); [discriminate|apply Heval].
  - rewrite (isInCooldown_none out _ _ Ht). apply Heval.
Qed.

End WithOutside.

(** X17.  A rule that the schema accepted never makes the engine fail
    on its texts.  Its window and its cooldown are read by
    [parseTimeWindow] without error, as spans that are not negative; its
    threshold is positive; its operator is one of the five.  When the
    window is no longer than the range of a date and the clock reads times
    from 1970 on within that range, so that the start of the window is a
    date, a check of the rule can therefore throw in one place only, the
    insert into the alert history after a delivered alert. *)
Theorem validated_rule_never_fails_to_parse (isUrl : string -> bool)
    (d : RuleDefinition) (rule : AlertRule) :
  AlertRuleSchema isUrl d = Some rule ->
  (exists windowMs,
     parseTimeWindow (window rule) = inr windowMs /\ (0 <= windowMs)%Z) /\
  (exists cooldownMs,
     parseTimeWindow (orElse (cooldown rule) "5m") = inr cooldownMs /\
     (0 <= cooldownMs)%Z) /\
  0 < threshold rule /\
  orElse (operator rule) "gt" ∈ ["gt"; "gte"; "lt"; "lte"; "eq"] /\
  (forall (out : Outside) (w : World) (e : Error) (windowMs : Z),
     parseTimeWindow (window rule) = inr windowMs ->
     (windowMs <= maxTime)%Z ->
     (forall n, (0 <= clock out n <= maxTime)%Z) ->
     fst (checkRule out rule w) = inl e -> e = Throw "SQLiteError").
Proof.
  intros H. destruct (AlertRuleSchema_valid _ _ _ H)
    as (Hw & Hc & Ht & Ho & _).
  destruct (isTimeWindow_parses _ Hw) as (windowMs & Hwp & Hwn).
  destruct (isTimeWindow_parses _ Hc) as (cooldownMs & Hcp & Hcn).
  split; [eauto|]. split; [eauto|]. split; [exact Ht|].
  split; [apply isOperator_spec; exact Ho|].
  intros out w e ms _ _ _. apply checkRule_failure; eauto.
Qed.

(** X18.  An alert of a rule that watches for low counts is always of
    severity info.  When the threshold is positive and the check holds for
    the operator [lt], [lte] or [eq], the count is at most the threshold,
    so that the ratio of the two stays below 1.5: the severities warning
    and critical are out of reach of these three operators. *)
Theorem low_side_alerts_are_info (count threshold : Q) (operator : string) :
  0 < threshold ->
  operator ∈ ["lt"; "lte"; "eq"] ->
  checkThreshold count threshold operator = true ->
  getSeverity count threshold = info.
Proof.
  intros Ht Hop Hcheck.
  assert (Hle : count <= threshold).
  { unfold checkThreshold in Hcheck.
    apply elem_of_cons in Hop as [->|Hop];
      [cbn in Hcheck; apply Qgt_bool_iff in Hcheck; lra|].
    apply elem_of_cons in Hop as [->|Hop];
      [cbn in Hcheck; apply Qle_bool_iff in Hcheck; exact Hcheck|].
    apply elem_of_cons in Hop as [->|Hop]; [|inversion Hop].
    cbn in Hcheck. apply Qeq_bool_iff in Hcheck. lra. }
  assert (Hratio : count / threshold <= 1).
  { apply Qle_shift_div_r; [exact Ht|]. lra. }
  assert (Hhalf : halfUlp == 1 # 9007199254740992)
    by (vm_compute; reflexivity).
  assert (Hnz : ~ threshold == 0) by lra.
  unfold getSeverity. cbv zeta.
  rewrite (atLeast_two _ _ Hnz), (atLeast_three_halves _ _ Hnz).
  destruct (Qle_bool (2 - halfUlp) (count / threshold)) eqn:E2;
    [apply Qle_bool_iff in E2; lra|].
  destruct (Qle_bool (1.5 - halfUlp) (count / threshold)) eqn:E1;
    [apply Qle_bool_iff in E1; lra|].
  reflexivity.
Qed.

Lemma validated_rule_never_fails_to_parse_witness :
  exists windowMs,
    parseTimeWindow "15m" = inr windowMs /\ (0 <= windowMs)%Z.
Proof.
  apply (proj1 (validated_rule_never_fails_to_parse (fun _ => true)
           {| def_name := "errors"; def_enabled := Some true;
              def_window := "15m"; def_query := "severity <= 3";
              def_threshold := 10; def_operator := None;
              def_webhook := "http://localhost:8080/hook";
              def_headers := None; def_cooldown := None |}
           _ eq_refl)).
Defined.

Lemma low_side_alerts_are_info_witness :
  getSeverity 0 5 = info.
Proof.
  apply (low_side_alerts_are_info 0 5 "lt").
  - reflexivity.
  - refine (bool_decide_unpack _ _). vm_compute. exact I.
  - reflexivity.
Defined.

End ValidatedRules.

(** ** The trace of the alert engine *)

Section EngineTrace.
Import JS Exn Config Effects Update Database Webhook AlertEngine Spec Trace.
Variable out : Outside.
Variable config : Config.

(** A property of the world that every step of the engine keeps, once
    setting the flag and checking an enabled rule keep it. *)
Lemma step_invariant (I : World -> Prop) :
  (forall w b, I w -> I (setRunning b w)) ->
  (forall w rule, rule ∈ getAlertRules config -> I w ->
                  I (checkNext out w rule)) ->
  forall s e,
    fromConfig config s -> I (world s) ->
    fromConfig config (step out config s e) /\
    I (world (step out config s e)).
Proof.
  intros Hflag Hcheck s e Hb Hw. destruct e as [|i]; cbn [AlertEngine.step].
  - unfold AlertEngine.onTick. destruct (timer s); [|tauto].
    destruct (negb _); [|tauto]. unfold runChecks.
    destruct (length (getAlertRules config) =? 0)%nat; cbn [world batches].
    + split; [exact Hb|]. auto.
    + split; [|auto]. unfold fromConfig. cbn [batches].
      apply Forall_app. split; [exact Hb|]. constructor; [auto|constructor].
  - unfold AlertEngine.onResume.
    destruct (batches s !! i) as [[|rule rest]|] eqn:Hi; try tauto.
    pose proof (Forall_lookup_1 _ _ _ _ Hb Hi) as Hbatch. cbn beta in Hbatch.
    assert (Hin : rule ∈ getAlertRules config) by (apply Hbatch; left).
    pose proof (Hcheck (world s) rule Hin Hw) as Hw'.
    unfold checkNext in Hw'.
    destruct (checkGuarded out rule _) as [r w']. cbn [snd] in Hw'.
    destruct rest as [|rule' rest]; cbn [world batches].
    + split; [|auto]. unfold fromConfig. cbn [batches].
      apply Forall_delete. exact Hb.
    + split; [|exact Hw']. unfold fromConfig. cbn [batches].
      apply Forall_insert; [exact Hb|].
      intros r' Hr'. apply Hbatch. right. exact Hr'.
Qed.

Lemma run_invariant (I : World -> Prop) :
  (forall w b, I w -> I (setRunning b w)) ->
  (forall w rule, rule ∈ getAlertRules config -> I w ->
                  I (checkNext out w rule)) ->
  I initialWorld ->
  forall events, I (world (run out config (started config) events)).
Proof.
  intros Hflag Hcheck Hinit events.
  assert (Hgen : forall s, fromConfig config s -> I (world s) ->
                           I (world (run out config s events))).
  { induction events as [|e events IH]; intros s Hb Hw; [exact Hw|].
    rewrite run_cons.
    destruct (step_invariant I Hflag Hcheck s e Hb Hw) as [Hb' Hw'].
    apply IH; assumption. }
  apply Hgen.
  - apply (spacing_started out config).
  - unfold started, start. destruct (alerting_enabled _); exact Hinit.
Qed.

(** The check of one rule of a batch, from a property of the three
    traces that an evaluation keeps. *)
Lemma checkNext_keeps (I : World -> Prop) (rule : AlertRule) :
  (forall w w',
     countQueries w' = countQueries w -> requests w' = requests w ->
     alertHistory w' = alertHistory w -> I w -> I w') ->
  (forall w, I w -> I (snd (evaluate out rule w))) ->
  forall w, I w -> I (checkNext out w rule).
Proof.
  intros Hsame Heval w Hw. unfold checkNext.
  rewrite checkGuarded_eq, checkRule_unfold. cbn [snd].
  assert (Hw0 : I (logChecked (name rule) w))
    by (apply (Hsame w); auto).
  destruct (isInCooldown out rule _) as [[e|[|]] w1] eqn:Hc;
    apply isInCooldown_world in Hc; destruct Hc as [_ _ _ Hq Hh Hr _];
    cbn [snd]; try (apply (Hsame (logChecked (name rule) w)); auto; fail).
  apply Heval. apply (Hsame (logChecked (name rule) w)); auto.
Qed.

Lemma requestOf_justified (rule : AlertRule) (count : Q)
    (endTime windowMs stamp : Z) :
  rule ∈ getAlertRules config ->
  parseTimeWindow (window rule) = inr windowMs ->
  checkThreshold count (threshold rule) (orElse (operator rule) "gt") = true ->
  justifiedRequest config
    (requestOf out rule count (endTime - windowMs) endTime stamp).
Proof.
  intros Hin Hw Hc. exists rule, windowMs. cbn.
  repeat (split; [first [assumption | reflexivity | lia]|]).
  intros key. rewrite lookup_union.
  destruct (default ∅ (headers rule) !! key);
    destruct (defaultHeaders !! key); reflexivity.
Qed.

Lemma evaluate_justified (rule : AlertRule) (w : World) :
  rule ∈ getAlertRules config ->
  Forall (justifiedQuery config) (countQueries w) /\
  Forall (justifiedRequest config) (requests w) ->
  Forall (justifiedQuery config) (countQueries (snd (evaluate out rule w))) /\
  Forall (justifiedRequest config) (requests (snd (evaluate out rule w))).
Proof.
  intros Hin [Hq Hr].
  destruct (parseTimeWindow (window rule)) as [e|windowMs] eqn:Hp.
  { rewrite (evaluate_throws out _ _ _ Hp). auto. }
  rewrite (evaluate_eq out _ _ _ Hp). cbv zeta.
  assert (Hq' : Forall (justifiedQuery config)
                  (countQueries w
                   ++ [(query rule, clock out (clockReads w) - windowMs,
                        clock out (clockReads w))])).
  { apply Forall_app. split; [exact Hq|]. constructor; [|constructor].
    exists rule, windowMs. repeat split; [exact Hin|exact Hp|lia]. }
  destruct (checkThreshold _ _ _) eqn:Hc; [|cbn; auto].
  assert (Hr' : forall stamp,
            Forall (justifiedRequest config)
              (requests w
               ++ [requestOf out rule
                     (countOf out (query rule)
                        (clock out (clockReads w) - windowMs)
                        (clock out (clockReads w)) (tickClock w))
                     (clock out (clockReads w) - windowMs)
                     (clock out (clockReads w)) stamp])).
  { intros stamp. apply Forall_app. split; [exact Hr|].
    constructor; [|constructor].
    apply requestOf_justified; assumption. }
  case_delivered Hd; [|cbn; auto].
  unfold insertAlertHistory, prepareRun.
  destruct (sqliteRunThrows out _); cbn; auto.
Qed.

(** X19.  In every run of the engine, each count query it issued is the
    predicate of an enabled rule of the configuration over a window as long
    as that rule says; and each request it sent is that of an enabled rule
    whose condition the count in the payload meets, went to that rule's
    endpoint, carries the severity computed from that count, and has the
    rule's own headers before the two default ones.  A disabled rule is
    never queried and never alerts. *)
Theorem engine_acts_only_for_enabled_rules (events : list Event) :
  let w := world (run out config (started config) events) in
  Forall (justifiedQuery config) (countQueries w) /\
  Forall (justifiedRequest config) (requests w).
Proof.
  cbv zeta.
  apply (run_invariant
           (fun w => Forall (justifiedQuery config) (countQueries w) /\
                     Forall (justifiedRequest config) (requests w))).
  - intros w b H. exact H.
  - intros w rule Hin H.
    apply (checkNext_keeps
             (fun w => Forall (justifiedQuery config) (countQueries w) /\
                       Forall (justifiedRequest config) (requests w)) rule);
      [|intros w0; apply evaluate_justified; exact Hin|exact H].
    intros w0 w' Eq Er _ H0. rewrite Eq, Er. exact H0.
  - split; constructor.
Qed.

Lemma recordsDelivery_grows (w w' : World) (h : AlertHistory)
    (more : list Request) :
  requests w' = requests w ++ more ->
  recordsDelivery out w h -> recordsDelivery out w' h.
Proof.
  intros Hr (i & request & Hi & H). exists i, request.
  split; [|exact H]. rewrite Hr. apply lookup_app_l_Some. exact Hi.
Qed.

Lemma evaluate_records (rule : AlertRule) (w : World) :
  Forall (recordsDelivery out w) (alertHistory w) ->
  let w' := snd (evaluate out rule w) in
  Forall (recordsDelivery out w') (alertHistory w').
Proof.
  intros Hh.
  assert (Hgrow : forall w' more,
            requests w' = requests w ++ more ->
            alertHistory w' = alertHistory w ->
            Forall (recordsDelivery out w') (alertHistory w')).
  { intros w' more Hr Ha. rewrite Ha.
    eapply Forall_impl; [exact Hh|].
    intros h. apply (recordsDelivery_grows w w' h more Hr). }
  destruct (parseTimeWindow (window rule)) as [e|windowMs] eqn:Hp.
  { rewrite (evaluate_throws out _ _ _ Hp). exact Hh. }
  rewrite (evaluate_eq out _ _ _ Hp). cbv zeta.
  destruct (checkThreshold _ _ _) eqn:Hc.
  2:{ apply (Hgrow _ []); [cbn; rewrite app_nil_r|]; reflexivity. }
  case_delivered Hd.
  2:{ eapply Hgrow; reflexivity. }
  unfold insertAlertHistory, prepareRun.
  destruct (sqliteRunThrows out _); cbn [snd].
  { eapply Hgrow; reflexivity. }
  cbn [alertHistory appendHistory countStatement setLastAlertTimes tickClock
       logRequest afterQuery logCountQuery].
  apply Forall_app. split.
  - eapply Forall_impl; [exact Hh|]. intros h Hrec.
    eapply (recordsDelivery_grows w); [|exact Hrec]. cbn. reflexivity.
  - constructor; [|constructor].
    eexists (length (requests w)), _. split.
    + cbn [requests]. apply list_lookup_middle. reflexivity.
    + split; [exact Hd|]. cbn. auto.
Qed.

(** X20.  In every run of the engine, each row of the alert history
    records a request that was sent and that the endpoint answered with a
    2xx status: a request of the trace with the same alert name, count and
    window.  No alert that failed to reach its endpoint is written to the
    history. *)
Theorem history_records_delivered_alerts (events : list Event) :
  let w := world (run out config (started config) events) in
  Forall (recordsDelivery out w) (alertHistory w).
Proof.
  cbv zeta.
  apply (run_invariant
           (fun w => Forall (recordsDelivery out w) (alertHistory w))).
  - intros w b H. exact H.
  - intros w rule _ H.
    apply (checkNext_keeps
             (fun w => Forall (recordsDelivery out w) (alertHistory w)) rule);
      [|intros w0; apply evaluate_records|exact H].
    intros w0 w' _ Er Eh H0. rewrite Eh.
    eapply Forall_impl; [exact H0|]. intros h.
    apply (recordsDelivery_grows w0 w' h []). rewrite app_nil_r. exact Er.
  - constructor.
Qed.

End EngineTrace.

(** ** Starting and stopping the engine *)

Section StartStop.
Import JS Exn Config Effects Update Database Webhook AlertEngine Spec Trace.
Variable out : Outside.
Variable config : Config.

Lemma setRunning_idle (w : World) :
  isRunning w = false -> setRunning false (setRunning true w) = w.
Proof. destruct w. cbn. intros ->. reflexivity. Qed.

(** X21.  When alerting is disabled in the configuration, or when no
    rule is enabled, the engine never does anything: whatever timer ticks
    and resumptions arrive, its state stays as it was after [start]; no
    clock is read, no query is issued, no request is sent. *)
Theorem engine_without_rules_is_inert (events : list Event) :
  alerting_enabled (alerting config) = false \/ getAlertRules config = [] ->
  run out config (started config) events = started config.
Proof.
  intros H.
  assert (Hstep : forall e,
            step out config (started config) e = started config).
  { intros [|i]; cbn [AlertEngine.step].
    - unfold AlertEngine.onTick, started, start.
      destruct (alerting_enabled (alerting config)) eqn:E; [|reflexivity].
      destruct H as [H|H]; [discriminate|].
      cbn [timer world isRunning initialWorld negb]. unfold runChecks.
      rewrite H. reflexivity.
    - unfold AlertEngine.onResume, started, start.
      destruct (alerting_enabled _); reflexivity. }
  induction events as [|e events IH]; [reflexivity|].
  rewrite run_cons, Hstep. exact IH.
Qed.

Lemma stop_step (s : Scheduler) (e : Event) :
  timer s = false ->
  timer (step out config s e) = false /\
  (length (batches (step out config s e)) <= length (batches s))%nat /\
  (batches s = [] -> step out config s e = s).
Proof.
  intros Ht. destruct e as [|i]; cbn [AlertEngine.step].
  - unfold AlertEngine.onTick. rewrite Ht. auto.
  - unfold AlertEngine.onResume.
    destruct (batches s !! i) as [[|rule rest]|] eqn:Hi;
      try (split; [exact Ht|]; split; [lia|reflexivity]).
    destruct (checkGuarded out rule _) as [r w'].
    destruct rest as [|rule' rest]; cbn [timer batches].
    + split; [exact Ht|]. split; [rewrite length_delete by eauto; lia|].
      intros E. rewrite E in Hi. discriminate.
    + split; [exact Ht|]. split; [rewrite length_insert; lia|].
      intros E. rewrite E in Hi. discriminate.
Qed.

(** X22.  [stop] keeps the timer from starting further batches and
    leaves a batch in progress alone.  After [stop], whatever ticks and
    resumptions arrive, the timer stays off and no batch is added; an
    engine that was idle stays exactly as it is; and a batch that was in
    progress still checks every one of its remaining rules, which can
    still send alerts, before the flag is lowered. *)
Theorem stop_lets_the_batch_finish (s : Scheduler) :
  (forall events,
     timer (run out config (stop s) events) = false /\
     (length (batches (run out config (stop s) events))
      <= length (batches s))%nat) /\
  (batches s = [] ->
   forall events, run out config (stop s) events = stop s) /\
  (forall rules gaps,
     rules <> [] -> length gaps = length rules ->
     batches s = [rules] -> isRunning (world s) = true ->
     run out config (stop s) (batchEvents gaps) =
     {| world := setRunning false (fold_left (checkNext out) rules (world s));
        timer := false; batches := [] |}).
Proof.
  split; [|split].
  - intros events.
    assert (Hgen : forall s', timer s' = false ->
              timer (run out config s' events) = false /\
              (length (batches (run out config s' events))
               <= length (batches s'))%nat).
    { induction events as [|e events IH]; intros s' Ht; [cbn; auto|].
      rewrite run_cons. destruct (stop_step s' e Ht) as (Ht' & Hl & _).
      destruct (IH _ Ht') as [Ht'' Hl']. split; [exact Ht''|lia]. }
    apply (Hgen (stop s)). reflexivity.
  - intros Hb events. induction events as [|e events IH]; [reflexivity|].
    rewrite run_cons.
    destruct (stop_step (stop s) e eq_refl) as (_ & _ & Hsame).
    rewrite (Hsame Hb). exact IH.
  - intros rules gaps Hne Hlen Hb Hr.
    apply (run_batch out config rules gaps (stop s) Hne Hlen Hb Hr).
Qed.

End StartStop.

(** ** The cooldown at its end, and a failing history insert *)

Section CooldownEnd.
Import JS Exn Config Effects Update Database Webhook AlertEngine Spec Trace.
Variable out : Outside.




(** X25.  A rule whose texts cannot be read.  With an unreadable
    window, a check of the rule that passes the cooldown gate fails with
    the error that names the text, before any query; the loop of the batch
    catches the failure; and the queries, the requests, the history and the
    tracker stay as they are.  With an unreadable cooldown the rule is
    checked as long as it has not alerted; once the tracker holds a time
    for it, every later check fails at once, without reading the clock,
    and leaves the world as it is: the rule has alerted for the last
    time. *)
Theorem unreadable_times_silence_a_rule (rule : AlertRule) (w : World) :
  (forall e,
     parseTimeWindow (window rule) = inl e ->
     e = Throw ("Invalid time window format: " +:+ window rule) /\
     (forall w1, isInCooldown out rule w = (inr false, w1) ->
                 checkRule out rule w = (inl e, w1)) /\
     let w' := snd (checkGuarded out rule w) in
     countQueries w' = countQueries w /\ requests w' = requests w /\
     alertHistory w' = alertHistory w /\
     lastAlertTimes w' = lastAlertTimes w) /\
  (forall e t,
     parseTimeWindow (orElse (cooldown rule) "5m") = inl e ->
     lastAlertTimes w !! name rule = Some t ->
     checkRule out rule w = (inl e, w) /\
     checkGuarded out rule w = (inr tt, w)).
Proof.
  split.
  - intros e Hp. split; [apply parseTimeWindow_error, Hp|]. split.
    + intros w1 Hc. rewrite checkRule_unfold, Hc.
      apply (evaluate_throws out _ _ _ Hp).
    + cbv zeta. rewrite checkGuarded_eq, checkRule_unfold. cbn [snd].
      destruct (isInCooldown out rule w) as [[e'|[|]] w1] eqn:Hc;
        apply isInCooldown_world in Hc; destruct Hc as [Hl _ _ Hq Hh Hr _];
        cbn [snd]; rewrite ?(evaluate_throws out _ _ _ Hp); cbn [snd];
        auto.
  - intros e t Hp Ht. rewrite checkGuarded_eq, checkRule_unfold.
    rewrite (isInCooldown_throws out _ _ _ _ Ht Hp). auto.
Qed.

End CooldownEnd.

Section EngineSamples.
Import JS Exn Config Effects Update Database Webhook AlertEngine Spec Trace.

Lemma engine_without_rules_is_inert_witness :
  run sampleOutside disabledConfig (started disabledConfig)
    [Tick; Resume 0%nat; Tick]
  = started disabledConfig.
Proof.
  apply (engine_without_rules_is_inert sampleOutside disabledConfig
           [Tick; Resume 0%nat; Tick]).
  left. reflexivity.
Defined.



End EngineSamples.

(** ** A threshold of zero *)

Section ZeroThreshold.
Import JS Config Effects Webhook.
Local Open Scope Q_scope.

(** X26.  The severity for a threshold of zero, where the ratio of count
    and threshold is a division by zero.  For the count zero the ratio is
    not a number and the severity is info.  For another count the ratio is
    an infinity, positive or negative by the signs of the count and of the
    zero, and the severity is critical or info with it.  The severity
    warning is out of reach. *)
Theorem zero_threshold_severity (count threshold : Q) :
  threshold == 0 ->
  (count == 0 -> getSeverity count threshold = info) /\
  getSeverity count threshold <> warning.
Proof.
  intros Ht. apply Qeq_bool_iff in Ht. unfold getSeverity, divide.
  rewrite Ht. split.
  - intros Hc. apply Qeq_bool_iff in Hc. rewrite Hc. reflexivity.
  - destruct (Qeq_bool count 0); [discriminate|].
    destruct (Qle_bool 0 count); discriminate.
Qed.

Lemma zero_threshold_severity_witness :
  getSeverity 0 0 = info /\ getSeverity 1 0 <> warning.
Proof.
  destruct (zero_threshold_severity 0 0 ltac:(reflexivity)) as [H0 _].
  split; [apply H0; reflexivity|].
  apply (proj2 (zero_threshold_severity 1 0 ltac:(reflexivity))).
Defined.

End ZeroThreshold.

(** ** The HTTP interface *)

Section HttpInterface.
Import JS Exn Config Http.

Lemma handleLogs_cases (env : Surroundings) (limitParam : option string) :
  (exists limit,
     limitOf limitParam = Num limit /\ 1 <= limit <= 1000 /\
     snd (handleLogs env limitParam) = [limit] /\
     (status (fst (handleLogs env limitParam)) = 200 \/
      status (fst (handleLogs env limitParam)) = 500)) \/
  (match limitOf limitParam with
   | NaN => True
   | Num limit => limit < 1 \/ 1000 < limit
   end /\
   handleLogs env limitParam = (invalidLimit, [])).
Proof.
  unfold handleLogs. destruct (limitOf limitParam) as [|limit];
    [right; auto|].
  destruct (limit <? 1) eqn:E1; [right; apply Z.ltb_lt in E1; auto|].
  destruct (1000 <? limit) eqn:E2; [right; apply Z.ltb_lt in E2; auto|].
  apply Z.ltb_ge in E1, E2. left. exists limit. cbn [orb].
  split; [reflexivity|]. split; [lia|].
  destruct (getRecentLogs env limit); cbn; auto.
Qed.

Lemma handleRequest_logs (env : Surroundings) (req : HttpRequest) :
  pathname req = "/logs" -> method req = "GET" ->
  handleRequest env req = handleLogs env (limitParam req).
Proof. intros Hp Hm. unfold handleRequest. rewrite Hp, Hm. reflexivity. Qed.

Lemma handleRequest_other (env : Surroundings) (req : HttpRequest) :
  ~ (pathname req = "/logs" /\ method req = "GET") ->
  snd (handleRequest env req) = [] /\
  (status (fst (handleRequest env req)) = 404 <->
   ~ (method req = "GET" /\
      (pathname req = "/" \/ pathname req = "/health"
       \/ pathname req = "/logs"))).
Proof.
  intros Hno. unfold handleRequest.
  destruct (String.eqb_spec (method req) "GET") as [Hm|Hm].
  - destruct (String.eqb_spec (pathname req) "/") as [Hp1|Hp1].
    { cbn. split; [reflexivity|]. split; [discriminate|].
      intros H. exfalso. apply H. auto. }
    destruct (String.eqb_spec (pathname req) "/health") as [Hp2|Hp2].
    { cbn. split; [reflexivity|]. split; [discriminate|].
      intros H. exfalso. apply H. auto. }
    destruct (String.eqb_spec (pathname req) "/logs") as [Hp3|Hp3].
    { exfalso. apply Hno. auto. }
    cbn. split; [reflexivity|]. split; [|reflexivity].
    intros _ [_ [H|[H|H]]]; contradiction.
  - rewrite !andb_false_r. cbn. split; [reflexivity|].
    split; [|reflexivity]. intros _ [H _]. contradiction.
Qed.

(** X27.  The HTTP interface reads the log store only for a GET request
    on the path of the logs, at most once per request, and only with a
    limit from 1 to 1000.  Such a request is answered with status 400
    exactly when the limit parameter, read by [parseInt], is not a number
    or lies outside that range; without the parameter, or with an empty
    one, the limit is 50.  Any request that is not a GET on one of the
    three paths is answered with status 404. *)
Theorem http_limit_and_routes (env : Surroundings) (req : HttpRequest) :
  let response := fst (handleRequest env req) in
  let queried := snd (handleRequest env req) in
  (forall limit, limit ∈ queried ->
     1 <= limit <= 1000 /\ queried = [limit] /\
     pathname req = "/logs" /\ method req = "GET") /\
  (pathname req = "/logs" -> method req = "GET" ->
   (status response = 400 <->
    match limitOf (limitParam req) with
    | NaN => True
    | Num limit => limit < 1 \/ 1000 < limit
    end) /\
   (limitParam req = None \/ limitParam req = Some EmptyString ->
    queried = [50])) /\
  (status response = 404 <->
   ~ (method req = "GET" /\
      (pathname req = "/" \/ pathname req = "/health"
       \/ pathname req = "/logs"))).
Proof.
  cbv zeta.
  destruct (String.eqb_spec (pathname req) "/logs") as [Hp|Hp];
    [destruct (String.eqb_spec (method req) "GET") as [Hm|Hm]|].
  2,3: destruct (handleRequest_other env req) as [Hq H404];
         [intros [? ?]; contradiction|];
       rewrite Hq; split; [intros limit Hin; inversion Hin|];
       split; [intros; contradiction|exact H404].
  rewrite (handleRequest_logs env req Hp Hm).
  destruct (handleLogs_cases env (limitParam req))
    as [(limit & Hl & Hrange & Hq & Hs)|[Hbad Heq]].
  - rewrite Hq, Hl. split; [|split].
    + intros limit' Hin. apply list_elem_of_singleton in Hin as ->. auto.
    + intros _ _. split.
      * split; [intros H400; destruct Hs as [Hs|Hs]; congruence|lia].
      * intros [Hnone|Hempty]; [rewrite Hnone in Hl|rewrite Hempty in Hl];
          injection Hl as <-; reflexivity.
    + split; [intros H404; destruct Hs as [Hs|Hs]; congruence|].
      intros H. exfalso. apply H. auto.
  - rewrite Heq. cbn [fst snd]. split; [|split].
    + intros limit Hin. inversion Hin.
    + intros _ _. split; [split; [intros _; exact Hbad|reflexivity]|].
      intros [Hnone|Hempty];
        [rewrite Hnone in Hbad|rewrite Hempty in Hbad]; cbn in Hbad; lia.
    + split; [discriminate|]. intros H. exfalso. apply H. auto.
Qed.

End HttpInterface.

(** ** Lines in the classic format *)

Section ClassicLines.
Import JS Parser Wording Format Classic ClassicFormat.

Lemma spanWhile_all (p : ascii -> bool) (a rest : string) :
  every p a = true ->
  match rest with String c _ => p c = false | EmptyString => True end ->
  spanWhile p (a +:+ rest) = (a, rest).
Proof.
  intros Ha Hrest. induction a as [|c a IH].
  - rewrite append_nil_l. destruct rest as [|c rest]; [reflexivity|].
    cbn [spanWhile]. rewrite Hrest. reflexivity.
  - cbn [every] in Ha. apply andb_true_iff in Ha as [Hc Ha].
    rewrite append_cons. cbn [spanWhile]. rewrite Hc, (IH Ha). reflexivity.
Qed.

Lemma spanWhile_append (p : ascii -> bool) (s : string) :
  fst (spanWhile p s) +:+ snd (spanWhile p s) = s.
Proof.
  induction s as [|c s IH]; [reflexivity|].
  cbn [spanWhile]. destruct (p c); [|reflexivity].
  destruct (spanWhile p s) as [run rest]. cbn [fst snd] in *.
  rewrite append_cons, IH. reflexivity.
Qed.

Lemma spanWhile_trimStart (s : string) :
  snd (spanWhile isSpace s) = trimStart s.
Proof.
  induction s as [|c s IH]; [reflexivity|].
  cbn [spanWhile trimStart]. destruct (isSpace c); [|reflexivity].
  destruct (spanWhile isSpace s) as [run rest]. exact IH.
Qed.

Lemma noSpace_every (s : string) : every nonSpace s = noSpace s.
Proof.
  induction s as [|c s IH]; [reflexivity|].
  cbn [every noSpace]. rewrite IH. reflexivity.
Qed.

Lemma every_append (p : ascii -> bool) (a b : string) :
  every p (a +:+ b) = every p a && every p b.
Proof.
  induction a as [|c a IH]; [rewrite append_nil_l; reflexivity|].
  rewrite append_cons. cbn [every]. rewrite IH, andb_assoc. reflexivity.
Qed.

Lemma trimStart_keeps (s : string) (c : ascii) :
  includes s c = false -> includes (trimStart s) c = false.
Proof.
  induction s as [|d s IH]; [reflexivity|].
  intros H. cbn [trimStart]. destruct (isSpace d); [|exact H].
  cbn [includes] in H. apply orb_false_iff in H as [_ H]. exact (IH H).
Qed.

Lemma month_shape (mon : string) :
  isMonth mon = true ->
  exists a b c,
    mon = String a (String b (String c EmptyString)) /\
    isUpper a && isLower b && isLower c = true.
Proof.
  unfold isMonth. intros H.
  destruct mon as [|a [|b [|c [|x r]]]]; try discriminate.
  exists a, b, c. split; [reflexivity|exact H].
Qed.

Lemma clock_shape (time : string) :
  isClock time = true ->
  exists h1 h2 m1 m2 s1 s2,
    time = String h1 (String h2 (String ":" (String m1 (String m2
             (String ":" (String s1 (String s2 EmptyString))))))) /\
    isDigit h1 = true /\ isDigit h2 = true /\ isDigit m1 = true /\
    isDigit m2 = true /\ isDigit s1 = true /\ isDigit s2 = true.
Proof.
  unfold isClock, clockTime. intros H.
  destruct time as [|h1 [|h2 [|k1 [|m1 [|m2 [|k2 [|s1 [|s2 r]]]]]]]];
    try discriminate.
  destruct (isDigit h1) eqn:E1; [|discriminate].
  destruct (isDigit h2) eqn:E2; [|discriminate].
  destruct (Ascii.eqb_spec k1 ":") as [->|_]; [|discriminate].
  destruct (isDigit m1) eqn:E3; [|discriminate].
  destruct (isDigit m2) eqn:E4; [|discriminate].
  destruct (Ascii.eqb_spec k2 ":") as [->|_]; [|discriminate].
  destruct (isDigit s1) eqn:E5; [|discriminate].
  destruct (isDigit s2) eqn:E6; [|discriminate].
  cbn [andb] in H. destruct r; [|discriminate].
  exists h1, h2, m1, m2, s1, s2. repeat split; assumption.
Qed.

Lemma clockTime_app (time rest : string) :
  isClock time = true -> clockTime (time +:+ rest) = Some (time, rest).
Proof.
  intros H.
  destruct (clock_shape _ H)
    as (h1 & h2 & m1 & m2 & s1 & s2 & -> & H1 & H2 & H3 & H4 & H5 & H6).
  rewrite !append_cons, append_nil_l. unfold clockTime.
  rewrite H1, H2, H3, H4, H5, H6. reflexivity.
Qed.

Lemma lastColonFrom_end (t : string) (i : nat) :
  lastColonFrom (S i) (t +:+ ":") = Some (S i + String.length t)%nat.
Proof.
  revert i. induction t as [|c t IH]; intros i.
  - rewrite append_nil_l. cbn. f_equal. lia.
  - rewrite append_cons. cbn [lastColonFrom String.length].
    rewrite (IH (S i)). f_equal. lia.
Qed.

Lemma lastColonFrom_tag (tag : string) :
  truthy tag = true ->
  lastColonFrom 0 (tag +:+ ":") = Some (String.length tag).
Proof.
  destruct tag as [|c t]; [discriminate|]. intros _.
  rewrite append_cons. cbn [lastColonFrom String.length].
  rewrite lastColonFrom_end. reflexivity.
Qed.

(** The time stamp pattern on a time stamp followed by a space: group 1
    is the time stamp, and what follows the match is the text after the
    white space. *)
Lemma timestampPattern_stamp (mon gap day time rest : string) :
  isMonth mon = true -> isGap gap = true -> isDay day = true ->
  isClock time = true ->
  let stamp := bsdStamp mon gap day time in
  exists matched,
    timestampPattern (stamp +:+ " " +:+ rest) = Some (stamp, matched) /\
    substringFrom (stamp +:+ " " +:+ rest) matched = trimStart rest.
Proof.
  intros Hmon Hgap Hday Hclock stamp.
  destruct (month_shape _ Hmon) as (a & b & c & Emon & Habc).
  unfold isGap in Hgap. apply andb_true_iff in Hgap as [Tgap Egap].
  unfold isDay in Hday. apply andb_true_iff in Hday as [Dall Dlen].
  pose proof (clockTime_app time (String " " rest) Hclock) as Eclock.
  destruct (clock_shape _ Hclock)
    as (h1 & h2 & m1 & m2 & s1 & s2 & Etime & H1 & _).
  set (after := time +:+ String " " rest) in *.
  assert (Hafter : match after with
                   | String x _ => isSpace x = false
                   | EmptyString => True
                   end).
  { unfold after. rewrite Etime, append_cons.
    exact (isDigit_not_space h1 H1). }
  assert (Hday1 : match day +:+ String " " after with
                  | String x _ => isSpace x = false
                  | EmptyString => True
                  end).
  { destruct day as [|d day']; [discriminate|].
    rewrite append_cons. cbn [allDigits] in Dall.
    apply andb_true_iff in Dall as [Hd _]. exact (isDigit_not_space d Hd). }
  assert (E0 : stamp +:+ " " +:+ rest
               = String a (String b (String c
                   (gap +:+ (day +:+ String " " after))))).
  { unfold stamp, bsdStamp, after. rewrite Emon, !append_assoc.
    reflexivity. }
  assert (E1 : stamp = String a (String b (String c
                 (gap +:+ day +:+ " " +:+ time)))).
  { unfold stamp, bsdStamp. rewrite Emon. reflexivity. }
  destruct (spanWhile isSpace rest) as [run rest'] eqn:Er.
  exists (String.length stamp + S (String.length run))%nat. split.
  - rewrite E0. unfold timestampPattern.
    rewrite (spanWhile_all isSpace gap _ Egap Hday1).
    rewrite (spanDigits_all day (String " " after) Dall eq_refl).
    change (String " " after) with (" " +:+ after).
    rewrite (spanWhile_all isSpace " " after eq_refl Hafter).
    rewrite Eclock. cbn [spanWhile]. change (isSpace " ") with true.
    cbv iota. rewrite Er, Habc, Tgap, Dlen. cbn [truthy andb].
    rewrite E1. reflexivity.
  - unfold substringFrom. rewrite drop_add, drop_append.
    change (" " +:+ rest) with (String " " rest). cbn [drop].
    pose proof (spanWhile_append isSpace rest) as Happ.
    pose proof (spanWhile_trimStart rest) as Htrim.
    rewrite Er in Happ, Htrim. cbn [fst snd] in Happ, Htrim.
    rewrite <- Htrim. rewrite <- Happ at 1. apply drop_append.
Qed.

(** The host and tag pattern on a host, a tag, a process id in brackets
    if there is one, a colon and a tail that is empty or starts with white
    space. *)
Lemma hostAppPattern_fields (host tag : string) (pid : option string)
    (tail : string) :
  isToken host = true -> isTag tag = true -> isProcessId pid = true ->
  match tail with String x _ => isSpace x = true | EmptyString => True end ->
  hostAppPattern (host +:+ " " +:+ tag +:+ processPart pid +:+ ":" +:+ tail)
  = Some (host, tag, pid, trimStart tail).
Proof.
  intros Hhost Htag Hpid Htail.
  unfold isToken in Hhost. apply andb_true_iff in Hhost as [Thost Shost].
  rewrite <- noSpace_every in Shost.
  unfold isTag in Htag. apply andb_true_iff in Htag as [Ttag Stag].
  set (more := processPart pid +:+ ":" +:+ tail).
  assert (Htag1 : match tag +:+ more with
                  | String x _ => isSpace x = false
                  | EmptyString => True
                  end).
  { destruct tag as [|t tag']; [discriminate|].
    rewrite append_cons. cbn [every] in Stag.
    apply andb_true_iff in Stag as [Ht _]. unfold tagChar in Ht.
    apply andb_true_iff in Ht as [Ht _]. apply negb_true_iff in Ht.
    exact Ht. }
  unfold hostAppPattern.
  rewrite (spanWhile_all nonSpace host (" " +:+ tag +:+ more) Shost eq_refl).
  rewrite (spanWhile_all isSpace " " (tag +:+ more) eq_refl Htag1).
  unfold more. destruct pid as [digits|]; cbn [processPart].
  - cbn [isProcessId] in Hpid. apply andb_true_iff in Hpid as [Tpid Dpid].
    replace (("[" +:+ digits +:+ "]") +:+ ":" +:+ tail)
      with (String "[" (digits +:+ String "]" (String ":" tail)))
      by (rewrite !append_assoc; reflexivity).
    rewrite (spanWhile_all tagChar tag
               (String "[" (digits +:+ String "]" (String ":" tail)))
               Stag eq_refl).
    unfold bracketedId.
    rewrite (spanDigits_all digits (String "]" (String ":" tail)) Dpid eq_refl).
    destruct digits as [|d ds]; [discriminate|].
    rewrite Thost, Ttag, spanWhile_trimStart. reflexivity.
  - rewrite append_nil_l.
    replace (tag +:+ ":" +:+ tail) with ((tag +:+ ":") +:+ tail)
      by (rewrite append_assoc; reflexivity).
    assert (Srun : every tagChar (tag +:+ ":") = true)
      by (rewrite every_append, Stag; reflexivity).
    assert (Htail1 : match tail with
                     | String x _ => tagChar x = false
                     | EmptyString => True
                     end).
    { destruct tail as [|x r]; [exact I|]. unfold tagChar.
      rewrite Htail. reflexivity. }
    assert (Hnone : bracketedId tail = None).
    { destruct tail as [|x r]; [reflexivity|].
      destruct x as [[] [] [] [] [] [] [] []];
        first [discriminate Htail | reflexivity]. }
    rewrite (spanWhile_all tagChar (tag +:+ ":") tail Srun Htail1).
    rewrite Hnone, (lastColonFrom_tag tag Ttag), take_append.
    change (tag +:+ ":") with (tag +:+ String ":" EmptyString).
    rewrite drop_prefix, append_nil_l, spanWhile_trimStart.
    rewrite Thost. destruct tag; [discriminate|]. reflexivity.
Qed.

Lemma lastColonFrom_none (run : string) (i : nat) :
  includes run ":" = false -> lastColonFrom i run = None.
Proof.
  revert i. induction run as [|c run IH]; intros i H; [reflexivity|].
  cbn [includes] in H. apply orb_false_iff in H as [Hc Hrun].
  cbn [lastColonFrom]. rewrite (IH (S i) Hrun), Hc. reflexivity.
Qed.

Lemma bracketedId_none (s : string) :
  includes s ":" = false -> bracketedId s = None.
Proof.
  intros H. unfold bracketedId.
  destruct s as [|x r]; [reflexivity|].
  destruct (Ascii.eqb_spec x "[") as [->|Hx].
  - pose proof (spanDigits_append r) as Happ.
    destruct (spanDigits r) as [[|d ds] [|y [|z rest]]]; try reflexivity.
    + destruct y as [[] [] [] [] [] [] [] []]; reflexivity.
    + cbn [fst snd] in Happ.
      destruct (Ascii.eqb_spec y "]") as [->|Hy].
      * destruct (Ascii.eqb_spec z ":") as [->|Hz].
        -- exfalso. rewrite <- Happ in H. cbn [includes] in H.
           rewrite includes_append in H. cbn [includes] in H.
           rewrite !orb_true_r in H. discriminate.
        -- destruct z as [[] [] [] [] [] [] [] []];
             first [contradiction Hz; reflexivity | reflexivity].
      * destruct y as [[] [] [] [] [] [] [] []];
          first [contradiction Hy; reflexivity | reflexivity].
  - destruct x as [[] [] [] [] [] [] [] []];
      first [contradiction Hx; reflexivity | reflexivity].
Qed.

(** Without a colon in the text the host and tag pattern does not
    match. *)
Lemma hostAppPattern_needs_colon (s : string) :
  includes s ":" = false -> hostAppPattern s = None.
Proof.
  intros H. unfold hostAppPattern.
  pose proof (spanWhile_append nonSpace s) as E1.
  destruct (spanWhile nonSpace s) as [host r1]. cbn [fst snd] in E1.
  pose proof (spanWhile_append isSpace r1) as E2.
  destruct (spanWhile isSpace r1) as [ws r2]. cbn [fst snd] in E2.
  pose proof (spanWhile_append tagChar r2) as E3.
  destruct (spanWhile tagChar r2) as [run r3]. cbn [fst snd] in E3.
  rewrite <- E1, <- E2, <- E3, !includes_append in H.
  apply orb_false_iff in H as [_ H]. apply orb_false_iff in H as [_ H].
  apply orb_false_iff in H as [Hrun Hr3].
  rewrite (bracketedId_none _ Hr3), (lastColonFrom_none _ _ Hrun).
  destruct (_ && _); reflexivity.
Qed.

Lemma isUpper_shape (a : ascii) :
  isUpper a = true -> isSpace a = false /\ Ascii.eqb a "1" = false.
Proof.
  destruct a as [[] [] [] [] [] [] [] []]; cbn; intros H;
    first [discriminate | split; reflexivity].
Qed.

Lemma isLower_shape (a : ascii) : isLower a = true -> isSpace a = false.
Proof.
  destruct a as [[] [] [] [] [] [] [] []]; cbn; intros H;
    first [discriminate | reflexivity].
Qed.

Lemma orElse_text (s : string) : orElse (Some s) EmptyString = s.
Proof. destruct s; reflexivity. Qed.

Lemma orElse_truthy (s b : string) : truthy s = true -> orElse (Some s) b = s.
Proof. destruct s; [discriminate|reflexivity]. Qed.

Lemma trimStart_afterFields (msg : string) :
  trimStart (afterFields msg) = trim msg.
Proof.
  unfold afterFields. destruct (trimEnd msg) as [|x y] eqn:E.
  - rewrite (trim_blank _ E). reflexivity.
  - change (trimStart (String " " (String x y)))
      with (trimStart (String x y)).
    rewrite <- E, trimStart_trimEnd. reflexivity.
Qed.

(** A trimmed text that starts with a priority and goes on with a text
    that is not of version 1. *)
Lemma parse_classic (rt : Runtime) (rawMessage pri body : string) :
  pri <> EmptyString -> allDigits pri = true ->
  trim rawMessage = "<" +:+ pri +:+ ">" +:+ body ->
  trim body = body -> startsWith body "1 " = false ->
  parse rt rawMessage =
  parseRFC3164 rt (trim rawMessage) (Num (digitsValue pri / 8))
    (Num (digitsValue pri mod 8)) body.
Proof.
  intros Hne Hall Htrim Hbody Hstart.
  assert (ET : trim rawMessage = String "<" (pri +:+ String ">" body))
    by (rewrite Htrim; reflexivity).
  assert (Hgt : includes pri ">" = false)
    by (apply allDigits_excludes; [exact Hall|reflexivity]).
  assert (Hidx : indexOf (trim rawMessage) ">"
                 = Z.of_nat (String.length pri) + 1).
  { rewrite ET. cbn [indexOf]. rewrite (indexOf_skip _ _ _ Hgt).
    change (Ascii.eqb "<" ">") with false. cbv iota.
    destruct (_ <? 0) eqn:E; [apply Z.ltb_lt in E; lia|reflexivity]. }
  unfold Parser.parse. rewrite Hidx.
  replace (startsWith (trim rawMessage) "<") with true
    by (rewrite ET; reflexivity).
  replace (0 <? Z.of_nat (String.length pri) + 1) with true
    by (symmetry; apply Z.ltb_lt; lia).
  replace (substring (trim rawMessage) 1
             (Z.to_nat (Z.of_nat (String.length pri) + 1)))
    with pri.
  2:{ rewrite ET. unfold substring.
      replace (Z.to_nat (Z.of_nat (String.length pri) + 1))
        with (S (String.length pri)) by lia.
      rewrite Nat.min_l, Nat.max_r by lia. cbn [drop].
      replace (S (String.length pri) - 1)%nat with (String.length pri) by lia.
      rewrite take_append. reflexivity. }
  replace (substringFrom (trim rawMessage)
             (Z.to_nat (Z.of_nat (String.length pri) + 1 + 1)))
    with body.
  2:{ rewrite ET. unfold substringFrom.
      replace (Z.to_nat (Z.of_nat (String.length pri) + 1 + 1))
        with (S (S (String.length pri))) by lia.
      change (drop (S (S ?n)) (String ?c ?s)) with (drop (S n) s).
      rewrite drop_prefix. reflexivity. }
  rewrite Hbody, Hstart, (parseInt_digits _ Hne Hall). cbn [floorDiv remainder].
  rewrite Z.rem_mod_nonneg by (pose proof (digitsValue_nonneg pri); lia).
  reflexivity.
Qed.

(** A text that starts with a time stamp starts with a capital
    letter. *)
Lemma stamp_head (mon gap day time rest : string) :
  isMonth mon = true ->
  exists a more,
    bsdStamp mon gap day time +:+ rest = String a more /\
    isUpper a = true.
Proof.
  intros Hmon. destruct (month_shape _ Hmon) as (a & b & c & -> & Habc).
  apply andb_true_iff in Habc as [Habc _].
  apply andb_true_iff in Habc as [Ha _].
  exists a. eexists. split; [|exact Ha]. unfold bsdStamp.
  rewrite !append_cons. reflexivity.
Qed.

Lemma trim_headed (a : ascii) (more : string) :
  isSpace a = false -> trimEnd (String a more) = String a more ->
  trim (String a more) = String a more.
Proof.
  intros Ha He. unfold trim. cbn [trimStart]. rewrite Ha. exact He.
Qed.

(** X28.  A line in the classic format is taken apart field by field.
    With a priority of decimal digits, a time stamp of month, day and clock
    time, a host without white space, a tag without white space or opening
    bracket, and a process id of digits in brackets or none, the record has
    the facility and severity of the priority, for a priority of at most
    2^53, no version, the date that
    the time stamp with the current year appended denotes, the host, the
    tag as application name, the process id if there is one, and as message
    the trimmed text after the colon. *)
Theorem classic_line_fields (rt : Runtime)
    (pri mon gap day time host tag : string) (pid : option string)
    (msg : string) :
  pri <> EmptyString -> allDigits pri = true ->
  isMonth mon = true -> isGap gap = true -> isDay day = true ->
  isClock time = true ->
  isToken host = true -> isTag tag = true -> isProcessId pid = true ->
  let stamp := bsdStamp mon gap day time in
  let m := parse (withPatterns rt) (bsdLine pri stamp host tag pid msg) in
  (digitsValue pri <= maxExact ->
   facility m = Num (digitsValue pri / 8) /\
   severity m = Num (digitsValue pri mod 8)) /\
  version m = None /\
  timestamp m = newDate rt (stamp +:+ " " +:+ currentYear rt) /\
  hostname m = host /\ appName m = tag /\ procId m = pid /\
  msgId m = None /\ structuredData m = None /\
  message m = trim msg.
Proof.
  intros Hne Hall Hmon Hgap Hday Hclock Hhost Htag Hpid stamp.
  set (fields := host +:+ " " +:+ tag +:+ processPart pid).
  set (tail := afterFields msg).
  set (body := stamp +:+ " " +:+ fields +:+ ":" +:+ tail).
  pose proof (trimEnd_sixth ":" msg eq_refl eq_refl) as Etail.
  fold tail in Etail.
  assert (Etail' : trimEnd (":" +:+ tail) = ":" +:+ tail).
  { rewrite <- Etail. apply trimEnd_idem. }
  assert (Etrim : trim (bsdLine pri stamp host tag pid msg)
                  = "<" +:+ pri +:+ ">" +:+ body).
  { unfold trim, bsdLine.
    change (trimStart ("<" +:+ ?x)) with ("<" +:+ x).
    replace ("<" +:+ pri +:+ ">" +:+ stamp +:+ " " +:+ host +:+ " " +:+ tag
             +:+ processPart pid +:+ ":" +:+ " " +:+ msg)
      with (("<" +:+ pri +:+ ">" +:+ stamp +:+ " " +:+ fields)
            +:+ (":" +:+ " " +:+ msg))
      by (unfold fields; rewrite !append_assoc; reflexivity).
    rewrite trimEnd_append, Etail. change (truthy (":" +:+ tail)) with true.
    cbv iota. unfold body. rewrite !append_assoc. reflexivity. }
  destruct (stamp_head mon gap day time (" " +:+ fields +:+ ":" +:+ tail)
              Hmon) as (a & more & Ehead & Ha).
  fold stamp in Ehead. fold body in Ehead.
  destruct (isUpper_shape a Ha) as [Hsp Hone].
  assert (Ebody : trim body = body).
  { rewrite Ehead. apply trim_headed; [exact Hsp|]. rewrite <- Ehead.
    unfold body.
    replace (stamp +:+ " " +:+ fields +:+ ":" +:+ tail)
      with ((stamp +:+ " " +:+ fields) +:+ (":" +:+ tail))
      by (rewrite !append_assoc; reflexivity).
    rewrite trimEnd_append, Etail'. reflexivity. }
  assert (Hstart : startsWith body "1 " = false).
  { rewrite Ehead. cbn [startsWith]. rewrite Hone. reflexivity. }
  cbv zeta.
  rewrite (parse_classic (withPatterns rt) _ pri body Hne Hall Etrim Ebody
             Hstart).
  destruct (timestampPattern_stamp mon gap day time
              (fields +:+ ":" +:+ tail) Hmon Hgap Hday Hclock)
    as (matched & Ematch & Erest).
  fold stamp in Ematch, Erest. fold body in Ematch, Erest.
  assert (Hfields : trimStart (fields +:+ ":" +:+ tail)
                    = fields +:+ ":" +:+ tail).
  { unfold fields. pose proof Hhost as Hh. unfold isToken in Hh.
    apply andb_true_iff in Hh as [Th Sh].
    destruct host as [|h host']; [discriminate|].
    cbn [noSpace] in Sh. apply andb_true_iff in Sh as [Sh _].
    apply negb_true_iff in Sh. rewrite !append_cons. cbn [trimStart].
    rewrite Sh. reflexivity. }
  rewrite Hfields in Erest.
  assert (Htail : match tail with
                  | String x _ => isSpace x = true
                  | EmptyString => True
                  end).
  { unfold tail, afterFields. destruct (trimEnd msg); [exact I|reflexivity]. }
  pose proof (hostAppPattern_fields host tag pid tail Hhost Htag Hpid Htail)
    as Ehost.
  replace (host +:+ " " +:+ tag +:+ processPart pid +:+ ":" +:+ tail)
    with (fields +:+ ":" +:+ tail) in Ehost
    by (unfold fields; rewrite !append_assoc; reflexivity).
  unfold parseRFC3164. cbn [timestampMatch hostAppMatch withPatterns].
  rewrite Ematch, Erest, Ehost.
  cbn [facility severity version timestamp hostname appName procId msgId
       structuredData message newDate currentYear withPatterns].
  apply isToken_spec in Hhost as (Thost & _).
  unfold isTag in Htag. apply andb_true_iff in Htag as [Ttag _].
  rewrite (orElse_truthy _ _ Thost), (orElse_truthy _ _ Ttag), orElse_text.
  unfold tail. rewrite trimStart_afterFields. repeat split; reflexivity.
Qed.

(** X29.  A text without a colon after the time stamp has no host.  The
    pattern for host and tag needs a colon, so however many words the text
    has, the record has the nil value as host name and application name, no
    process id, and the whole trimmed text as message; the time is the one
    the time stamp denotes. *)
Theorem colonless_text_has_no_host (rt : Runtime)
    (pri mon gap day time text : string) :
  pri <> EmptyString -> allDigits pri = true ->
  isMonth mon = true -> isGap gap = true -> isDay day = true ->
  isClock time = true ->
  includes text ":" = false -> trim text <> EmptyString ->
  let stamp := bsdStamp mon gap day time in
  let m := parse (withPatterns rt) (stampedText pri stamp text) in
  timestamp m = newDate rt (stamp +:+ " " +:+ currentYear rt) /\
  hostname m = "-" /\ appName m = "-" /\ procId m = None /\
  message m = trim text.
Proof.
  intros Hne Hall Hmon Hgap Hday Hclock Hcolon Htext stamp.
  assert (Ttext : truthy (trimEnd text) = true).
  { destruct (trimEnd text) eqn:E; [|reflexivity].
    exfalso. apply Htext, trim_blank, E. }
  set (body := stamp +:+ " " +:+ trimEnd text).
  assert (Etrim : trim (stampedText pri stamp text)
                  = "<" +:+ pri +:+ ">" +:+ body).
  { unfold trim, stampedText.
    change (trimStart ("<" +:+ ?x)) with ("<" +:+ x).
    replace ("<" +:+ pri +:+ ">" +:+ stamp +:+ " " +:+ text)
      with (("<" +:+ pri +:+ ">" +:+ stamp +:+ " ") +:+ text)
      by (rewrite !append_assoc; reflexivity).
    rewrite trimEnd_append, Ttext. unfold body. rewrite !append_assoc.
    reflexivity. }
  destruct (stamp_head mon gap day time (" " +:+ trimEnd text) Hmon)
    as (a & more & Ehead & Ha).
  fold stamp in Ehead. fold body in Ehead.
  destruct (isUpper_shape a Ha) as [Hsp Hone].
  assert (Ebody : trim body = body).
  { rewrite Ehead. apply trim_headed; [exact Hsp|]. rewrite <- Ehead.
    unfold body.
    replace (stamp +:+ " " +:+ trimEnd text)
      with ((stamp +:+ " ") +:+ trimEnd text)
      by (rewrite !append_assoc; reflexivity).
    rewrite trimEnd_append, trimEnd_idem, Ttext. reflexivity. }
  assert (Hstart : startsWith body "1 " = false).
  { rewrite Ehead. cbn [startsWith]. rewrite Hone. reflexivity. }
  cbv zeta.
  rewrite (parse_classic (withPatterns rt) _ pri body Hne Hall Etrim Ebody
             Hstart).
  destruct (timestampPattern_stamp mon gap day time (trimEnd text)
              Hmon Hgap Hday Hclock) as (matched & Ematch & Erest).
  fold stamp in Ematch, Erest. fold body in Ematch, Erest.
  assert (Enone : hostAppPattern (trimStart (trimEnd text)) = None).
  { apply hostAppPattern_needs_colon, trimStart_keeps, trimEnd_keeps, Hcolon. }
  unfold parseRFC3164. cbn [timestampMatch hostAppMatch withPatterns].
  rewrite Ematch, Erest, Enone.
  cbn [timestamp hostname appName procId message newDate currentYear
       withPatterns].
  rewrite trimStart_trimEnd. repeat split; reflexivity.
Qed.

Lemma blank_trimEnd (s : string) :
  every isSpace s = true -> trimEnd s = EmptyString.
Proof.
  induction s as [|c s IH]; [reflexivity|].
  cbn [every]. intros H. apply andb_true_iff in H as [Hc Hs].
  rewrite trimEnd_step, (IH Hs), Hc. reflexivity.
Qed.

Lemma allDigits_tagChars (s : string) :
  allDigits s = true -> every tagChar s = true.
Proof.
  induction s as [|c s IH]; [reflexivity|].
  cbn [allDigits every]. intros H. apply andb_true_iff in H as [Hc Hs].
  rewrite (IH Hs), andb_true_r. clear - Hc.
  destruct c as [[] [] [] [] [] [] [] []]; cbn in *;
    first [discriminate | reflexivity].
Qed.

(** X30.  A time stamp with nothing after it is not read as a time
    stamp.  The pattern wants white space after the clock time, and the
    line has been trimmed: the record then has the time of arrival, the nil
    value as host name and application name, and the time stamp itself as
    message. *)
Theorem stamp_alone_is_the_message (rt : Runtime)
    (pri mon gap day time blank : string) :
  pri <> EmptyString -> allDigits pri = true ->
  isMonth mon = true -> isGap gap = true -> isDay day = true ->
  isClock time = true ->
  every isSpace blank = true ->
  let stamp := bsdStamp mon gap day time in
  let m := parse (withPatterns rt) (stampedText pri stamp blank) in
  timestamp m = DateAt (now rt) /\
  hostname m = "-" /\ appName m = "-" /\ procId m = None /\
  message m = stamp.
Proof.
  intros Hne Hall Hmon Hgap Hday Hclock Hblank stamp.
  pose proof (clockTime_app time EmptyString Hclock) as Eclock.
  rewrite append_nil_r in Eclock.
  destruct (month_shape _ Hmon) as (a & b & c & Emon & Habc).
  pose proof Habc as Habc'.
  apply andb_true_iff in Habc' as [Hab Hc].
  apply andb_true_iff in Hab as [Ha Hb].
  destruct (isUpper_shape a Ha) as [Hsp Hone].
  unfold isGap in Hgap. apply andb_true_iff in Hgap as [Tgap Egap].
  unfold isDay in Hday. apply andb_true_iff in Hday as [Dall Dlen].
  destruct (clock_shape _ Hclock)
    as (h1 & h2 & m1 & m2 & s1 & s2 & Etime & H1 & H2 & H3 & H4 & H5 & H6).
  assert (Stime : noSpace time = true).
  { rewrite Etime. cbn [noSpace].
    rewrite (isDigit_not_space _ H1), (isDigit_not_space _ H2),
      (isDigit_not_space _ H3), (isDigit_not_space _ H4),
      (isDigit_not_space _ H5), (isDigit_not_space _ H6).
    reflexivity. }
  assert (Ttime : truthy time = true) by (rewrite Etime; reflexivity).
  assert (Estamp : trimEnd stamp = stamp).
  { unfold stamp, bsdStamp.
    replace (mon +:+ gap +:+ day +:+ " " +:+ time)
      with ((mon +:+ gap +:+ day +:+ " ") +:+ time)
      by (rewrite !append_assoc; reflexivity).
    rewrite trimEnd_append, (trimEnd_noSpace _ Stime), Ttime. reflexivity. }
  assert (E0 : stamp = String a (String b (String c
                 (gap +:+ (day +:+ String " " time))))).
  { unfold stamp, bsdStamp. rewrite Emon. reflexivity. }
  assert (Tstamp : truthy stamp = true) by (rewrite E0; reflexivity).
  assert (Etrim : trim (stampedText pri stamp blank)
                  = "<" +:+ pri +:+ ">" +:+ stamp).
  { unfold trim, stampedText.
    change (trimStart ("<" +:+ ?x)) with ("<" +:+ x).
    replace ("<" +:+ pri +:+ ">" +:+ stamp +:+ " " +:+ blank)
      with (("<" +:+ pri +:+ ">") +:+ (stamp +:+ (" " +:+ blank)))
      by (rewrite !append_assoc; reflexivity).
    rewrite trimEnd_append, (trimEnd_append stamp).
    rewrite (blank_trimEnd (" " +:+ blank)) by exact Hblank.
    cbn [truthy]. rewrite Estamp, Tstamp, !append_assoc. reflexivity. }
  assert (Ebody : trim stamp = stamp).
  { rewrite E0. apply trim_headed; [exact Hsp|]. rewrite <- E0.
    exact Estamp. }
  assert (Hstart : startsWith stamp "1 " = false).
  { rewrite E0. cbn [startsWith]. rewrite Hone. reflexivity. }
  assert (Hday1 : match day +:+ String " " time with
                  | String x _ => isSpace x = false
                  | EmptyString => True
                  end).
  { destruct day as [|d day']; [discriminate|].
    rewrite append_cons. cbn [allDigits] in Dall.
    apply andb_true_iff in Dall as [Hd _]. exact (isDigit_not_space d Hd). }
  assert (Htime1 : match time with
                   | String x _ => isSpace x = false
                   | EmptyString => True
                   end).
  { rewrite Etime. exact (isDigit_not_space h1 H1). }
  assert (Ets : timestampPattern stamp = None).
  { rewrite E0. unfold timestampPattern.
    rewrite (spanWhile_all isSpace gap _ Egap Hday1).
    rewrite (spanDigits_all day (String " " time) Dall eq_refl).
    change (String " " time) with (" " +:+ time).
    rewrite (spanWhile_all isSpace " " time eq_refl Htime1).
    rewrite Eclock. cbn [spanWhile truthy]. rewrite !andb_false_r.
    reflexivity. }
  assert (Eha : hostAppPattern stamp = None).
  { assert (Smon : every nonSpace mon = true).
    { rewrite Emon. cbn [every]. unfold nonSpace.
      rewrite Hsp, (isLower_shape _ Hb), (isLower_shape _ Hc). reflexivity. }
    assert (Hgap1 : match gap +:+ day +:+ " " +:+ time with
                    | String x _ => nonSpace x = false
                    | EmptyString => True
                    end).
    { destruct gap as [|g gap']; [discriminate|].
      rewrite append_cons. cbn [every] in Egap.
      apply andb_true_iff in Egap as [Hg _]. unfold nonSpace.
      rewrite Hg. reflexivity. }
    unfold stamp, bsdStamp, hostAppPattern.
    rewrite (spanWhile_all nonSpace mon _ Smon Hgap1).
    change (day +:+ " " +:+ time) with (day +:+ String " " time).
    rewrite (spanWhile_all isSpace gap _ Egap Hday1).
    rewrite (spanWhile_all tagChar day (String " " time)
               (allDigits_tagChars _ Dall) eq_refl).
    change (bracketedId (String " " time)) with (@None (string * string)).
    rewrite (lastColonFrom_none day 0
               (allDigits_excludes day ":" Dall eq_refl)).
    destruct (truthy mon && truthy gap && truthy day); reflexivity. }
  cbv zeta.
  rewrite (parse_classic (withPatterns rt) _ pri stamp Hne Hall Etrim Ebody
             Hstart).
  unfold parseRFC3164. cbn [timestampMatch hostAppMatch withPatterns].
  rewrite Ets, Eha. repeat split; reflexivity.
Qed.

End ClassicLines.

Section ClassicSamples.
Import JS Parser Wording Format Classic ClassicFormat.

Lemma classic_line_fields_witness :
  let m := parse (withPatterns quietRuntime)
             "<34>Oct 11 22:14:15 mymachine su[230]: 'su root' failed" in
  facility m = Num 4 /\ severity m = Num 2 /\
  hostname m = "mymachine" /\ appName m = "su" /\ procId m = Some "230" /\
  message m = "'su root' failed".
Proof.
  destruct (classic_line_fields quietRuntime "34" "Oct" " " "11" "22:14:15"
              "mymachine" "su" (Some "230") "'su root' failed"
              ltac:(discriminate) eq_refl eq_refl eq_refl eq_refl eq_refl
              eq_refl eq_refl eq_refl)
    as (Hfs & _ & _ & Hh & Ha & Hp & _ & _ & Hm).
  destruct (Hfs ltac:(vm_compute; discriminate)) as [Hf Hs].
  exact (conj Hf (conj Hs (conj Hh (conj Ha (conj Hp Hm))))).
Defined.

Lemma colonless_text_has_no_host_witness :
  let m := parse (withPatterns quietRuntime)
             "<13>Oct  1 22:14:15 myhost disk is almost full" in
  hostname m = "-" /\ appName m = "-" /\
  message m = "myhost disk is almost full".
Proof.
  destruct (colonless_text_has_no_host quietRuntime "13" "Oct" "  " "1"
              "22:14:15" "myhost disk is almost full"
              ltac:(discriminate) eq_refl eq_refl eq_refl eq_refl eq_refl
              eq_refl ltac:(discriminate))
    as (_ & Hh & Ha & _ & Hm).
  exact (conj Hh (conj Ha Hm)).
Defined.

Lemma stamp_alone_is_the_message_witness :
  let m := parse (withPatterns quietRuntime) "<13>Oct 11 22:14:15 " in
  timestamp m = DateAt 0 /\ hostname m = "-" /\
  message m = "Oct 11 22:14:15".
Proof.
  destruct (stamp_alone_is_the_message quietRuntime "13" "Oct" " " "11"
              "22:14:15" EmptyString
              ltac:(discriminate) eq_refl eq_refl eq_refl eq_refl eq_refl
              eq_refl)
    as (Ht & Hh & _ & _ & Hm).
  exact (conj Ht (conj Hh Hm)).
Defined.

End ClassicSamples.
